(** * Letta Code SDK integration: approval gate, permission matcher,
      session registry and session coordinator (server/letta-sdk.js)

    A shallow embedding of the JavaScript module and the properties of it
    that the specification states.  JavaScript strings are sequences of
    UTF-16 code units, values are the JSON-shaped data the module receives
    from the client and the backend, and the module-level maps and the
    closures of [queryLettaSDK] are explicit state. *)

From Stdlib Require Import ZArith NArith String Ascii Bool Lia.
From stdpp Require Import base option list gmap.

Local Open Scope N_scope.

(** ** Strings *)

(** A JavaScript string is the list of its UTF-16 code units, [list N].
    [lit] reads an ASCII string literal of the source as such a string. *)
Fixpoint lit (s : string) : list N :=
  match s with
  | EmptyString => []
  | String c r => N_of_ascii c :: lit r
  end.
Arguments lit : simpl never.

(** WhiteSpace and LineTerminator code units, the ones [String.prototype.trim]
    strips. *)
Definition is_line_terminator (c : N) : bool :=
  (c =? 0x0A) || (c =? 0x0D) || (c =? 0x2028) || (c =? 0x2029).

Definition is_white_space (c : N) : bool :=
  (c =? 0x09) || (c =? 0x0B) || (c =? 0x0C) || (c =? 0x20) || (c =? 0xA0)
  || (c =? 0x1680) || ((0x2000 <=? c) && (c <=? 0x200A))
  || (c =? 0x202F) || (c =? 0x205F) || (c =? 0x3000) || (c =? 0xFEFF).

Definition is_trimmable (c : N) : bool :=
  is_white_space c || is_line_terminator c.

Fixpoint trim_start (s : list N) : list N :=
  match s with
  | c :: r => if is_trimmable c then trim_start r else s
  | [] => []
  end.

(** [s.trim()] *)
Definition trim (s : list N) : list N :=
  rev (trim_start (rev (trim_start s))).

(** [s.startsWith(p)] *)
Fixpoint startsWith (s p : list N) {struct p} : bool :=
  match p, s with
  | [], _ => true
  | c :: p', d :: s' => (c =? d) && startsWith s' p'
  | _ :: _, [] => false
  end.

(** [s === t] on strings. *)
Definition str_eqb (s t : list N) : bool := bool_decide (s = t).

(** ** Values *)

(** The data the module handles: JSON values, [undefined], and [Error]
    objects.  Arrays and objects carry the address of their allocation,
    which is what [===] compares.  Numbers are integers: the module only
    tests them for zero and for equality. *)
#[warnings="-register-all"] Inductive value : Type :=
| JUndefined
| JNull
| JBool (b : bool)
| JNum (n : Z)
| JStr (s : list N)
| JArr (ref : nat) (items : list value)
| JObj (ref : nat) (fields : list (list N * value))
| JError (ref : nat) (message : list N).

(** The outcome of evaluating code that may throw. *)
Inductive completion (A : Type) : Type :=
| Normal (a : A)
| Throw (e : value).
Arguments Normal {A} a.
Arguments Throw {A} e.

#[global] Instance completion_ret : MRet completion := fun A a => Normal a.
#[global] Instance completion_bind : MBind completion := fun A B k c =>
  match c with
  | Normal a => k a
  | Throw e => Throw e
  end.

(** ToBoolean *)
Definition truthy (v : value) : bool :=
  match v with
  | JUndefined | JNull => false
  | JBool b => b
  | JNum n => negb (n =? 0)%Z
  | JStr s => negb (str_eqb s [])
  | JArr _ _ | JObj _ _ | JError _ _ => true
  end.

(** [a === b] *)
Definition strict_eq (a b : value) : bool :=
  match a, b with
  | JUndefined, JUndefined => true
  | JNull, JNull => true
  | JBool x, JBool y => Bool.eqb x y
  | JNum x, JNum y => (x =? y)%Z
  | JStr x, JStr y => str_eqb x y
  | JArr r _, JArr r' _ => Nat.eqb r r'
  | JObj r _, JObj r' _ => Nat.eqb r r'
  | JError r _, JError r' _ => Nat.eqb r r'
  | _, _ => false
  end.

Fixpoint assoc (k : list N) (fs : list (list N * value)) : option value :=
  match fs with
  | [] => None
  | (k', v) :: r => if str_eqb k k' then Some v else assoc k r
  end.

(** A [TypeError] raised by the runtime. *)
Definition TypeError (msg : string) : value := JError 0%nat (lit msg).

(** [v.k] for the property names this module reads; none of them is a
    built-in property of a primitive or of an array. *)
Definition get_prop (v : value) (k : string) : completion value :=
  match v with
  | JUndefined | JNull => Throw (TypeError "Cannot read properties of undefined or null")
  | JObj _ fs => Normal (default JUndefined (assoc (lit k) fs))
  | JError _ m => Normal (if str_eqb (lit k) (lit "message") then JStr m else JUndefined)
  | _ => Normal JUndefined
  end.

(** [typeof v === 'string'] and [typeof v === 'object'] *)
Definition typeof_string (v : value) : bool :=
  match v with JStr _ => true | _ => false end.

Definition typeof_object (v : value) : bool :=
  match v with JNull | JArr _ _ | JObj _ _ | JError _ _ => true | _ => false end.

(** ** Permission matcher *)

(** The regular expression [/^Bash\((.+):\*\)$/] applied to a string: the
    captured group, if the string matches.  [dot_plus_then suffix s] is the
    greedy [(.+)] followed by [suffix] and the end of input: it first tries to
    take one more character and falls back to stopping here. *)
Fixpoint strip_literal (p s : list N) {struct p} : option (list N) :=
  match p, s with
  | [], _ => Some s
  | c :: p', d :: s' => if c =? d then strip_literal p' s' else None
  | _ :: _, [] => None
  end.

Fixpoint dot_plus_then (suffix s : list N) : option (list N) :=
  match s with
  | [] => None
  | c :: r =>
      if is_line_terminator c then None
      else match dot_plus_then suffix r with
           | Some g => Some (c :: g)
           | None => if str_eqb r suffix then Some [c] else None
           end
  end.

Definition bash_regexp (entry : list N) : option (list N) :=
  r ← strip_literal (lit "Bash(") entry; dot_plus_then (lit ":*)") r.

(** [matchesToolPermission(entry, toolName, input)] *)
Definition matchesToolPermission (entry toolName input : value) : completion bool :=
  if negb (truthy entry) || negb (truthy toolName) then Normal false
  else if strict_eq entry toolName then Normal true
  else
    bashMatch ← match entry with
                 | JStr s => Normal (bash_regexp s)
                 | _ => Throw (TypeError "entry.match is not a function")
                 end;
    match bashMatch with
    | Some allowedPrefix =>
        if strict_eq toolName (JStr (lit "Bash")) then
          let command :=
            match input with
            | JStr s => trim s
            | _ =>
                if truthy input && typeof_object input then
                  match get_prop input "command" with
                  | Normal (JStr c) => trim c
                  | _ => []
                  end
                else []
            end in
          Normal (if truthy (JStr command) then startsWith command allowedPrefix else false)
        else Normal false
    | None => Normal false
    end.

(** ** Tool policy *)

Record ToolsSettings := {
  allowedTools : list value;
  disallowedTools : list value;
  skipPermissions : bool;
}.

(** [a || b] and [a ?? b] *)
Definition js_or (a b : value) : value := if truthy a then a else b.

Definition nullish_or (a b : value) : value :=
  match a with JUndefined | JNull => b | _ => a end.

(** A parameter with the default [= {}]. *)
Definition or_empty_object (v : value) : value :=
  match v with JUndefined => JObj 0%nat [] | _ => v end.

(** [Array.isArray(v) ? v : []] *)
Definition array_or_empty (v : value) : list value :=
  match v with JArr _ items => items | _ => [] end.

(** [normalizeToolsSettings(options)] *)
Definition normalizeToolsSettings (options : value) : completion ToolsSettings :=
  let options := or_empty_object options in
  ts ← get_prop options "toolsSettings";
  let toolsSettings := js_or ts (JObj 0%nat []) in
  allowed ← get_prop toolsSettings "allowedTools";
  disallowed ← get_prop toolsSettings "disallowedTools";
  skip ← get_prop toolsSettings "skipPermissions";
  Normal {| allowedTools := array_or_empty allowed;
            disallowedTools := array_or_empty disallowed;
            skipPermissions := truthy skip |}.

(** [array.some(f)] for a callback that may throw. *)
Fixpoint array_some (f : value -> completion bool) (l : list value) : completion bool :=
  match l with
  | [] => Normal false
  | x :: r =>
      match f x with
      | Throw e => Throw e
      | Normal true => Normal true
      | Normal false => array_some f r
      end
  end.

(** ** Signals sent to the peer *)

(** [err instanceof Error ? err.message : String(err)] *)
Inductive ErrorText : Type :=
| Message (m : list N)
| StringOf (v : value).

Definition error_text (err : value) : ErrorText :=
  match err with
  | JError _ m => Message m
  | v => StringOf v
  end.

(** The [data] of a [letta-response]. *)
Inductive ResponseData : Type :=
| StreamEvent (event : value)
| AssistantText (text : value)
| ToolUse (id name input : value)
| ToolResult (tool_use_id content : value) (is_error : bool).

(** The object literals handed to [emit], by their [type] field. *)
Inductive Payload : Type :=
| PermissionRequest (requestId : list N) (toolName input sessionId : value)
| PermissionCancelled (requestId : list N) (reason : list N) (sessionId : value)
| LettaError (error : ErrorText) (sessionId : value)
| SessionCreated (sessionId agentId conversationId : value)
| LettaResponse (data : ResponseData) (sessionId : value)
| LettaComplete (sessionId : value) (exitCode : Z) (success : bool)
    (durationMs totalCostUsd conversationId : value).

(** What [canUseTool] answers the backend. *)
Inductive ToolDecision : Type :=
| Allow (updatedInput : value)
| Deny (message : value).

(** ** State *)

(** The [onCancel] callback [canUseTool] passes to the gate: the arrow function
    that emits [claude-permission-cancelled] for the [requestId] it closes
    over. *)
Inductive Callback : Type :=
| CancelNotice (requestId : list N).

(** The closure state of one [waitForToolApproval] call. *)
Record Approval := {
  ap_requestId : list N;
  ap_onCancel : option Callback;
  ap_settled : bool;
  ap_timeout : bool;       (* the timer is armed *)
}.

Record SessionEntry := {
  session : nat;
  startTime : Z;
}.

(** What the module does that its environment can see, in order. *)
Inductive Obs : Type :=
| Emit (p : Payload)                          (* [emit(ws, p)], that is [ws.send(p)] *)
| OnCancel (a : nat) (reason : list N)        (* the [onCancel] of approval [a] is called *)
| Resolved (a : nat) (decision : value)       (* the promise of approval [a] is resolved *)
| Answered (r : completion ToolDecision)      (* [canUseTool] settles without waiting *)
| Decided (a : nat) (r : completion ToolDecision) (* [canUseTool] settles after approval [a] *)
| BindSession (id : value)                    (* [ws.setSessionId(id)] *)
| Prompt (text : list N).                     (* [session.send(text)] *)

Record World := {
  (* module state *)
  activeSessions : list (value * SessionEntry);
  pendingToolApprovals : gmap (list N) nat;
  (* runtime: closures, timers, pending promise reactions, entropy, clock *)
  approvals : list Approval;
  jobs : list (nat * value);
  randomUUID : nat -> list N;
  drawn : nat;
  now : Z;
  trace : list Obs;
  (* the variables of a [queryLettaSDK] call that [canUseTool] closes over *)
  permissionMode : value;
  toolsSettings : ToolsSettings;
  requestedAgentId : value;
  agentId : value;
}.

Definition set_pending (f : gmap (list N) nat -> gmap (list N) nat) (w : World) : World :=
  {| activeSessions := activeSessions w; pendingToolApprovals := f (pendingToolApprovals w);
     approvals := approvals w; jobs := jobs w; randomUUID := randomUUID w;
     drawn := drawn w; now := now w; trace := trace w;
     permissionMode := permissionMode w; toolsSettings := toolsSettings w;
     requestedAgentId := requestedAgentId w; agentId := agentId w |}.

Definition set_approvals (f : list Approval -> list Approval) (w : World) : World :=
  {| activeSessions := activeSessions w; pendingToolApprovals := pendingToolApprovals w;
     approvals := f (approvals w); jobs := jobs w; randomUUID := randomUUID w;
     drawn := drawn w; now := now w; trace := trace w;
     permissionMode := permissionMode w; toolsSettings := toolsSettings w;
     requestedAgentId := requestedAgentId w; agentId := agentId w |}.

Definition set_jobs (f : list (nat * value) -> list (nat * value)) (w : World) : World :=
  {| activeSessions := activeSessions w; pendingToolApprovals := pendingToolApprovals w;
     approvals := approvals w; jobs := f (jobs w); randomUUID := randomUUID w;
     drawn := drawn w; now := now w; trace := trace w;
     permissionMode := permissionMode w; toolsSettings := toolsSettings w;
     requestedAgentId := requestedAgentId w; agentId := agentId w |}.

Definition set_drawn (n : nat) (w : World) : World :=
  {| activeSessions := activeSessions w; pendingToolApprovals := pendingToolApprovals w;
     approvals := approvals w; jobs := jobs w; randomUUID := randomUUID w;
     drawn := n; now := now w; trace := trace w;
     permissionMode := permissionMode w; toolsSettings := toolsSettings w;
     requestedAgentId := requestedAgentId w; agentId := agentId w |}.

Definition observe (o : Obs) (w : World) : World :=
  {| activeSessions := activeSessions w; pendingToolApprovals := pendingToolApprovals w;
     approvals := approvals w; jobs := jobs w; randomUUID := randomUUID w;
     drawn := drawn w; now := now w; trace := trace w ++ [o];
     permissionMode := permissionMode w; toolsSettings := toolsSettings w;
     requestedAgentId := requestedAgentId w; agentId := agentId w |}.

Definition set_toolsSettings (t : ToolsSettings) (w : World) : World :=
  {| activeSessions := activeSessions w; pendingToolApprovals := pendingToolApprovals w;
     approvals := approvals w; jobs := jobs w; randomUUID := randomUUID w;
     drawn := drawn w; now := now w; trace := trace w;
     permissionMode := permissionMode w; toolsSettings := t;
     requestedAgentId := requestedAgentId w; agentId := agentId w |}.

Definition set_agentId (a : value) (w : World) : World :=
  {| activeSessions := activeSessions w; pendingToolApprovals := pendingToolApprovals w;
     approvals := approvals w; jobs := jobs w; randomUUID := randomUUID w;
     drawn := drawn w; now := now w; trace := trace w;
     permissionMode := permissionMode w; toolsSettings := toolsSettings w;
     requestedAgentId := requestedAgentId w; agentId := a |}.

Definition set_activeSessions (m : list (value * SessionEntry)) (w : World) : World :=
  {| activeSessions := m; pendingToolApprovals := pendingToolApprovals w;
     approvals := approvals w; jobs := jobs w; randomUUID := randomUUID w;
     drawn := drawn w; now := now w; trace := trace w;
     permissionMode := permissionMode w; toolsSettings := toolsSettings w;
     requestedAgentId := requestedAgentId w; agentId := agentId w |}.

(** The closure variables as [queryLettaSDK] initialises them. *)
Definition enter_dispatch (mode : value) (t : ToolsSettings) (requested : value)
    (w : World) : World :=
  {| activeSessions := activeSessions w; pendingToolApprovals := pendingToolApprovals w;
     approvals := approvals w; jobs := jobs w; randomUUID := randomUUID w;
     drawn := drawn w; now := now w; trace := trace w;
     permissionMode := mode; toolsSettings := t;
     requestedAgentId := requested; agentId := requested |}.

(** [emit(ws, payload)]: [ws.send(payload)] with every exception swallowed. *)
Definition emit (p : Payload) (w : World) : World := observe (Emit p) w.

(** ** Approval gate *)

(** [createRequestId()]: [letta_] followed by the next random identifier. *)
Definition createRequestId (w : World) : list N * World :=
  (lit "letta_" ++ randomUUID w (drawn w), set_drawn (S (drawn w)) w).

Definition settle (ap : Approval) : Approval :=
  {| ap_requestId := ap_requestId ap; ap_onCancel := ap_onCancel ap;
     ap_settled := true; ap_timeout := ap_timeout ap |}.

Definition disarm (ap : Approval) : Approval :=
  {| ap_requestId := ap_requestId ap; ap_onCancel := ap_onCancel ap;
     ap_settled := ap_settled ap; ap_timeout := false |}.

(** [clearTimeout(timeout)] in the closure of approval [a]. *)
Definition clearTimeout (a : nat) (w : World) : World :=
  set_approvals (fun l => match l !! a with
                          | Some ap => <[a := disarm ap]> l
                          | None => l
                          end) w.

(** [resolve(decision)] on the promise of approval [a]: the awaiting
    [canUseTool] is queued to continue with [decision]. *)
Definition resolve (a : nat) (decision : value) (w : World) : World :=
  set_jobs (fun q => q ++ [(a, decision)]) (observe (Resolved a decision) w).

(** [finalize(decision)] in the closure of approval [a]. *)
Definition finalize (a : nat) (decision : value) (w : World) : World :=
  match approvals w !! a with
  | None => w
  | Some ap =>
      if ap_settled ap then w
      else
        let w := set_approvals (<[a := settle ap]>) w in
        let w := set_pending (delete (ap_requestId ap)) w in
        let w := clearTimeout a w in
        resolve a decision w
  end.

(** [onCancel?.(reason)] *)
Definition call_onCancel (a : nat) (cb : option Callback) (reason : list N)
    (w : World) : World :=
  match cb with
  | None => w
  | Some (CancelNotice requestId) =>
      emit (PermissionCancelled requestId reason (js_or (agentId w) (requestedAgentId w)))
           (observe (OnCancel a reason) w)
  end.

(** The function given to [setTimeout] in the closure of approval [a]. *)
Definition timeout_callback (a : nat) (w : World) : World :=
  match approvals w !! a with
  | None => w
  | Some ap => finalize a JNull (call_onCancel a (ap_onCancel ap) (lit "timeout") w)
  end.

(** The runtime runs the callback of a timer once, and only while the timer
    is armed. *)
Definition fire_timer (a : nat) (w : World) : World :=
  match approvals w !! a with
  | Some ap => if ap_timeout ap then timeout_callback a (clearTimeout a w) else w
  | None => w
  end.

(** [waitForToolApproval(requestId, { onCancel })], up to the promise it
    returns: the new closure, its armed timer and its resolver in the map.
    The delay of the timer is left out: an armed timer may expire at any
    later event. *)
Definition waitForToolApproval (requestId : list N) (onCancel : option Callback)
    (w : World) : nat * World :=
  let a := length (approvals w) in
  let w := set_approvals (fun l => l ++ [{| ap_requestId := requestId; ap_onCancel := onCancel;
                                           ap_settled := false; ap_timeout := true |}]) w in
  (a, set_pending (<[requestId := a]>) w).

(** [resolveLettaToolApproval(requestId, decision)]; every key of the map is
    a string. *)
Definition resolveLettaToolApproval (requestId decision : value) (w : World) : World :=
  match requestId with
  | JStr k =>
      match pendingToolApprovals w !! k with
      | Some a => finalize a decision w
      | None => w
      end
  | _ => w
  end.

(** ** Authorization callback *)

(** Allow-and-remember: the update of [toolsSettings]. *)
Definition remember (rememberEntry : value) (t : ToolsSettings) : ToolsSettings :=
  {| allowedTools :=
       if existsb (strict_eq rememberEntry) (allowedTools t) then allowedTools t
       else allowedTools t ++ [rememberEntry];
     disallowedTools :=
       List.filter (fun entry => negb (strict_eq entry rememberEntry)) (disallowedTools t);
     skipPermissions := skipPermissions t |}.

(** [canUseTool(toolName, input)] up to its [await]: the decision it returns
    at once, or the approval it waits for. *)
Definition canUseTool (toolName input : value) (w : World)
    : completion (ToolDecision + nat) * World :=
  if strict_eq (permissionMode w) (JStr (lit "bypassPermissions"))
     || skipPermissions (toolsSettings w)
  then (Normal (inl (Allow JNull)), w)
  else
    match array_some (fun entry => matchesToolPermission entry toolName input)
                     (disallowedTools (toolsSettings w)) with
    | Throw e => (Throw e, w)
    | Normal true => (Normal (inl (Deny (JStr (lit "Tool disallowed by settings")))), w)
    | Normal false =>
        match array_some (fun entry => matchesToolPermission entry toolName input)
                         (allowedTools (toolsSettings w)) with
        | Throw e => (Throw e, w)
        | Normal true => (Normal (inl (Allow JNull)), w)
        | Normal false =>
            let '(requestId, w) := createRequestId w in
            let w := emit (PermissionRequest requestId toolName input
                             (js_or (agentId w) (requestedAgentId w))) w in
            let '(a, w) := waitForToolApproval requestId (Some (CancelNotice requestId)) w in
            (Normal (inr a), w)
        end
    end.

(** [canUseTool] from the [await] on, given the [decision] the promise was
    resolved with. *)
Definition canUseTool_resume (decision : value) (w : World)
    : completion ToolDecision * World :=
  if negb (truthy decision)
  then (Normal (Deny (JStr (lit "Permission request timed out"))), w)
  else
    match get_prop decision "allow" with
    | Throw e => (Throw e, w)
    | Normal allow =>
        if truthy allow then
          match get_prop decision "rememberEntry" with
          | Throw e => (Throw e, w)
          | Normal rememberEntry =>
              let w := if truthy rememberEntry && typeof_string rememberEntry
                       then set_toolsSettings (remember rememberEntry (toolsSettings w)) w
                       else w in
              match get_prop decision "updatedInput" with
              | Throw e => (Throw e, w)
              | Normal u => (Normal (Allow (nullish_or u JNull)), w)
              end
          end
        else
          match get_prop decision "message" with
          | Throw e => (Throw e, w)
          | Normal m => (Normal (Deny (nullish_or m (JStr (lit "User denied tool use")))), w)
          end
    end.

(** ** The event loop *)

(** What can happen to the callback and the gate: the backend asks for a
    decision, the peer answers a request, a timer expires.  These events leave
    the variable [agentId] alone; its assignment by [queryLettaSDK] while the
    closures are live is an event of [dispatch_event] below. *)
Inductive event : Type :=
| ToolCall (toolName input : value)
| ApprovalResponse (requestId decision : value)
| TimerFires (a : nat).

Definition handle (ev : event) (w : World) : World :=
  match ev with
  | ToolCall toolName input =>
      match canUseTool toolName input w with
      | (Normal (inl d), w) => observe (Answered (Normal d)) w
      | (Normal (inr _), w) => w
      | (Throw e, w) => observe (Answered (Throw e)) w
      end
  | ApprovalResponse requestId decision => resolveLettaToolApproval requestId decision w
  | TimerFires a => fire_timer a w
  end.

(** The promise reactions queued by the handler run before the next event. *)
Definition run_job (j : nat * value) (w : World) : World :=
  let '(r, w) := canUseTool_resume (snd j) w in observe (Decided (fst j) r) w.

Definition run_jobs (w : World) : World :=
  fold_left (fun w j => run_job j w) (jobs w) (set_jobs (fun _ => []) w).

Definition step (w : World) (ev : event) : World := run_jobs (handle ev w).

Definition run (evs : list event) (w : World) : World := fold_left step evs w.

(** ** Session registry *)

(** The [Map] of active sessions: keys in insertion order, compared as
    [Map] compares them. *)
Definition map_has {V} (k : value) (m : list (value * V)) : bool :=
  existsb (fun kv => strict_eq (fst kv) k) m.

Definition map_set {V} (k : value) (v : V) (m : list (value * V)) : list (value * V) :=
  if map_has k m
  then map (fun kv => if strict_eq (fst kv) k then (fst kv, v) else kv) m
  else m ++ [(k, v)].

(** [isLettaSDKSessionActive(agentId)] *)
Definition isLettaSDKSessionActive (id : value) (w : World) : bool :=
  map_has id (activeSessions w).

(** [getActiveLettaSDKSessions()] *)
Definition getActiveLettaSDKSessions (w : World) : list value :=
  map fst (activeSessions w).

(** ** Session coordinator *)

(** What the iterator of [session.stream()] does when asked for the next
    event. *)
Inductive StreamItem : Type :=
| Yield (msg : value)
| Raise (err : value).

(** The collaborators of one [queryLettaSDK] call: the backend session and
    what the transport and the process offer. *)
Record Env := {
  process_cwd : value;
  createSession_result : completion nat;
  initialize_result : completion value;
  send_result : completion unit;
  stream_items : list StreamItem;
  ws_setSessionId : bool;
}.

(** [normalizeCwd(options)] *)
Definition normalizeCwd (options : value) (env : Env) : completion value :=
  let options := or_empty_object options in
  cwd ← get_prop options "cwd";
  projectPath ← get_prop options "projectPath";
  Normal (js_or (js_or cwd projectPath) (process_cwd env)).

Definition is_type (t : value) (name : string) : bool := strict_eq t (JStr (lit name)).

(** The body of the [for await] loop on one event: the world after it and
    whether the loop ends. *)
Definition consume_event (msg : value) (w : World) : completion (World * bool) :=
  ty ← get_prop msg "type";
  if is_type ty "stream_event" then
    ev ← get_prop msg "event";
    Normal (emit (LettaResponse (StreamEvent ev) (agentId w)) w, false)
  else if is_type ty "assistant" then
    content ← get_prop msg "content";
    Normal (emit (LettaResponse (AssistantText content) (agentId w)) w, false)
  else if is_type ty "tool_call" then
    id ← get_prop msg "toolCallId";
    name ← get_prop msg "toolName";
    input ← get_prop msg "toolInput";
    Normal (emit (LettaResponse (ToolUse id name input) (agentId w)) w, false)
  else if is_type ty "tool_result" then
    id ← get_prop msg "toolCallId";
    content ← get_prop msg "content";
    isError ← get_prop msg "isError";
    Normal (emit (LettaResponse (ToolResult id content (truthy isError)) (agentId w)) w, false)
  else if is_type ty "result" then
    success ← get_prop msg "success";
    durationMs ← get_prop msg "durationMs";
    totalCostUsd ← get_prop msg "totalCostUsd";
    conversationId ← get_prop msg "conversationId";
    Normal (emit (LettaComplete (agentId w) (if truthy success then 0 else 1)%Z
                    (truthy success) durationMs totalCostUsd conversationId) w, true)
  else Normal (w, false).

(** [for await (const msg of session.stream()) { ... }] *)
Fixpoint consume (items : list StreamItem) (w : World) : World * completion unit :=
  match items with
  | [] => (w, Normal tt)
  | Raise err :: _ => (w, Throw err)
  | Yield msg :: rest =>
      match consume_event msg w with
      | Throw e => (w, Throw e)
      | Normal (w', true) => (w', Normal tt)
      | Normal (w', false) => consume rest w'
      end
  end.

(** [(command || '').trim()] *)
Definition prompt_of (command : value) : completion (list N) :=
  match js_or command (JStr []) with
  | JStr s => Normal (trim s)
  | _ => Throw (TypeError "(command || '').trim is not a function")
  end.

(** The body of the second [try] block. *)
Definition stream_session (command : value) (env : Env) (w : World)
    : World * completion unit :=
  match prompt_of command with
  | Throw e => (w, Throw e)
  | Normal prompt =>
      if truthy (JStr prompt) then
        let w := observe (Prompt prompt) w in
        match send_result env with
        | Throw e => (w, Throw e)
        | Normal _ => consume (stream_items env) w
        end
      else consume (stream_items env) w
  end.

(** The first lines of [queryLettaSDK]: the permission mode, the tool policy
    and the requested identity read from [options]. *)
Definition read_options (options : value) (env : Env)
    : completion (value * ToolsSettings * value) :=
  let options := or_empty_object options in
  cwd ← normalizeCwd options env;
  mode ← get_prop options "permissionMode";
  settings ← normalizeToolsSettings options;
  sessionId ← get_prop options "sessionId";
  Normal (js_or mode (JStr (lit "default")), settings, js_or sessionId JNull).

(** The body of the first [try] block: [init] and [init.agentId]. *)
Definition initialize_session (env : Env) : completion (value * value) :=
  init ← initialize_result env;
  a ← get_prop init "agentId";
  Normal (init, a).

(** [queryLettaSDK(command, options, ws)]: the world when its promise settles,
    and whether it is fulfilled or rejected. *)
Definition queryLettaSDK (command options : value) (env : Env) (w : World)
    : World * completion unit :=
  match read_options options env with
  | Throw e => (w, Throw e)
  | Normal (mode, settings, requested) =>
      match createSession_result env with
      | Throw e => (w, Throw e)
      | Normal handle =>
          let w := enter_dispatch mode settings requested w in
          match initialize_session env with
          | Throw err => (emit (LettaError (error_text err) (agentId w)) w, Normal tt)
          | Normal (init, a) =>
              let w := set_agentId a w in
              if negb (truthy a) then
                (emit (LettaError (Message (lit "Letta SDK did not return agentId")) JNull) w,
                 Normal tt)
              else
                let w := set_activeSessions
                           (map_set a {| session := handle; startTime := now w |}
                                    (activeSessions w)) w in
                let w := if ws_setSessionId env then observe (BindSession a) w else w in
                match get_prop init "conversationId" with
                | Throw e => (w, Throw e)
                | Normal conversationId =>
                    let w := emit (SessionCreated a a conversationId) w in
                    match stream_session command env w with
                    | (w, Throw err) =>
                        (emit (LettaError (error_text err) (agentId w)) w, Normal tt)
                    | (w, Normal _) => (w, Normal tt)
                    end
                end
          end
      end
  end.

(** ** The specification's wording, for comparison with the code *)

(** The command string of an input: a bare string, or the string field
    [command] of a structured input; empty when there is none. *)
Definition command_of (input : value) : list N :=
  match input with
  | JStr s => s
  | JObj _ fields =>
      match assoc (lit "command") fields with
      | Some (JStr c) => c
      | _ => []
      end
  | _ => []
  end.

(** [entry] is the prefix-wildcard form: [Bash], an opening parenthesis, a
    prefix [P], a colon, a star and a closing parenthesis. *)
Definition is_prefix_wildcard (entry P : list N) : Prop :=
  entry = lit "Bash(" ++ P ++ lit ":*)"
  /\ P <> [] /\ Forall (fun c => is_line_terminator c = false) P.

(** The specification's rule for a prefix-wildcard entry for tool [Bash] with
    prefix [P]: it matches iff the tool name is [Bash] and the trimmed command
    is not empty and starts with [P]. *)
Definition wildcard_rule (P : list N) (toolName input : value) : Prop :=
  matchesToolPermission (JStr (lit "Bash(" ++ P ++ lit ":*)")) toolName input = Normal true
  <-> (toolName = JStr (lit "Bash")
       /\ trim (command_of input) <> []
       /\ exists rest, trim (command_of input) = P ++ rest).

(** The specification's rule for a disallowed entry: with the skip-all flag
    off, a matching disallowed entry that no allowed entry overrides makes the
    callback deny with the fixed reason, the world unchanged. *)
Definition disallowed_rule (w : World) (toolName input : value) : Prop :=
  skipPermissions (toolsSettings w) = false ->
  (exists entry, entry ∈ disallowedTools (toolsSettings w)
                 /\ matchesToolPermission entry toolName input = Normal true) ->
  (forall entry, entry ∈ allowedTools (toolsSettings w) ->
                 matchesToolPermission entry toolName input = Normal false) ->
  canUseTool toolName input w
  = (Normal (inl (Deny (JStr (lit "Tool disallowed by settings")))), w).

(** The specification's rule for a remembered entry: after a decision with
    [allow] set that carries the remember entry [r], every tool call that [r]
    matches is allowed at once, the world unchanged. *)
Definition remember_rule (w : World) (decision : value) (r : list N)
    (toolName input : value) : Prop :=
  (exists allow, get_prop decision "allow" = Normal allow /\ truthy allow = true) ->
  get_prop decision "rememberEntry" = Normal (JStr r) ->
  r <> [] ->
  matchesToolPermission (JStr r) toolName input = Normal true ->
  let w' := snd (canUseTool_resume decision w) in
  canUseTool toolName input w' = (Normal (inl (Allow JNull)), w').

(** [v.k] as a value: [undefined] where the read would raise. *)
Definition field (v : value) (k : string) : value :=
  match get_prop v k with
  | Normal x => x
  | Throw _ => JUndefined
  end.

(** Session initialization fails: the backend raises, returns nothing, or
    returns no session identity. *)
Definition initialization_fails (env : Env) : Prop :=
  (exists err, initialize_result env = Throw err)
  \/ (exists init, initialize_result env = Normal init
                   /\ (init = JUndefined \/ init = JNull \/ truthy (field init "agentId") = false)).

(** A stream item that is an event other than the terminal result. *)
Definition not_terminal (item : StreamItem) : Prop :=
  exists msg ty, item = Yield msg /\ get_prop msg "type" = Normal ty
                 /\ ty <> JStr (lit "result").

(** ** Runs of the event loop *)

(** The module as loaded, with the closure variables of one dispatch: no
    approval has been requested yet. *)
Definition boot (sessions : list (value * SessionEntry)) (uuid : nat -> list N)
    (clock : Z) (mode : value) (settings : ToolsSettings) (requested agent : value)
    : World :=
  {| activeSessions := sessions; pendingToolApprovals := ∅;
     approvals := []; jobs := []; randomUUID := uuid; drawn := 0%nat; now := clock;
     trace := [];
     permissionMode := mode; toolsSettings := settings;
     requestedAgentId := requested; agentId := agent |}.

(** The history of one approval in a trace: the calls of its [onCancel] and
    the resolutions of its promise, in order. *)
Inductive GateObs : Type :=
| Cancelled (reason : list N)
| Settled (decision : value).

Definition gate_obs (a : nat) (o : Obs) : option GateObs :=
  match o with
  | OnCancel a' reason => if Nat.eqb a' a then Some (Cancelled reason) else None
  | Resolved a' decision => if Nat.eqb a' a then Some (Settled decision) else None
  | _ => None
  end.

Definition gate_log (a : nat) (tr : list Obs) : list GateObs := omap (gate_obs a) tr.
Arguments gate_log : simpl never.

(** The signals in a trace. *)
Definition signal (o : Obs) : option Payload :=
  match o with Emit p => Some p | _ => None end.

Definition signals (tr : list Obs) : list Payload := omap signal tr.

Definition is_permission_request (p : Payload) : bool :=
  match p with PermissionRequest _ _ _ _ => true | _ => false end.

Definition is_cancellation (p : Payload) : bool :=
  match p with PermissionCancelled _ _ _ => true | _ => false end.

Definition is_error (p : Payload) : bool :=
  match p with LettaError _ _ => true | _ => false end.

Definition is_completion (p : Payload) : bool :=
  match p with LettaComplete _ _ _ _ _ _ => true | _ => false end.

Definition is_session_created (p : Payload) : bool :=
  match p with SessionCreated _ _ _ => true | _ => false end.

Definition is_prompt (o : Obs) : bool :=
  match o with Prompt _ => true | _ => false end.

(** An observation that is a completion or an error signal. *)
Definition is_terminal_signal (o : Obs) : bool :=
  match o with
  | Emit p => is_completion p || is_error p
  | _ => false
  end.

(** An observation that is a streamed response. *)
Definition is_response (o : Obs) : bool :=
  match o with
  | Emit (LettaResponse _ _) => true
  | _ => false
  end.

(** The world with the state of the gate replaced. *)
Definition with_gate (pending : gmap (list N) nat) (closures : list Approval)
    (queue : list (nat * value)) (tr : list Obs) (w : World) : World :=
  {| activeSessions := activeSessions w; pendingToolApprovals := pending;
     approvals := closures; jobs := queue; randomUUID := randomUUID w;
     drawn := drawn w; now := now w; trace := tr;
     permissionMode := permissionMode w; toolsSettings := toolsSettings w;
     requestedAgentId := requestedAgentId w; agentId := agentId w |}.

(** What holds of the gate at any time: a resolver in the map belongs to an
    unsettled request of that token, a timer is armed exactly as long as its
    request is unsettled, and the history of a request is empty until it
    settles and then has one of two forms. *)
Record gate_ok (w : World) : Prop := {
  inv_pending : forall k a, pendingToolApprovals w !! k = Some a ->
    exists ap, approvals w !! a = Some ap /\ ap_requestId ap = k /\ ap_settled ap = false;
  inv_shape : forall a ap, approvals w !! a = Some ap ->
    ap_timeout ap = negb (ap_settled ap)
    /\ ap_onCancel ap = Some (CancelNotice (ap_requestId ap));
  inv_log : forall a,
    match approvals w !! a with
    | Some ap =>
        if ap_settled ap
        then (exists d, gate_log a (trace w) = [Settled d])
             \/ gate_log a (trace w) = [Cancelled (lit "timeout"); Settled JNull]
        else gate_log a (trace w) = []
    | None => gate_log a (trace w) = []
    end;
}.

(** Tokens are the identifiers drawn so far, and no two requests share one. *)
Definition tokens_fresh (w : World) : Prop :=
  (forall a ap, approvals w !! a = Some ap ->
     exists j, (j < drawn w)%nat /\ ap_requestId ap = lit "letta_" ++ randomUUID w j)
  /\ (forall a a' ap ap', approvals w !! a = Some ap -> approvals w !! a' = Some ap' ->
        ap_requestId ap = ap_requestId ap' -> a = a').

(** Between two events no promise reaction is waiting to run. *)
Definition gate_inv (w : World) : Prop := jobs w = [] /\ gate_ok w.

(** The world in which [canUseTool] waits after asking the peer: a fresh
    token, the approval-request signal, and the new closure of the gate. *)
Definition asking (toolName input : value) (w : World) : World :=
  let requestId := lit "letta_" ++ randomUUID w (drawn w) in
  with_gate (<[requestId := length (approvals w)]> (pendingToolApprovals w))
            (approvals w ++ [{| ap_requestId := requestId;
                                ap_onCancel := Some (CancelNotice requestId);
                                ap_settled := false; ap_timeout := true |}])
            (jobs w)
            (trace w ++ [Emit (PermissionRequest requestId toolName input
                                 (js_or (agentId w) (requestedAgentId w)))])
            (set_drawn (S (drawn w)) w).

(** How the policy of a dispatch can change while it runs: allowed entries
    are kept and only strings are added, disallowed entries are only removed,
    and the skip-all flag stays. *)
Definition policy_grows (t t' : ToolsSettings) : Prop :=
  (forall e, e ∈ allowedTools t -> e ∈ allowedTools t')
  /\ (forall e, e ∈ allowedTools t' -> e ∈ allowedTools t \/ exists s, e = JStr s)
  /\ (forall e, e ∈ disallowedTools t' -> e ∈ disallowedTools t)
  /\ skipPermissions t' = skipPermissions t.

(** ** Aborting a session *)

(** [map.get(k)] and [map.delete(k)] on the [Map] of active sessions. *)
Definition map_get {V} (k : value) (m : list (value * V)) : option V :=
  snd <$> List.find (fun kv => strict_eq (fst kv) k) m.

Definition map_delete {V} (k : value) (m : list (value * V)) : list (value * V) :=
  List.filter (fun kv => negb (strict_eq (fst kv) k)) m.

(** What [abortLettaSDKSession] asks of a session handle. *)
Inductive SessionCall : Type :=
| CallAbort (handle : nat)
| CallClose (handle : nat).

(** How the session answers: the outcome of [session.abort()], and that of
    [session.close()] if the session has a [close]. *)
Record SessionOps := {
  abort_result : completion unit;
  close_result : option (completion unit);
}.

(** [try { ... } catch { }] *)
Definition swallow {A} (c : completion A) : unit :=
  match c with
  | Normal _ => tt
  | Throw _ => tt
  end.

(** [abortLettaSDKSession(agentId)]: the calls made on the session, the
    answer, and the world afterwards.  [during] is what the rest of the program
    does to the world while the function waits for [session.abort()]; the
    entry is removed from the map as it is after that. *)
Definition abortLettaSDKSession (id : value) (ops : SessionOps)
    (during : World -> World) (w : World) : list SessionCall * bool * World :=
  match map_get id (activeSessions w) with
  | None => ([], false, w)
  | Some entry =>
      let '(_, w) := (swallow (abort_result ops), during w) in
      let closing :=
        match close_result ops with
        | Some outcome => let _ := swallow outcome in [CallClose (session entry)]
        | None => []
        end in
      (CallAbort (session entry) :: closing, true,
       set_activeSessions (map_delete id (activeSessions w)) w)
  end.

(** ** More projections of states and traces *)

(** No two keys of the map are the same key. *)
Fixpoint distinct_keys {V} (m : list (value * V)) : bool :=
  match m with
  | [] => true
  | kv :: r => negb (map_has (fst kv) r) && distinct_keys r
  end.

(** The [sessionId] a signal carries. *)
Definition payload_session (p : Payload) : value :=
  match p with
  | PermissionRequest _ _ _ sessionId => sessionId
  | PermissionCancelled _ _ sessionId => sessionId
  | LettaError _ sessionId => sessionId
  | SessionCreated sessionId _ _ => sessionId
  | LettaResponse _ sessionId => sessionId
  | LettaComplete sessionId _ _ _ _ _ => sessionId
  end.

(** The tokens of the approval requests announced in a trace, in order. *)
Definition request_token (o : Obs) : option (list N) :=
  match o with
  | Emit (PermissionRequest requestId _ _ _) => Some requestId
  | _ => None
  end.

Definition request_tokens (tr : list Obs) : list (list N) := omap request_token tr.

(** The tokens of the cancellations announced in a trace, in order. *)
Definition cancelled_token (o : Obs) : option (list N) :=
  match o with
  | Emit (PermissionCancelled requestId _ _) => Some requestId
  | _ => None
  end.

Definition cancelled_tokens (tr : list Obs) : list (list N) := omap cancelled_token tr.

(** The prompts dispatched in a trace, in order. *)
Definition prompt_text (o : Obs) : option (list N) :=
  match o with
  | Prompt text => Some text
  | _ => None
  end.

Definition prompts (tr : list Obs) : list (list N) := omap prompt_text tr.

(** The answers of the callback in a trace, in order. *)
Definition answer (o : Obs) : option (completion ToolDecision) :=
  match o with
  | Answered r => Some r
  | Decided _ r => Some r
  | _ => None
  end.

Definition answers (tr : list Obs) : list (completion ToolDecision) := omap answer tr.

(** An observation that is the answer of the callback after an approval. *)
Definition is_decided (o : Obs) : bool :=
  match o with
  | Decided _ _ => true
  | _ => false
  end.

(** What one event does to the gate, apart from the answers of the callbacks
    it wakes up: the observations it adds, and the map, the closures and the
    number of identifiers drawn afterwards.  The callback answers at once or
    raises; or it asks the peer; or a response settles a pending request; or
    a timer settles an unsettled one. *)
Inductive step_shape (w : World)
  : list Obs -> gmap (list N) nat -> list Approval -> nat -> Prop :=
| shape_idle :
    step_shape w [] (pendingToolApprovals w) (approvals w) (drawn w)
| shape_answered (r : completion ToolDecision) :
    step_shape w [Answered r] (pendingToolApprovals w) (approvals w) (drawn w)
| shape_asking (toolName input : value) :
    step_shape w
      [Emit (PermissionRequest (lit "letta_" ++ randomUUID w (drawn w)) toolName input
               (js_or (agentId w) (requestedAgentId w)))]
      (<[lit "letta_" ++ randomUUID w (drawn w) := length (approvals w)]>
         (pendingToolApprovals w))
      (approvals w ++ [{| ap_requestId := lit "letta_" ++ randomUUID w (drawn w);
                          ap_onCancel :=
                            Some (CancelNotice (lit "letta_" ++ randomUUID w (drawn w)));
                          ap_settled := false; ap_timeout := true |}])
      (S (drawn w))
| shape_response (a : nat) (ap : Approval) (decision : value) :
    approvals w !! a = Some ap -> ap_settled ap = false ->
    pendingToolApprovals w !! ap_requestId ap = Some a ->
    step_shape w [Resolved a decision]
      (delete (ap_requestId ap) (pendingToolApprovals w))
      (<[a := disarm (settle ap)]> (approvals w)) (drawn w)
| shape_timeout (a : nat) (ap : Approval) :
    approvals w !! a = Some ap -> ap_settled ap = false ->
    step_shape w
      [OnCancel a (lit "timeout");
       Emit (PermissionCancelled (ap_requestId ap) (lit "timeout")
               (js_or (agentId w) (requestedAgentId w)));
       Resolved a JNull]
      (delete (ap_requestId ap) (pendingToolApprovals w))
      (<[a := disarm (settle ap)]> (approvals w)) (drawn w).

(** The callbacks an observation wakes up: resolving the promise of an
    approval queues the callback that waits for it. *)
Definition woken_by (o : Obs) : option (nat * value) :=
  match o with
  | Resolved a decision => Some (a, decision)
  | _ => None
  end.

Definition woken (tr : list Obs) : list (nat * value) := omap woken_by tr.

(** The answers the callback gave after approval [a], in order. *)
Definition decided_obs (a : nat) (o : Obs) : option (completion ToolDecision) :=
  match o with
  | Decided a' r => if Nat.eqb a' a then Some r else None
  | _ => None
  end.

Definition decided_log (a : nat) (tr : list Obs) : list (completion ToolDecision) :=
  omap (decided_obs a) tr.

(** The position of a request gives its token. *)
Definition tokens_by_position (w : World) : Prop :=
  drawn w = length (approvals w)
  /\ forall a ap, approvals w !! a = Some ap ->
                  ap_requestId ap = lit "letta_" ++ randomUUID w a.

(** Every unsettled request is reachable through the map under its token. *)
Definition pending_complete (w : World) : Prop :=
  forall a ap, approvals w !! a = Some ap -> ap_settled ap = false ->
               pendingToolApprovals w !! ap_requestId ap = Some a.

(** The signals about approvals agree with the requests of the gate: one
    announcement per request, in order, and cancellations only for requests
    that have settled. *)
Definition announced (w : World) : Prop :=
  request_tokens (trace w) = map ap_requestId (approvals w)
  /\ forall k, k ∈ cancelled_tokens (trace w) ->
       exists a ap, approvals w !! a = Some ap /\ ap_requestId ap = k
                    /\ ap_settled ap = true.

(** The callback has answered exactly the requests that have settled, once
    each. *)
Definition answered_once (w : World) : Prop :=
  forall a,
    match approvals w !! a with
    | Some ap =>
        if ap_settled ap then exists r, decided_log a (trace w) = [r]
        else decided_log a (trace w) = []
    | None => decided_log a (trace w) = []
    end.

(** ** The gate during a dispatch *)

(** What happens while a dispatch runs, as the gate sees it: the events of
    the event loop, and the assignment [agentId = init.agentId] that
    [queryLettaSDK] makes when [session.initialize()] has returned.  The
    closures of [canUseTool] and [onCancel] are live by then and read the
    variable when they emit. *)
Inductive dispatch_event : Type :=
| GateEvent (ev : event)
| AgentAssigned (a : value).

Definition dispatch_step (w : World) (d : dispatch_event) : World :=
  match d with
  | GateEvent ev => step w ev
  | AgentAssigned a => set_agentId a w
  end.

Definition dispatch_run (ds : list dispatch_event) (w : World) : World :=
  fold_left dispatch_step ds w.



(** ** Sample data *)

Definition empty_policy : ToolsSettings :=
  {| allowedTools := []; disallowedTools := []; skipPermissions := false |}.

(** Identifiers ["0"], ["1"], ... in place of random ones. *)
Definition sample_uuid (n : nat) : list N := [48 + N.of_nat n].

(** A dispatch in the default permission mode with an empty policy. *)
Definition sample_world : World :=
  boot [] sample_uuid 0 (JStr (lit "default")) empty_policy JNull JNull.

Definition ls_call : event :=
  ToolCall (JStr (lit "Bash")) (JObj 1 [(lit "command", JStr (lit "ls -la"))]).

Definition rm_call_input : value := JObj 1 [(lit "command", JStr (lit "rm -rf build"))].

(** A policy that forbids [rm] commands. *)
Definition no_rm_policy : ToolsSettings :=
  {| allowedTools := []; disallowedTools := [JStr (lit "Bash(rm:*)")];
     skipPermissions := false |}.

Definition no_rm_world : World :=
  boot [] sample_uuid 0 (JStr (lit "default")) no_rm_policy JNull JNull.

(** The same policy in a dispatch whose permission mode bypasses approval. *)
Definition bypass_world : World :=
  boot [] sample_uuid 0 (JStr (lit "bypassPermissions")) no_rm_policy JNull JNull.

(** A policy with the skip-all flag set, and entries that would deny or make
    the matcher raise if they were consulted. *)
Definition skip_world : World :=
  boot [] sample_uuid 0 (JStr (lit "default"))
       {| allowedTools := [JNum 42]; disallowedTools := [JNum 42; JStr (lit "Bash")];
          skipPermissions := true |} JNull JNull.

(** A policy whose allowed entries would override, were they consulted
    first. *)
Definition overridden_world : World :=
  boot [] sample_uuid 0 (JStr (lit "default"))
       {| allowedTools := [JStr (lit "Bash")];
          disallowedTools := [JStr (lit "Edit"); JStr (lit "Bash(rm:*)")];
          skipPermissions := false |} JNull JNull.

(** The peer grants a request and asks to remember an entry. *)
Definition grant (rememberEntry : string) : value :=
  JObj 2 [(lit "allow", JBool true); (lit "rememberEntry", JStr (lit rememberEntry))].

(** A backend whose session cannot be initialized. *)
Definition failing_env : Env :=
  {| process_cwd := JStr (lit "/srv");
     createSession_result := Normal 1%nat;
     initialize_result := Throw (JError 7 (lit "connection refused"));
     send_result := Normal tt;
     stream_items := [];
     ws_setSessionId := true |}.

(** A backend that streams one assistant text, the successful result and one
    more event. *)
Definition finishing_env : Env :=
  {| process_cwd := JStr (lit "/srv");
     createSession_result := Normal 1%nat;
     initialize_result :=
       Normal (JObj 4 [(lit "agentId", JStr (lit "agent-1"));
                       (lit "conversationId", JStr (lit "conv-1"))]);
     send_result := Normal tt;
     stream_items :=
       [Yield (JObj 5 [(lit "type", JStr (lit "assistant")); (lit "content", JStr (lit "done"))]);
        Yield (JObj 6 [(lit "type", JStr (lit "result")); (lit "success", JBool true);
                       (lit "durationMs", JNum 1200)]);
        Yield (JObj 7 [(lit "type", JStr (lit "assistant")); (lit "content", JStr (lit "late"))])];
     ws_setSessionId := true |}.

(** Options as a client can send them, with a number among the disallowed
    entries, and the dispatch they configure. *)
Definition numeric_entry_options : value :=
  JObj 1 [(lit "toolsSettings",
           JObj 2 [(lit "allowedTools", JArr 3 []);
                   (lit "disallowedTools", JArr 4 [JNum 42]);
                   (lit "skipPermissions", JBool false)])].

Definition numeric_entry_world : World :=
  boot [] sample_uuid 0 (JStr (lit "default"))
       {| allowedTools := []; disallowedTools := [JNum 42]; skipPermissions := false |}
       JNull JNull.

(** A backend whose stream breaks after one assistant text. *)
Definition raising_env : Env :=
  {| process_cwd := JStr (lit "/srv");
     createSession_result := Normal 1%nat;
     initialize_result :=
       Normal (JObj 4 [(lit "agentId", JStr (lit "agent-1"));
                       (lit "conversationId", JStr (lit "conv-1"))]);
     send_result := Normal tt;
     stream_items :=
       [Yield (JObj 5 [(lit "type", JStr (lit "assistant")); (lit "content", JStr (lit "one"))]);
        Raise (JError 8 (lit "socket closed"));
        Yield (JObj 6 [(lit "type", JStr (lit "result")); (lit "success", JBool true)])];
     ws_setSessionId := false |}.

(** A backend whose stream ends after one assistant text, without a result. *)
Definition quiet_env : Env :=
  {| process_cwd := JStr (lit "/srv");
     createSession_result := Normal 1%nat;
     initialize_result :=
       Normal (JObj 4 [(lit "agentId", JStr (lit "agent-1"));
                       (lit "conversationId", JStr (lit "conv-1"))]);
     send_result := Normal tt;
     stream_items :=
       [Yield (JObj 5 [(lit "type", JStr (lit "assistant")); (lit "content", JStr (lit "one"))])];
     ws_setSessionId := false |}.

(** A backend that does not take the prompt. *)
Definition refusing_env : Env :=
  {| process_cwd := JStr (lit "/srv");
     createSession_result := Normal 1%nat;
     initialize_result :=
       Normal (JObj 4 [(lit "agentId", JStr (lit "agent-1"));
                       (lit "conversationId", JStr (lit "conv-1"))]);
     send_result := Throw (JError 9 (lit "busy"));
     stream_items :=
       [Yield (JObj 6 [(lit "type", JStr (lit "result")); (lit "success", JBool true)])];
     ws_setSessionId := true |}.

(** A backend that cannot create the session. *)
Definition unreachable_env : Env :=
  {| process_cwd := JStr (lit "/srv");
     createSession_result := Throw (JError 10 (lit "no backend"));
     initialize_result := Normal JUndefined;
     send_result := Normal tt;
     stream_items := [];
     ws_setSessionId := true |}.

(** The module with two sessions registered. *)
Definition busy_world : World :=
  boot [(JStr (lit "agent-1"), {| session := 1%nat; startTime := 5 |});
        (JStr (lit "agent-2"), {| session := 2%nat; startTime := 9 |})]
       sample_uuid 20 (JStr (lit "default")) empty_policy JNull JNull.

(** A session whose [abort] fails and whose [close] fails too. *)
Definition broken_ops : SessionOps :=
  {| abort_result := Throw (JError 11 (lit "already gone"));
     close_result := Some (Throw (JError 12 (lit "closed"))) |}.

(** A dispatch that resumes the session [req-1]: [agentId] starts as the
    requested identity. *)
Definition resuming_world : World :=
  boot [] sample_uuid 0 (JStr (lit "default")) empty_policy
       (JStr (lit "req-1")) (JStr (lit "req-1")).

(** * Properties *)

(** ** Strings and the regular expression *)

Lemma str_eqb_eq (s t : list N) : str_eqb s t = true <-> s = t.
Proof. unfold str_eqb. apply bool_decide_eq_true. Qed.

Lemma str_eqb_refl (s : list N) : str_eqb s s = true.
Proof. by apply str_eqb_eq. Qed.

Lemma str_eqb_neq (s t : list N) : str_eqb s t = false <-> s <> t.
Proof. unfold str_eqb. apply bool_decide_eq_false. Qed.

Lemma startsWith_prefix (s p : list N) :
  startsWith s p = true <-> exists rest, s = p ++ rest.
Proof.
  revert s. induction p as [|c p IH]; intros s; simpl.
  - split; [intros _; by exists s | done].
  - destruct s as [|d s].
    + split; [done | intros [rest H]; discriminate H].
    + rewrite andb_true_iff, N.eqb_eq, IH. split.
      * intros [-> [rest ->]]. by exists rest.
      * intros [rest H]. injection H as -> ->. split; [done | by exists rest].
Qed.

Lemma strip_literal_spec (p s r : list N) :
  strip_literal p s = Some r <-> s = p ++ r.
Proof.
  revert s. induction p as [|c p IH]; intros s; simpl.
  - split; [by intros [= ->] | by intros ->].
  - destruct s as [|d s]; [split; [done | intros H; discriminate H]|].
    destruct (N.eqb_spec c d) as [->|Hne].
    + rewrite IH. split; [by intros -> | by intros [= ->]].
    + split; [done | intros [= ? _]; congruence].
Qed.

Lemma dot_plus_then_length (suffix s g : list N) :
  dot_plus_then suffix s = Some g -> length s = (length g + length suffix)%nat.
Proof.
  revert g. induction s as [|c r IH]; intros g; simpl; [done|].
  destruct (is_line_terminator c); [done|].
  destruct (dot_plus_then suffix r) as [g'|] eqn:E.
  - intros [= <-]. simpl. by rewrite (IH g').
  - destruct (str_eqb r suffix) eqn:Er; [|done].
    apply str_eqb_eq in Er as ->. by intros [= <-].
Qed.

Lemma dot_plus_then_spec (suffix s g : list N) :
  dot_plus_then suffix s = Some g
  <-> s = g ++ suffix /\ g <> [] /\ Forall (fun c => is_line_terminator c = false) g.
Proof.
  revert g. induction s as [|c r IH]; intros g; simpl.
  - split; [done|]. intros (H & Hg & _). by destruct g.
  - destruct (is_line_terminator c) eqn:Ec.
    + split; [done|]. intros (H & Hg & Hall).
      destruct g as [|c' g]; [done|]. injection H as -> ->.
      apply Forall_cons in Hall as [Hc _]. congruence.
    + destruct (dot_plus_then suffix r) as [g'|] eqn:E.
      * destruct (proj1 (IH g') eq_refl) as (-> & Hg' & Hall). split.
        -- intros [= <-]. repeat split; [done|]. by constructor.
        -- intros (H & Hg & Hall'). destruct g as [|c' g]; [done|].
           injection H as -> H. apply Forall_cons in Hall' as [_ Hall'].
           destruct g as [|c'' g].
           ++ simpl in H. exfalso. apply (f_equal length) in H.
              rewrite length_app in H. destruct g'; [done | simpl in H; lia].
           ++ apply app_inv_tail in H. by rewrite H.
      * destruct (str_eqb r suffix) eqn:Er.
        -- apply str_eqb_eq in Er as ->. split.
           ++ intros [= <-]. repeat split; [done|]. by repeat constructor.
           ++ intros (H & Hg & Hall). destruct g as [|c' g]; [done|].
              injection H as -> H. destruct g as [|c'' g]; [done|].
              exfalso. apply (f_equal length) in H.
              rewrite length_app in H. simpl in H. lia.
        -- split; [done|]. intros (H & Hg & Hall).
           destruct g as [|c' g]; [done|]. injection H as -> H.
           apply Forall_cons in Hall as [_ Hall].
           destruct g as [|c'' g].
           ++ simpl in H. apply str_eqb_neq in Er. done.
           ++ assert (None = Some (c'' :: g)) as E'; [|done].
              apply IH. by repeat split.
Qed.

Lemma bash_regexp_spec (entry P : list N) :
  bash_regexp entry = Some P <-> is_prefix_wildcard entry P.
Proof.
  unfold bash_regexp, is_prefix_wildcard.
  destruct (strip_literal (lit "Bash(") entry) as [r|] eqn:E; cbn.
  - apply strip_literal_spec in E as ->. rewrite dot_plus_then_spec.
    split; [by intros (-> & ? & ?) | intros (H & ? & ?)].
    apply app_inv_head in H. by subst.
  - split; [done|]. intros (H & _).
    apply strip_literal_spec in H. congruence.
Qed.

(** ** Permission matcher *)

Lemma truthy_str (s : list N) : truthy (JStr s) = true <-> s <> [].
Proof. simpl. rewrite negb_true_iff. apply str_eqb_neq. Qed.

Lemma strict_eq_str_l (s : list N) (v : value) :
  strict_eq (JStr s) v = true <-> v = JStr s.
Proof.
  destruct v; simpl; try (split; [discriminate | discriminate]).
  rewrite str_eqb_eq. split; [by intros -> | by intros [= ->]].
Qed.

Lemma strict_eq_str_r (v : value) (s : list N) :
  strict_eq v (JStr s) = true <-> v = JStr s.
Proof.
  destruct v; simpl; try (split; [discriminate | discriminate]).
  rewrite str_eqb_eq. split; [by intros -> | by intros [= ->]].
Qed.

(** The command the matcher extracts is the trimmed command string of the
    input. *)
Lemma extracted_command (input : value) :
  match input with
  | JStr s => trim s
  | _ =>
      if truthy input && typeof_object input then
        match get_prop input "command" with
        | Normal (JStr c) => trim c
        | _ => []
        end
      else []
  end = trim (command_of input).
Proof.
  destruct input as [| |b|n|s|r items|r fields|r m]; simpl; try done.
  - by destruct b.
  - by destruct (negb (n =? 0)%Z).
  - by destruct (assoc (lit "command") fields) as [[]|].
Qed.

(** On a string entry the matcher returns, and returns this. *)
Lemma matchesToolPermission_string (e : list N) (toolName input : value) :
  matchesToolPermission (JStr e) toolName input =
  Normal (truthy (JStr e) && truthy toolName &&
          (strict_eq (JStr e) toolName ||
           match bash_regexp e with
           | Some P =>
               strict_eq toolName (JStr (lit "Bash"))
               && truthy (JStr (trim (command_of input)))
               && startsWith (trim (command_of input)) P
           | None => false
           end)).
Proof.
  unfold matchesToolPermission. rewrite extracted_command.
  destruct (truthy (JStr e)); [|done].
  destruct (truthy toolName); [|done]. cbn [negb orb andb].
  destruct (strict_eq (JStr e) toolName); [done|]. cbn [orb mbind completion_bind].
  destruct (bash_regexp e) as [P|]; [|done].
  destruct (strict_eq toolName (JStr (lit "Bash"))); [|done]. cbn [andb].
  by destruct (truthy (JStr (trim (command_of input)))).
Qed.

(** A missing entry (undefined, null, false, zero, the empty string) matches
    nothing. *)
Lemma matchesToolPermission_missing (entry toolName input : value) :
  truthy entry = false -> matchesToolPermission entry toolName input = Normal false.
Proof. intros H. unfold matchesToolPermission. by rewrite H. Qed.

(** C2, at a policy entry that is not a string: the matcher calls
    [entry.match], which the number 42 does not have, and a [TypeError]
    escapes instead of the answer [false].  The normalization lets such an
    entry through, and the authorization callback then raises on a tool
    call. *)
Theorem matchesToolPermission_throws_on_number_entry :
  matchesToolPermission (JNum 42) (JStr (lit "Bash")) (JObj 1 [(lit "command", JStr (lit "ls"))])
  = Throw (TypeError "entry.match is not a function")
  /\ normalizeToolsSettings numeric_entry_options
     = Normal (toolsSettings numeric_entry_world)
  /\ fst (canUseTool (JStr (lit "Bash")) (JObj 1 [(lit "command", JStr (lit "ls"))])
                     numeric_entry_world)
     = Throw (TypeError "entry.match is not a function").
Proof. repeat split. Qed.

(** C3 as the specification states it fails: the entry [Bash(ls:] followed
    by a star and a closing parenthesis is a prefix-wildcard entry for [Bash],
    and the code lets it match a tool whose name is the entry itself, whatever
    the input. *)
Lemma wildcard_rule_fails_on_equal_names :
  ~ wildcard_rule (lit "ls") (JStr (lit "Bash(ls:*)")) JUndefined.
Proof.
  unfold wildcard_rule. intros [H _].
  assert (JStr (lit "Bash(ls:*)") = JStr (lit "Bash")) as E; [|discriminate E].
  apply H. reflexivity.
Qed.

(** C3, amended: a string entry matches iff it is not empty and either equals
    the tool name, or is a prefix-wildcard entry of prefix [P], the tool is
    [Bash], and the trimmed command of the input (a bare string, or the string
    field [command]) is not empty and starts with [P].  On a string entry the
    matcher always returns, and a missing entry never matches. *)
Theorem matchesToolPermission_characterised :
  (forall (e : list N) (toolName input : value),
     matchesToolPermission (JStr e) toolName input = Normal true
     <-> e <> []
         /\ (toolName = JStr e
             \/ (toolName = JStr (lit "Bash")
                 /\ exists P, is_prefix_wildcard e P
                    /\ trim (command_of input) <> []
                    /\ exists rest, trim (command_of input) = P ++ rest)))
  /\ (forall (e : list N) (toolName input : value),
        matchesToolPermission (JStr e) toolName input = Normal true
        \/ matchesToolPermission (JStr e) toolName input = Normal false)
  /\ (forall entry toolName input : value,
        truthy entry = false -> matchesToolPermission entry toolName input = Normal false).
Proof.
  split; [|split].
  - intros e toolName input. rewrite matchesToolPermission_string.
    split.
    + intros [= H]. apply andb_true_iff in H as [H Hm].
      apply andb_true_iff in H as [He Ht]. apply truthy_str in He.
      split; [done|]. apply orb_true_iff in Hm as [Hm|Hm].
      * left. by apply strict_eq_str_l.
      * right. destruct (bash_regexp e) as [P|] eqn:E; [|done].
        apply andb_true_iff in Hm as [Hm Hs]. apply andb_true_iff in Hm as [Hb Hc].
        split; [by apply strict_eq_str_r|]. exists P.
        split; [by apply bash_regexp_spec|].
        split; [by apply truthy_str | by apply startsWith_prefix].
    + intros [He [->|(-> & P & HP & Hc & Hs)]]; f_equal.
      * apply truthy_str in He. rewrite He. cbn [andb].
        assert (strict_eq (JStr e) (JStr e) = true) as -> by by apply strict_eq_str_l.
        done.
      * apply bash_regexp_spec in HP. rewrite HP.
        apply truthy_str in He, Hc. apply startsWith_prefix in Hs.
        rewrite He, Hc, Hs. cbn. apply orb_true_r.
  - intros e toolName input. rewrite matchesToolPermission_string.
    match goal with |- Normal ?b = _ \/ _ => destruct b end; auto.
  - apply matchesToolPermission_missing.
Qed.

(** ** Approval gate *)

Lemma with_gate_id (w : World) :
  with_gate (pendingToolApprovals w) (approvals w) (jobs w) (trace w) w = w.
Proof. by destruct w. Qed.

Lemma finalize_unsettled (w : World) (a : nat) (ap : Approval) (d : value) :
  approvals w !! a = Some ap -> ap_settled ap = false ->
  finalize a d w =
  with_gate (delete (ap_requestId ap) (pendingToolApprovals w))
            (<[a := disarm (settle ap)]> (approvals w))
            (jobs w ++ [(a, d)]) (trace w ++ [Resolved a d]) w.
Proof.
  intros Ha Hs. unfold finalize. rewrite Ha, Hs.
  unfold resolve, clearTimeout, with_gate, set_jobs, observe, set_pending, set_approvals.
  cbn. rewrite list_lookup_insert_eq by by eapply lookup_lt_Some.
  by rewrite list_insert_insert_eq.
Qed.

Lemma finalize_settled (w : World) (a : nat) (ap : Approval) (d : value) :
  approvals w !! a = Some ap -> ap_settled ap = true -> finalize a d w = w.
Proof. intros Ha Hs. unfold finalize. by rewrite Ha, Hs. Qed.

Lemma fire_timer_armed (w : World) (a : nat) (ap : Approval) (k : list N) :
  approvals w !! a = Some ap -> ap_timeout ap = true -> ap_settled ap = false ->
  ap_onCancel ap = Some (CancelNotice k) ->
  fire_timer a w =
  with_gate (delete (ap_requestId ap) (pendingToolApprovals w))
            (<[a := disarm (settle ap)]> (approvals w))
            (jobs w ++ [(a, JNull)])
            (trace w ++ [OnCancel a (lit "timeout");
                         Emit (PermissionCancelled k (lit "timeout")
                                 (js_or (agentId w) (requestedAgentId w)));
                         Resolved a JNull]) w.
Proof.
  intros Ha Ht Hs Hk. unfold fire_timer. rewrite Ha, Ht.
  assert (a < length (approvals w))%nat as Hlt by by eapply lookup_lt_Some.
  unfold timeout_callback, clearTimeout. cbn. rewrite Ha.
  rewrite list_lookup_insert_eq by done. cbn. rewrite Hk.
  erewrite finalize_unsettled; cycle 1.
  { cbn. rewrite Ha. by apply list_lookup_insert_eq. }
  { done. }
  unfold with_gate. cbn. rewrite Ha, list_insert_insert_eq.
  by rewrite <- !app_assoc.
Qed.

Lemma gate_log_app (a : nat) (t1 t2 : list Obs) :
  gate_log a (t1 ++ t2) = gate_log a t1 ++ gate_log a t2.
Proof. apply omap_app. Qed.

Lemma gate_log_snoc (a : nat) (tr : list Obs) (o : Obs) :
  gate_obs a o = None -> gate_log a (tr ++ [o]) = gate_log a tr.
Proof.
  intros H. rewrite gate_log_app. unfold gate_log at 2. cbn.
  rewrite H. apply app_nil_r.
Qed.

Lemma gate_ok_ext (w w' : World) :
  pendingToolApprovals w' = pendingToolApprovals w ->
  approvals w' = approvals w ->
  (forall a, gate_log a (trace w') = gate_log a (trace w)) ->
  gate_ok w -> gate_ok w'.
Proof.
  intros Hp Ha Hl [H1 H2 H3]. split.
  - intros k a. rewrite Hp, Ha. apply H1.
  - intros a ap. rewrite Ha. apply H2.
  - intros a. rewrite Ha, Hl. apply H3.
Qed.

Lemma gate_ok_boot sessions uuid clock mode settings requested agent :
  gate_ok (boot sessions uuid clock mode settings requested agent).
Proof. split; intros *; cbn; try done. Qed.

(** The continuation of the callback touches only the tool policy. *)
Lemma canUseTool_resume_world (d : value) (w w' : World) (r : completion ToolDecision) :
  canUseTool_resume d w = (r, w') ->
  w' = w \/ exists e, w' = set_toolsSettings (remember (JStr e) (toolsSettings w)) w.
Proof.
  unfold canUseTool_resume. intros H.
  repeat (case_match; simplify_eq); auto.
  all: right; match goal with H : _ && typeof_string ?v = true |- _ =>
    apply andb_true_iff in H as [_ H]; destruct v; try discriminate H end.
  all: eauto.
Qed.

Lemma run_job_gate (j : nat * value) (w : World) :
  pendingToolApprovals (run_job j w) = pendingToolApprovals w
  /\ approvals (run_job j w) = approvals w
  /\ jobs (run_job j w) = jobs w
  /\ exists r, trace (run_job j w) = trace w ++ [Decided (fst j) r].
Proof.
  unfold run_job. destruct (canUseTool_resume (snd j) w) as [r w'] eqn:E.
  apply canUseTool_resume_world in E as [->|[e ->]]; cbn; eauto 10.
Qed.

Lemma run_jobs_fold_gate (js : list (nat * value)) (w : World) :
  let w' := fold_left (fun w j => run_job j w) js w in
  pendingToolApprovals w' = pendingToolApprovals w
  /\ approvals w' = approvals w
  /\ jobs w' = jobs w
  /\ forall a, gate_log a (trace w') = gate_log a (trace w).
Proof.
  revert w. induction js as [|j js IH]; intros w; cbn; [done|].
  destruct (IH (run_job j w)) as (-> & -> & -> & Hl).
  destruct (run_job_gate j w) as (-> & -> & -> & r & Ht).
  repeat split. intros a. by rewrite Hl, Ht, gate_log_snoc.
Qed.

Lemma run_jobs_gate (w : World) :
  gate_ok w -> gate_inv (run_jobs w).
Proof.
  intros H. unfold run_jobs.
  destruct (run_jobs_fold_gate (jobs w) (set_jobs (fun _ => []) w)) as (Hp & Ha & Hj & Hl).
  split; [by rewrite Hj|].
  eapply gate_ok_ext; [exact Hp | exact Ha | exact Hl |].
  by eapply gate_ok_ext; [| | |exact H].
Qed.

(** [canUseTool] either answers at once and leaves the world as it is, or
    asks the peer. *)
Lemma canUseTool_cases (toolName input : value) (w : World) :
  (exists r, canUseTool toolName input w = (r, w)
             /\ forall a, r <> Normal (inr a))
  \/ canUseTool toolName input w
     = (Normal (inr (length (approvals w))), asking toolName input w).
Proof.
  unfold canUseTool.
  destruct (_ || _); [left; eexists; split; [reflexivity | done]|].
  destruct (array_some _ (disallowedTools _)) as [[|]|e];
    try (left; eexists; split; [reflexivity | done]).
  destruct (array_some _ (allowedTools _)) as [[|]|e];
    try (left; eexists; split; [reflexivity | done]).
  right. reflexivity.
Qed.

Lemma gate_ok_asking (toolName input : value) (w : World) :
  gate_ok w -> gate_ok (asking toolName input w).
Proof.
  intros [H1 H2 H3]. unfold asking.
  set (k := lit "letta_" ++ randomUUID w (drawn w)).
  set (new := {| ap_requestId := k; ap_onCancel := Some (CancelNotice k);
                 ap_settled := false; ap_timeout := true |}).
  split; cbn.
  - intros k' a. rewrite lookup_insert. case_decide as Hk.
    + intros [= <-]. subst k'. exists new. by rewrite list_lookup_middle.
    + intros Hp. destruct (H1 _ _ Hp) as (ap & Ha & ?). exists ap. split; [|done].
      by apply lookup_app_l_Some.
  - intros a ap [Ha|[_ Ha]]%lookup_app_Some; [by apply (H2 a)|].
    apply list_lookup_singleton_Some in Ha as [_ <-]. done.
  - intros a. rewrite gate_log_snoc by done.
    specialize (H3 a).
    destruct (decide (a < length (approvals w))%nat) as [Hlt|Hge].
    + by rewrite lookup_app_l.
    + rewrite lookup_ge_None_2 in H3 by lia.
      destruct ((approvals w ++ [new]) !! a) as [ap|] eqn:E; [|done].
      apply lookup_app_Some in E as [E|[_ E]].
      * apply lookup_lt_Some in E. lia.
      * apply list_lookup_singleton_Some in E as [_ <-]. done.
Qed.

(** Settling an unsettled request keeps the gate in order, whichever of the
    two histories it leaves. *)
Lemma gate_ok_settling (w : World) (a : nat) (ap : Approval)
    (queue : list (nat * value)) (extra : list Obs) :
  gate_ok w -> approvals w !! a = Some ap -> ap_settled ap = false ->
  ((exists d, gate_log a extra = [Settled d])
   \/ gate_log a extra = [Cancelled (lit "timeout"); Settled JNull]) ->
  (forall a', a' <> a -> gate_log a' extra = []) ->
  gate_ok (with_gate (delete (ap_requestId ap) (pendingToolApprovals w))
                     (<[a := disarm (settle ap)]> (approvals w))
                     queue (trace w ++ extra) w).
Proof.
  intros [H1 H2 H3] Ha Hs Hlog Hother.
  assert (a < length (approvals w))%nat as Hlt by by eapply lookup_lt_Some.
  split; cbn.
  - intros k a' [Hk Hp]%lookup_delete_Some.
    destruct (H1 _ _ Hp) as (ap' & Ha' & Hk' & Hs').
    destruct (decide (a' = a)) as [->|Hne]; [congruence|].
    exists ap'. by rewrite list_lookup_insert_ne.
  - intros a' ap'. destruct (decide (a' = a)) as [->|Hne].
    + rewrite list_lookup_insert_eq by done. intros [= <-]. cbn.
      split; [done|]. by apply (H2 a ap).
    + rewrite list_lookup_insert_ne by done. apply H2.
  - intros a'. rewrite gate_log_app. specialize (H3 a').
    destruct (decide (a' = a)) as [->|Hne].
    + rewrite list_lookup_insert_eq by done. cbn.
      rewrite Ha, Hs in H3. by rewrite H3.
    + rewrite list_lookup_insert_ne by done.
      by rewrite (Hother a' Hne), app_nil_r.
Qed.

Lemma handle_gate_ok (ev : event) (w : World) : gate_ok w -> gate_ok (handle ev w).
Proof.
  intros Hw. destruct ev as [toolName input|requestId decision|a]; cbn.
  - destruct (canUseTool_cases toolName input w) as [(r & -> & Hr)| ->].
    + destruct r as [[d|a]|e]; [| by destruct (Hr a) |];
        (apply (gate_ok_ext w); [done | done | | exact Hw]);
        intros a; cbn; by rewrite gate_log_snoc.
    + by apply gate_ok_asking.
  - unfold resolveLettaToolApproval.
    destruct requestId as [| | | |k| | |]; try done.
    destruct (pendingToolApprovals w !! k) as [a|] eqn:Hk; [|done].
    destruct (inv_pending w Hw k a Hk) as (ap & Ha & _ & Hs).
    rewrite (finalize_unsettled w a ap decision Ha Hs).
    apply gate_ok_settling; try done.
    + left. exists decision. unfold gate_log. cbn. by rewrite Nat.eqb_refl.
    + intros a' Hne. unfold gate_log. cbn.
      destruct (Nat.eqb_spec a a'); [congruence | done].
  - unfold fire_timer. destruct (approvals w !! a) as [ap|] eqn:Ha; [|done].
    destruct (inv_shape w Hw a ap Ha) as [Ht Hc].
    destruct (ap_timeout ap) eqn:Et; [|done].
    assert (ap_settled ap = false) as Hs by by destruct (ap_settled ap).
    pose proof (fire_timer_armed w a ap _ Ha Et Hs Hc) as E.
    unfold fire_timer in E. rewrite Ha, Et in E. rewrite E.
    apply gate_ok_settling; try done.
    + right. unfold gate_log. cbn. by rewrite Nat.eqb_refl.
    + intros a' Hne. unfold gate_log. cbn.
      destruct (Nat.eqb_spec a a'); [congruence | done].
Qed.

Lemma step_gate_inv (w : World) (ev : event) : gate_inv w -> gate_inv (step w ev).
Proof. intros [_ Hw]. apply run_jobs_gate. by apply handle_gate_ok. Qed.

Lemma run_gate_inv (evs : list event) (w : World) : gate_inv w -> gate_inv (run evs w).
Proof.
  revert w. induction evs as [|ev evs IH]; intros w Hw; [done|].
  cbn. apply IH. by apply step_gate_inv.
Qed.

Lemma reachable_gate_inv sessions uuid clock mode settings requested agent evs :
  gate_inv (run evs (boot sessions uuid clock mode settings requested agent)).
Proof. apply run_gate_inv. split; [done | apply gate_ok_boot]. Qed.

Lemma run_jobs_fields (w : World) :
  pendingToolApprovals (run_jobs w) = pendingToolApprovals w
  /\ approvals (run_jobs w) = approvals w
  /\ forall a, gate_log a (trace (run_jobs w)) = gate_log a (trace w).
Proof.
  unfold run_jobs.
  destruct (run_jobs_fold_gate (jobs w) (set_jobs (fun _ => []) w)) as (-> & -> & _ & Hl).
  done.
Qed.

Lemma run_jobs_idle (w : World) : jobs w = [] -> run_jobs w = w.
Proof. unfold run_jobs. intros H. destruct w. cbn in *. by subst. Qed.

(** Every step only adds to the trace, so the history of an approval only
    grows. *)
Local Ltac quiet := exists []; by rewrite app_nil_r.

Lemma finalize_trace (a : nat) (d : value) (w : World) :
  exists extra, trace (finalize a d w) = trace w ++ extra.
Proof.
  unfold finalize. destruct (approvals w !! a) as [ap|]; [|quiet].
  destruct (ap_settled ap); [quiet|].
  by exists [Resolved a d].
Qed.

Lemma handle_trace (ev : event) (w : World) :
  exists extra, trace (handle ev w) = trace w ++ extra.
Proof.
  destruct ev as [toolName input|requestId decision|a]; cbn.
  - destruct (canUseTool_cases toolName input w) as [(r & -> & Hr)| ->].
    + destruct r as [[d|a]|e]; eauto. quiet.
    + eauto.
  - unfold resolveLettaToolApproval.
    destruct requestId; try (quiet).
    destruct (_ !! _); [apply finalize_trace | quiet].
  - unfold fire_timer, timeout_callback.
    destruct (approvals w !! a) as [ap|]; [|quiet].
    destruct (ap_timeout ap); [|quiet].
    destruct (approvals (clearTimeout a w) !! a) as [ap'|];
      [|quiet].
    destruct (finalize_trace a JNull
                (call_onCancel a (ap_onCancel ap') (lit "timeout") (clearTimeout a w)))
      as [extra ->].
    destruct (ap_onCancel ap') as [[k]|]; cbn; rewrite <- ?app_assoc; eauto.
Qed.

Lemma run_jobs_trace (w : World) :
  exists extra, trace (run_jobs w) = trace w ++ extra.
Proof.
  unfold run_jobs. change (trace w) with (trace (set_jobs (fun _ => []) w)).
  generalize (set_jobs (fun _ => []) w). induction (jobs w) as [|j js IH]; intros w0; cbn.
  - quiet.
  - destruct (IH (run_job j w0)) as [extra ->].
    destruct (run_job_gate j w0) as (_ & _ & _ & r & ->).
    rewrite <- app_assoc. eauto.
Qed.

Lemma step_trace (w : World) (ev : event) :
  exists extra, trace (step w ev) = trace w ++ extra.
Proof.
  unfold step. destruct (run_jobs_trace (handle ev w)) as [e2 ->].
  destruct (handle_trace ev w) as [e1 ->]. rewrite <- app_assoc. eauto.
Qed.

Lemma run_trace (evs : list event) (w : World) :
  exists extra, trace (run evs w) = trace w ++ extra.
Proof.
  revert w. induction evs as [|ev evs IH]; intros w.
  - quiet.
  - change (run (ev :: evs) w) with (run evs (step w ev)).
    destruct (IH (step w ev)) as [e2 ->]. destruct (step_trace w ev) as [e1 ->].
    rewrite <- app_assoc. eauto.
Qed.

Lemma run_app (evs evs' : list event) (w : World) :
  run (evs ++ evs') w = run evs' (run evs w).
Proof. apply fold_left_app. Qed.

(** The history of a request, by the invariant. *)
Lemma gate_log_shape (w : World) (a : nat) :
  gate_ok w ->
  gate_log a (trace w) = []
  \/ (exists d, gate_log a (trace w) = [Settled d])
  \/ gate_log a (trace w) = [Cancelled (lit "timeout"); Settled JNull].
Proof.
  intros Hw. pose proof (inv_log w Hw a) as H.
  destruct (approvals w !! a) as [ap|]; [|auto].
  destruct (ap_settled ap); [destruct H|]; auto.
Qed.

(** Once a request has settled, nothing is ever added to its history. *)
Lemma settled_history_final (w : World) (a : nat) (ap : Approval) (evs : list event) :
  gate_inv w -> approvals w !! a = Some ap -> ap_settled ap = true ->
  gate_log a (trace (run evs w)) = gate_log a (trace w).
Proof.
  intros Hw Ha Hs.
  destruct (run_trace evs w) as [extra He].
  pose proof (gate_log_shape (run evs w) a (proj2 (run_gate_inv evs w Hw))) as Hfin.
  pose proof (inv_log w (proj2 Hw) a) as Hnow. rewrite Ha, Hs in Hnow.
  rewrite He, gate_log_app in Hfin |- *.
  destruct Hnow as [[d Hd]|Hd]; rewrite Hd in Hfin |- *;
    destruct (gate_log a extra) as [|x l]; try done;
    destruct Hfin as [Hfin|[[d' Hfin]|Hfin]]; simplify_eq.
Qed.

(** What the first of the two events does to a pending request. *)
Lemma response_settles (w : World) (k : list N) (a : nat) (d : value) :
  gate_inv w -> pendingToolApprovals w !! k = Some a ->
  let w' := step w (ApprovalResponse (JStr k) d) in
  pendingToolApprovals w' !! k = None
  /\ (exists ap, approvals w' !! a = Some ap /\ ap_settled ap = true /\ ap_timeout ap = false)
  /\ gate_log a (trace w') = [Settled d].
Proof.
  intros [Hj Hw] Hk. cbn zeta. unfold step.
  destruct (run_jobs_fields (handle (ApprovalResponse (JStr k) d) w)) as (-> & -> & ->).
  cbn. rewrite Hk.
  destruct (inv_pending w Hw k a Hk) as (ap & Ha & <- & Hs).
  rewrite (finalize_unsettled w a ap d Ha Hs). cbn.
  split; [apply lookup_delete_eq|]. split.
  - exists (disarm (settle ap)). split; [|done].
    apply list_lookup_insert_eq. by eapply lookup_lt_Some.
  - pose proof (inv_log w Hw a) as Hl. rewrite Ha, Hs in Hl.
    rewrite gate_log_app, Hl. unfold gate_log. cbn. by rewrite Nat.eqb_refl.
Qed.

Lemma timeout_settles (w : World) (a : nat) (ap : Approval) :
  gate_inv w -> approvals w !! a = Some ap -> ap_settled ap = false ->
  let w' := step w (TimerFires a) in
  pendingToolApprovals w' !! ap_requestId ap = None
  /\ (exists ap', approvals w' !! a = Some ap' /\ ap_settled ap' = true
                  /\ ap_timeout ap' = false)
  /\ gate_log a (trace w') = [Cancelled (lit "timeout"); Settled JNull].
Proof.
  intros [Hj Hw] Ha Hs. cbn zeta. unfold step.
  destruct (run_jobs_fields (handle (TimerFires a) w)) as (-> & -> & ->).
  cbn. destruct (inv_shape w Hw a ap Ha) as [Ht Hc]. rewrite Hs in Ht.
  rewrite (fire_timer_armed w a ap _ Ha Ht Hs Hc). cbn.
  split; [apply lookup_delete_eq|]. split.
  - exists (disarm (settle ap)). split; [|done].
    apply list_lookup_insert_eq. by eapply lookup_lt_Some.
  - pose proof (inv_log w Hw a) as Hl. rewrite Ha, Hs in Hl.
    rewrite gate_log_app, Hl. unfold gate_log. cbn. by rewrite Nat.eqb_refl.
Qed.

(** *** Unique tokens *)

Lemma run_jobs_tokens (w : World) :
  randomUUID (run_jobs w) = randomUUID w /\ drawn (run_jobs w) = drawn w.
Proof.
  unfold run_jobs.
  change (randomUUID w) with (randomUUID (set_jobs (fun _ => []) w)).
  change (drawn w) with (drawn (set_jobs (fun _ => []) w)).
  generalize (set_jobs (fun _ => []) w).
  induction (jobs w) as [|j js IH]; intros w0; cbn; [done|].
  destruct (IH (run_job j w0)) as [-> ->].
  unfold run_job. destruct (canUseTool_resume (snd j) w0) as [r w'] eqn:E.
  by apply canUseTool_resume_world in E as [->|[e ->]].
Qed.

(** What a handler does to the gate: it adds observations, or asks the peer,
    or settles one request. *)
Lemma handle_cases (ev : event) (w : World) :
  gate_ok w ->
  (exists extra, handle ev w
     = with_gate (pendingToolApprovals w) (approvals w) (jobs w) (trace w ++ extra) w)
  \/ (exists toolName input, handle ev w = asking toolName input w)
  \/ (exists a ap queue tr, approvals w !! a = Some ap
        /\ handle ev w = with_gate (delete (ap_requestId ap) (pendingToolApprovals w))
                                   (<[a := disarm (settle ap)]> (approvals w)) queue tr w).
Proof.
  intros Hw.
  assert (handle ev w = w ->
          exists extra, handle ev w
            = with_gate (pendingToolApprovals w) (approvals w) (jobs w) (trace w ++ extra) w)
    as Hsame.
  { intros ->. exists []. by rewrite app_nil_r, with_gate_id. }
  destruct ev as [toolName input|requestId decision|a]; cbn in *.
  - destruct (canUseTool_cases toolName input w) as [(r & E & Hr)|E]; rewrite E in *.
    + left. destruct r as [[d|a]|e]; [by eexists [_] | by destruct (Hr a) | by eexists [_]].
    + right. left. eauto.
  - unfold resolveLettaToolApproval in *.
    destruct requestId as [| | | |k| | |]; auto.
    destruct (pendingToolApprovals w !! k) as [a|] eqn:Hk; auto.
    destruct (inv_pending w Hw k a Hk) as (ap & Ha & _ & Hs).
    right. right. rewrite (finalize_unsettled w a ap decision Ha Hs). eauto 10.
  - destruct (approvals w !! a) as [ap|] eqn:Ha; [|unfold fire_timer in *; rewrite Ha in *; auto].
    destruct (inv_shape w Hw a ap Ha) as [Ht Hc].
    destruct (ap_settled ap) eqn:Hs.
    + left. apply Hsame. unfold fire_timer. by rewrite Ha, Ht.
    + right. right. rewrite (fire_timer_armed w a ap _ Ha Ht Hs Hc). eauto 10.
Qed.

Lemma step_tokens_fresh (w : World) (ev : event) :
  (forall i j, randomUUID w i = randomUUID w j -> i = j) ->
  gate_inv w -> tokens_fresh w ->
  tokens_fresh (step w ev) /\ randomUUID (step w ev) = randomUUID w.
Proof.
  intros Hinj [_ Hw] [Hdrawn Hdistinct]. unfold step, tokens_fresh.
  destruct (run_jobs_tokens (handle ev w)) as [-> ->].
  destruct (run_jobs_fields (handle ev w)) as (_ & -> & _).
  destruct (handle_cases ev w Hw)
    as [[extra ->]|[(toolName & input & ->)|(a & ap & queue & tr & Ha & ->)]]; cbn.
  - done.
  - split; [|done].
    assert (forall a ap, (approvals w ++ [{|
                ap_requestId := lit "letta_" ++ randomUUID w (drawn w);
                ap_onCancel := Some (CancelNotice (lit "letta_" ++ randomUUID w (drawn w)));
                ap_settled := false; ap_timeout := true |}]) !! a = Some ap ->
              (approvals w !! a = Some ap
               /\ exists j, (j < drawn w)%nat
                            /\ ap_requestId ap = lit "letta_" ++ randomUUID w j)
              \/ (a = length (approvals w)
                  /\ ap_requestId ap = lit "letta_" ++ randomUUID w (drawn w))) as Hcase.
    { intros a ap [Ha|[Hlen Ha]]%lookup_app_Some.
      - left. split; [done|]. by eapply Hdrawn.
      - right. apply list_lookup_singleton_Some in Ha as [Hz <-].
        split; [lia | done]. }
    split.
    + intros a ap [[_ (j & Hj & ->)]|[_ ->]]%Hcase; [exists j | exists (drawn w)];
        (split; [lia | done]).
    + intros a a' ap ap' [[Ha (j & Hj & Hk)]|[-> Hk]]%Hcase
        [[Ha' (j' & Hj' & Hk')]|[-> Hk']]%Hcase Heq.
      * by eapply Hdistinct.
      * rewrite Hk, Hk' in Heq. apply app_inv_head, Hinj in Heq. lia.
      * rewrite Hk, Hk' in Heq. apply app_inv_head, Hinj in Heq. lia.
      * done.
  - split; [|done].
    assert (forall a' ap', <[a := disarm (settle ap)]> (approvals w) !! a' = Some ap' ->
              exists ap0, approvals w !! a' = Some ap0
                          /\ ap_requestId ap' = ap_requestId ap0) as Hcase.
    { intros a' ap'. destruct (decide (a' = a)) as [->|Hne].
      - rewrite list_lookup_insert_eq by by eapply lookup_lt_Some.
        intros [= <-]. by exists ap.
      - rewrite list_lookup_insert_ne by done. eauto. }
    split.
    + intros a' ap' (ap0 & Ha0 & ->)%Hcase. by eapply Hdrawn.
    + intros a1 a2 ap1 ap2 (ap01 & Ha1 & ->)%Hcase (ap02 & Ha2 & ->)%Hcase.
      by eapply Hdistinct.
Qed.

Lemma run_tokens_fresh (evs : list event) (w : World) :
  (forall i j, randomUUID w i = randomUUID w j -> i = j) ->
  gate_inv w -> tokens_fresh w -> tokens_fresh (run evs w).
Proof.
  revert w. induction evs as [|ev evs IH]; intros w Hinj Hw Hf; [done|].
  change (run (ev :: evs) w) with (run evs (step w ev)).
  destruct (step_tokens_fresh w ev Hinj Hw Hf) as [Hf' Hu].
  apply IH; [by rewrite Hu | by apply step_gate_inv | done].
Qed.

(** With unique tokens, the token of a settled request is in the map no
    more. *)
Lemma settled_token_gone (w : World) (a : nat) (ap : Approval) :
  gate_ok w -> tokens_fresh w ->
  approvals w !! a = Some ap -> ap_settled ap = true ->
  pendingToolApprovals w !! ap_requestId ap = None.
Proof.
  intros Hw [_ Hdistinct] Ha Hs.
  destruct (pendingToolApprovals w !! ap_requestId ap) as [a'|] eqn:Hk; [|done].
  destruct (inv_pending w Hw _ _ Hk) as (ap' & Ha' & Hk' & Hs').
  assert (a' = a) as -> by by eapply Hdistinct.
  congruence.
Qed.

(** C1: in every state the module can reach, the history of each approval
    request is empty, or one resolution, or the timeout's [onCancel] followed
    by the resolution with [null]; so a request settles at most once and
    [onCancel] never runs after a resolution.  For a token in the pending map,
    the first of a response and the timer removes the token, clears the timer
    and fixes the outcome.  A response for a token that is not in the map
    changes nothing, and once a request has settled its token no longer leads
    to it, its timer does nothing, and no later event adds to its history.
    Tokens being unique (the random identifiers never repeat), the token of a
    settled request is not in the map, so a response for it changes
    nothing. *)
Theorem approval_settles_at_most_once :
  forall sessions uuid clock mode settings requested agent (evs : list event),
  let w := run evs (boot sessions uuid clock mode settings requested agent) in
  (forall a,
     gate_log a (trace w) = []
     \/ (exists d, gate_log a (trace w) = [Settled d])
     \/ gate_log a (trace w) = [Cancelled (lit "timeout"); Settled JNull])
  /\ (forall k a, pendingToolApprovals w !! k = Some a ->
        gate_log a (trace w) = []
        /\ (forall d, let w' := step w (ApprovalResponse (JStr k) d) in
              pendingToolApprovals w' !! k = None
              /\ (exists ap, approvals w' !! a = Some ap
                             /\ ap_settled ap = true /\ ap_timeout ap = false)
              /\ gate_log a (trace w') = [Settled d])
        /\ (let w' := step w (TimerFires a) in
              pendingToolApprovals w' !! k = None
              /\ (exists ap, approvals w' !! a = Some ap
                             /\ ap_settled ap = true /\ ap_timeout ap = false)
              /\ gate_log a (trace w') = [Cancelled (lit "timeout"); Settled JNull]))
  /\ (forall r d, (forall k, r = JStr k -> pendingToolApprovals w !! k = None) ->
        step w (ApprovalResponse r d) = w)
  /\ (forall a ap, approvals w !! a = Some ap -> ap_settled ap = true ->
        pendingToolApprovals w !! ap_requestId ap <> Some a
        /\ ap_timeout ap = false
        /\ step w (TimerFires a) = w
        /\ forall evs', gate_log a (trace (run evs' w)) = gate_log a (trace w))
  /\ ((forall i j, uuid i = uuid j -> i = j) ->
      forall a ap d, approvals w !! a = Some ap -> ap_settled ap = true ->
        pendingToolApprovals w !! ap_requestId ap = None
        /\ step w (ApprovalResponse (JStr (ap_requestId ap)) d) = w).
Proof.
  intros sessions uuid clock mode settings requested agent evs w.
  pose proof (reachable_gate_inv sessions uuid clock mode settings requested agent evs)
    as Hinv.
  fold w in Hinv. destruct Hinv as [Hj Hw].
  assert (forall r d, (forall k, r = JStr k -> pendingToolApprovals w !! k = None) ->
                      step w (ApprovalResponse r d) = w) as Hnoop.
  { intros r d Hr. unfold step.
    assert (handle (ApprovalResponse r d) w = w) as ->; [|by apply run_jobs_idle].
    cbn. unfold resolveLettaToolApproval. destruct r; try done.
    by rewrite (Hr _ eq_refl). }
  split; [|split; [|split; [|split]]].
  - intros a. by apply gate_log_shape.
  - intros k a Hk. destruct (inv_pending w Hw k a Hk) as (ap & Ha & <- & Hs).
    split; [|split].
    + pose proof (inv_log w Hw a) as Hl. by rewrite Ha, Hs in Hl.
    + intros d. by apply response_settles.
    + by apply timeout_settles.
  - exact Hnoop.
  - intros a ap Ha Hs. destruct (inv_shape w Hw a ap Ha) as [Ht _].
    rewrite Hs in Ht. repeat split.
    + intros Hk. destruct (inv_pending w Hw _ _ Hk) as (ap' & Ha' & _ & Hs').
      congruence.
    + done.
    + unfold step. assert (handle (TimerFires a) w = w) as ->; [|by apply run_jobs_idle].
      cbn. unfold fire_timer. by rewrite Ha, Ht.
    + intros evs'. by eapply settled_history_final.
  - intros Hinj a ap d Ha Hs.
    assert (tokens_fresh w) as Hf.
    { apply run_tokens_fresh; [done | by split; [|apply gate_ok_boot] |].
      split; intros * H; cbn in H; by rewrite lookup_nil in H. }
    pose proof (settled_token_gone w a ap Hw Hf Ha Hs) as Hgone.
    split; [done|]. apply Hnoop. by intros k [= <-].
Qed.

(** After the request of [ls_call] has timed out, a late response for its
    token changes nothing. *)
Lemma approval_settles_at_most_once_witness :
  let w := run [ls_call; TimerFires 0] sample_world in
  step w (ApprovalResponse (JStr (lit "letta_0")) (JObj 2 [(lit "allow", JBool true)])) = w.
Proof.
  intros w. subst w. unfold sample_world.
  refine (proj1 (proj2 (proj2
            (approval_settles_at_most_once [] sample_uuid 0%Z (JStr (lit "default"))
               empty_policy JNull JNull [ls_call; TimerFires 0])))
            (JStr (lit "letta_0")) (JObj 2 [(lit "allow", JBool true)]) _).
  intros k [= <-]. by vm_compute.
Defined.

(** C4: when the timer of an unsettled request fires, the module calls its
    [onCancel] with the reason [timeout], emits one cancellation signal with
    the token of the request and that reason, then resolves the request with
    [null], and the callback returns the deny decision [Permission request
    timed out] rather than raising; nothing else is emitted, the policy is
    unchanged, and no later event cancels or settles the request again. *)
Theorem timeout_cancels_then_denies :
  forall sessions uuid clock mode settings requested agent (evs : list event)
         (a : nat) (ap : Approval),
  let w := run evs (boot sessions uuid clock mode settings requested agent) in
  approvals w !! a = Some ap -> ap_settled ap = false ->
  let w' := step w (TimerFires a) in
  trace w' =
    trace w ++ [OnCancel a (lit "timeout");
                Emit (PermissionCancelled (ap_requestId ap) (lit "timeout")
                        (js_or (agentId w) (requestedAgentId w)));
                Resolved a JNull;
                Decided a (Normal (Deny (JStr (lit "Permission request timed out"))))]
  /\ toolsSettings w' = toolsSettings w
  /\ pendingToolApprovals w' !! ap_requestId ap = None
  /\ forall evs', gate_log a (trace (run evs' w'))
                  = [Cancelled (lit "timeout"); Settled JNull].
Proof.
  intros sessions uuid clock mode settings requested agent evs a ap w Ha Hs w'.
  pose proof (reachable_gate_inv sessions uuid clock mode settings requested agent evs)
    as Hinv.
  fold w in Hinv.
  destruct (timeout_settles w a ap Hinv Ha Hs) as (Hp & (ap' & Ha' & Hs' & _) & Hl).
  fold w' in Hp, Ha', Hl.
  assert (gate_inv w') as Hinv' by by apply step_gate_inv.
  destruct Hinv as [Hj Hw]. destruct (inv_shape w Hw a ap Ha) as [Ht Hc].
  rewrite Hs in Ht.
  split; [|split; [|split]]; try done.
  - unfold w', step. cbn. rewrite (fire_timer_armed w a ap _ Ha Ht Hs Hc).
    unfold run_jobs. cbn. rewrite Hj. cbn. by rewrite <- app_assoc.
  - unfold w', step. cbn. rewrite (fire_timer_armed w a ap _ Ha Ht Hs Hc).
    unfold run_jobs. cbn. by rewrite Hj.
  - intros evs'. rewrite <- Hl. by eapply settled_history_final.
Qed.

(** The request of [ls_call] under an empty policy times out. *)
Lemma timeout_cancels_then_denies_witness :
  signals (trace (run [ls_call; TimerFires 0] sample_world))
  = [PermissionRequest (lit "letta_0") (JStr (lit "Bash"))
       (JObj 1 [(lit "command", JStr (lit "ls -la"))]) JNull;
     PermissionCancelled (lit "letta_0") (lit "timeout") JNull].
Proof.
  change (run [ls_call; TimerFires 0] sample_world)
    with (step (run [ls_call] (boot [] sample_uuid 0%Z (JStr (lit "default"))
                                 empty_policy JNull JNull)) (TimerFires 0)).
  rewrite (proj1 (timeout_cancels_then_denies [] sample_uuid 0%Z (JStr (lit "default"))
                    empty_policy JNull JNull [ls_call] 0
                    {| ap_requestId := lit "letta_0";
                       ap_onCancel := Some (CancelNotice (lit "letta_0"));
                       ap_settled := false; ap_timeout := true |}
                    eq_refl eq_refl)).
  reflexivity.
Defined.

(** ** Authorization callback *)

Lemma array_some_true (f : value -> completion bool) (l : list value) :
  (forall e, e ∈ l -> exists b, f e = Normal b) ->
  (exists e, e ∈ l /\ f e = Normal true) ->
  array_some f l = Normal true.
Proof.
  induction l as [|x l IH]; intros Htot (e & He & Hf); [by apply elem_of_nil in He|].
  cbn. destruct (Htot x ltac:(left)) as [b Hb]. rewrite Hb.
  destruct b; [done|]. apply IH.
  - intros e' He'. apply Htot. by right.
  - apply elem_of_cons in He as [->|He]; [congruence|]. eauto.
Qed.

Lemma array_some_false (f : value -> completion bool) (l : list value) :
  (forall e, e ∈ l -> f e = Normal false) -> array_some f l = Normal false.
Proof.
  induction l as [|x l IH]; intros H; [done|].
  cbn. rewrite (H x) by left. apply IH. intros e He. apply H. by right.
Qed.

Lemma not_bypass (w : World) :
  permissionMode w <> JStr (lit "bypassPermissions") ->
  strict_eq (permissionMode w) (JStr (lit "bypassPermissions")) = false.
Proof.
  intros H. destruct (strict_eq _ _) eqn:E; [|done].
  by apply strict_eq_str_r in E.
Qed.

(** C6: with [skipPermissions] set the callback allows every tool call at
    once and leaves the world as it is, whatever the allowed and disallowed
    entries are: they are not evaluated, and nothing is emitted. *)
Theorem skipPermissions_allows_everything :
  forall (toolName input : value) (w : World),
  skipPermissions (toolsSettings w) = true ->
  canUseTool toolName input w = (Normal (inl (Allow JNull)), w)
  /\ trace (handle (ToolCall toolName input) w)
     = trace w ++ [Answered (Normal (Allow JNull))].
Proof.
  intros toolName input w H.
  assert (canUseTool toolName input w = (Normal (inl (Allow JNull)), w)) as E.
  { unfold canUseTool. by rewrite H, orb_true_r. }
  split; [done|]. cbn. by rewrite E.
Qed.

Lemma skipPermissions_allows_everything_witness :
  canUseTool (JStr (lit "Bash")) rm_call_input skip_world
  = (Normal (inl (Allow JNull)), skip_world).
Proof.
  apply (skipPermissions_allows_everything (JStr (lit "Bash")) rm_call_input skip_world).
  reflexivity.
Defined.

(** C7 as the specification states it fails: in a dispatch whose permission
    mode is [bypassPermissions] the callback allows a call that a disallowed
    entry matches, although the skip-all flag is off. *)
Lemma disallowed_rule_fails_under_bypass :
  ~ disallowed_rule bypass_world (JStr (lit "Bash")) rm_call_input.
Proof.
  unfold disallowed_rule. intros H.
  assert (canUseTool (JStr (lit "Bash")) rm_call_input bypass_world
          = (Normal (inl (Deny (JStr (lit "Tool disallowed by settings")))), bypass_world))
    as E; [|discriminate E].
  apply H.
  - reflexivity.
  - exists (JStr (lit "Bash(rm:*)")). split; [by left | reflexivity].
  - intros entry He. cbn in He. by apply elem_of_nil in He.
Qed.

(** C7, amended: when the permission mode is not [bypassPermissions], the
    skip-all flag is off and some disallowed entry matches the call (no
    disallowed entry making the matcher raise), the callback denies with the
    reason [Tool disallowed by settings] at once: the world is unchanged,
    nothing is emitted, and the allowed entries are not looked at. *)
Theorem disallowed_entry_denies :
  forall (toolName input : value) (w : World),
  permissionMode w <> JStr (lit "bypassPermissions") ->
  skipPermissions (toolsSettings w) = false ->
  (forall entry, entry ∈ disallowedTools (toolsSettings w) ->
     exists b, matchesToolPermission entry toolName input = Normal b) ->
  (exists entry, entry ∈ disallowedTools (toolsSettings w)
                 /\ matchesToolPermission entry toolName input = Normal true) ->
  canUseTool toolName input w
  = (Normal (inl (Deny (JStr (lit "Tool disallowed by settings")))), w)
  /\ trace (handle (ToolCall toolName input) w)
     = trace w ++ [Answered (Normal (Deny (JStr (lit "Tool disallowed by settings"))))].
Proof.
  intros toolName input w Hmode Hskip Htot Hex.
  assert (canUseTool toolName input w
          = (Normal (inl (Deny (JStr (lit "Tool disallowed by settings")))), w)) as E.
  { unfold canUseTool. rewrite (not_bypass w Hmode), Hskip. cbn [orb].
    by rewrite (array_some_true _ _ Htot Hex). }
  split; [done|]. cbn. by rewrite E.
Qed.

Lemma disallowed_entry_denies_witness :
  canUseTool (JStr (lit "Bash")) rm_call_input overridden_world
  = (Normal (inl (Deny (JStr (lit "Tool disallowed by settings")))), overridden_world).
Proof.
  apply (disallowed_entry_denies (JStr (lit "Bash")) rm_call_input overridden_world).
  - discriminate.
  - reflexivity.
  - intros entry He. cbn in He.
    apply elem_of_cons in He as [->|He]; [by exists false|].
    apply elem_of_cons in He as [->|He]; [by exists true|].
    by apply elem_of_nil in He.
  - exists (JStr (lit "Bash(rm:*)")). split; [right; left | reflexivity].
Defined.

Lemma policy_grows_refl (t : ToolsSettings) : policy_grows t t.
Proof. unfold policy_grows. auto. Qed.

Lemma policy_grows_trans (t1 t2 t3 : ToolsSettings) :
  policy_grows t1 t2 -> policy_grows t2 t3 -> policy_grows t1 t3.
Proof.
  intros (A1 & B1 & C1 & D1) (A2 & B2 & C2 & D2). repeat split.
  - auto.
  - intros e [He|He]%B2; [auto | by right].
  - auto.
  - congruence.
Qed.

Lemma remember_allowed (r : list N) (t : ToolsSettings) :
  JStr r ∈ allowedTools (remember (JStr r) t).
Proof.
  cbn. destruct (existsb _ _) eqn:E.
  - apply existsb_exists in E as (x & Hx & Hr).
    apply strict_eq_str_l in Hr as ->. by apply list_elem_of_In.
  - apply elem_of_app. right. by left.
Qed.

Lemma remember_disallowed (r : list N) (t : ToolsSettings) (e : value) :
  e ∈ disallowedTools (remember (JStr r) t) <-> e ∈ disallowedTools t /\ e <> JStr r.
Proof.
  cbn. rewrite !list_elem_of_In, filter_In, negb_true_iff.
  split; intros [H1 H2]; (split; [done|]).
  - intros ->. by rewrite (proj2 (strict_eq_str_r _ _) eq_refl) in H2.
  - destruct (strict_eq e (JStr r)) eqn:E; [|done]. by apply strict_eq_str_r in E.
Qed.

Lemma remember_grows (r : list N) (t : ToolsSettings) :
  policy_grows t (remember (JStr r) t).
Proof.
  repeat split.
  - intros e He. cbn. destruct (existsb _ _); [done|]. apply elem_of_app. by left.
  - intros e. cbn. destruct (existsb _ _); [by left|].
    intros [He|He%list_elem_of_singleton]%elem_of_app; [by left | right; eauto].
  - intros e He. by apply remember_disallowed in He as [He _].
Qed.

Lemma finalize_policy (a : nat) (d : value) (w : World) :
  toolsSettings (finalize a d w) = toolsSettings w
  /\ permissionMode (finalize a d w) = permissionMode w.
Proof.
  unfold finalize. destruct (approvals w !! a) as [ap|]; [|done].
  by destruct (ap_settled ap).
Qed.

Lemma handle_policy (ev : event) (w : World) :
  toolsSettings (handle ev w) = toolsSettings w
  /\ permissionMode (handle ev w) = permissionMode w.
Proof.
  destruct ev as [toolName input|requestId decision|a]; cbn.
  - destruct (canUseTool_cases toolName input w) as [(r & -> & Hr)| ->]; [|done].
    by destruct r as [[d|a]|e].
  - unfold resolveLettaToolApproval. destruct requestId; try done.
    destruct (_ !! _); [apply finalize_policy | done].
  - unfold fire_timer, timeout_callback.
    destruct (approvals w !! a) as [ap|]; [|done].
    destruct (ap_timeout ap); [|done].
    destruct (approvals (clearTimeout a w) !! a) as [ap'|]; [|done].
    destruct (finalize_policy a JNull
                (call_onCancel a (ap_onCancel ap') (lit "timeout") (clearTimeout a w)))
      as [-> ->].
    by destruct (ap_onCancel ap') as [[k]|].
Qed.

Lemma run_job_policy (j : nat * value) (w : World) :
  policy_grows (toolsSettings w) (toolsSettings (run_job j w))
  /\ permissionMode (run_job j w) = permissionMode w.
Proof.
  unfold run_job. destruct (canUseTool_resume (snd j) w) as [r w'] eqn:E.
  apply canUseTool_resume_world in E as [->|[e ->]]; cbn.
  - split; [apply policy_grows_refl | done].
  - split; [apply remember_grows | done].
Qed.

Lemma run_jobs_policy (w : World) :
  policy_grows (toolsSettings w) (toolsSettings (run_jobs w))
  /\ permissionMode (run_jobs w) = permissionMode w.
Proof.
  unfold run_jobs.
  change (toolsSettings w) with (toolsSettings (set_jobs (fun _ => []) w)).
  change (permissionMode w) with (permissionMode (set_jobs (fun _ => []) w)).
  generalize (set_jobs (fun _ => []) w).
  induction (jobs w) as [|j js IH]; intros w0; cbn.
  - split; [apply policy_grows_refl | done].
  - destruct (IH (run_job j w0)) as [Hg ->].
    destruct (run_job_policy j w0) as [Hg' ->].
    split; [by eapply policy_grows_trans | done].
Qed.

Lemma run_policy (evs : list event) (w : World) :
  policy_grows (toolsSettings w) (toolsSettings (run evs w))
  /\ permissionMode (run evs w) = permissionMode w.
Proof.
  revert w. induction evs as [|ev evs IH]; intros w.
  - split; [apply policy_grows_refl | done].
  - change (run (ev :: evs) w) with (run evs (step w ev)).
    destruct (IH (step w ev)) as [Hg ->]. unfold step in *.
    destruct (run_jobs_policy (handle ev w)) as [Hg' ->].
    destruct (handle_policy ev w) as [Ht ->]. rewrite Ht in Hg'.
    split; [by eapply policy_grows_trans | done].
Qed.

(** C5 as the specification states it fails: under a policy that forbids [rm]
    commands, after the peer allowed a call and asked to remember the entry
    [Bash], a [Bash] call running [rm] is matched by the remembered entry and
    still denied, because the disallowed entry is looked at first. *)
Lemma remember_rule_fails_on_disallowed_call :
  ~ remember_rule no_rm_world (grant "Bash") (lit "Bash") (JStr (lit "Bash")) rm_call_input.
Proof.
  unfold remember_rule. intros H.
  assert (canUseTool (JStr (lit "Bash")) rm_call_input
            (snd (canUseTool_resume (grant "Bash") no_rm_world))
          = (Normal (inl (Allow JNull)), snd (canUseTool_resume (grant "Bash") no_rm_world)))
    as E.
  { apply H; [by exists (JBool true) | reflexivity | by vm_compute | reflexivity]. }
  vm_compute in E. discriminate E.
Qed.

(** The continuation of the callback on a decision that allows and carries
    a remember entry. *)
Lemma canUseTool_resume_remember (w : World) (decision allow u : value) (r : list N) :
  get_prop decision "allow" = Normal allow -> truthy allow = true ->
  get_prop decision "rememberEntry" = Normal (JStr r) -> r <> [] ->
  get_prop decision "updatedInput" = Normal u ->
  canUseTool_resume decision w
  = (Normal (Allow (nullish_or u JNull)),
     set_toolsSettings (remember (JStr r) (toolsSettings w)) w).
Proof.
  intros Hallow Htrue Hr Hne Hu. unfold canUseTool_resume.
  assert (truthy decision = true) as ->.
  { destruct decision; cbn in Hallow; by simplify_eq. }
  cbn [negb]. rewrite Hallow, Htrue, Hr, Hu.
  apply truthy_str in Hne. by rewrite Hne.
Qed.

(** An allowed string entry that matches keeps allowing, whatever happens in
    between, as long as no disallowed entry matches. *)
Lemma allowed_entry_keeps_allowing (w : World) (r : list N) (evs : list event)
    (toolName input : value) :
  JStr r ∈ allowedTools (toolsSettings w) ->
  matchesToolPermission (JStr r) toolName input = Normal true ->
  (forall e, e ∈ allowedTools (toolsSettings w) -> exists s, e = JStr s) ->
  (forall e, e ∈ disallowedTools (toolsSettings w) ->
             matchesToolPermission e toolName input = Normal false) ->
  canUseTool toolName input (run evs w) = (Normal (inl (Allow JNull)), run evs w).
Proof.
  intros Hin Hm Hstr Hdis.
  destruct (run_policy evs w) as [(Ha & Hb & Hc & Hd) Hmode].
  unfold canUseTool. destruct (_ || _); [done|].
  rewrite array_some_false; [|by intros e He; apply Hdis, Hc].
  rewrite array_some_true; [done| |].
  - intros e [He|[s ->]]%Hb.
    + destruct (Hstr e He) as [s ->]. rewrite matchesToolPermission_string. eauto.
    + rewrite matchesToolPermission_string. eauto.
  - exists (JStr r). split; [by apply Ha | done].
Qed.

(** C5, amended: when the peer answers a pending request with a decision that
    has [allow] set and carries a non-empty string as remember entry, the
    callback returns allow (with the updated input, if any) after it has put
    the entry on the allowed list, unless it is there already, and removed
    every disallowed entry equal to it.  From then on, whatever else happens
    in the dispatch, a tool call that the remembered entry matches and that no
    remaining disallowed entry matches is allowed at once, the world unchanged
    and nothing emitted; the allowed list is taken to hold strings. *)
Theorem remembered_entry_allows :
  forall sessions uuid clock mode settings requested agent (evs0 : list event)
         (k : list N) (a : nat) (decision allow u : value) (r : list N),
  let w := run evs0 (boot sessions uuid clock mode settings requested agent) in
  pendingToolApprovals w !! k = Some a ->
  get_prop decision "allow" = Normal allow -> truthy allow = true ->
  get_prop decision "rememberEntry" = Normal (JStr r) -> r <> [] ->
  get_prop decision "updatedInput" = Normal u ->
  let w' := step w (ApprovalResponse (JStr k) decision) in
  trace w' = trace w ++ [Resolved a decision;
                         Decided a (Normal (Allow (nullish_or u JNull)))]
  /\ toolsSettings w' = remember (JStr r) (toolsSettings w)
  /\ JStr r ∈ allowedTools (toolsSettings w')
  /\ (forall e, e ∈ allowedTools (toolsSettings w) -> e ∈ allowedTools (toolsSettings w'))
  /\ (forall e, e ∈ disallowedTools (toolsSettings w')
                <-> e ∈ disallowedTools (toolsSettings w) /\ e <> JStr r)
  /\ forall (evs : list event) (toolName input : value),
       matchesToolPermission (JStr r) toolName input = Normal true ->
       (forall e, e ∈ allowedTools (toolsSettings w) -> exists s, e = JStr s) ->
       (forall e, e ∈ disallowedTools (toolsSettings w') ->
                  matchesToolPermission e toolName input = Normal false) ->
       let w'' := run evs w' in
       canUseTool toolName input w'' = (Normal (inl (Allow JNull)), w'')
       /\ trace (handle (ToolCall toolName input) w'')
          = trace w'' ++ [Answered (Normal (Allow JNull))].
Proof.
  intros sessions uuid clock mode settings requested agent evs0 k a decision allow u r w
         Hk Hallow Htrue Hr Hne Hu w'.
  destruct (reachable_gate_inv sessions uuid clock mode settings requested agent evs0)
    as [Hj Hw].
  fold w in Hj, Hw.
  destruct (inv_pending w Hw k a Hk) as (ap & Ha & _ & Hs).
  assert (trace w' = trace w ++ [Resolved a decision;
                                 Decided a (Normal (Allow (nullish_or u JNull)))]
          /\ toolsSettings w' = remember (JStr r) (toolsSettings w)) as [Ht Hp].
  { unfold w', step. cbn. rewrite Hk, (finalize_unsettled w a ap decision Ha Hs).
    unfold run_jobs. cbn. rewrite Hj. cbn. unfold run_job. cbn.
    rewrite (canUseTool_resume_remember _ decision allow u r) by done.
    cbn. by rewrite <- app_assoc. }
  rewrite Hp.
  split; [done|]. split; [done|].
  split; [apply remember_allowed|].
  split; [apply remember_grows|].
  split; [intros e; apply remember_disallowed|].
  intros evs toolName input Hm Hstr Hdis w''.
  assert (canUseTool toolName input w'' = (Normal (inl (Allow JNull)), w'')) as E.
  { apply (allowed_entry_keeps_allowing w' r); rewrite ?Hp; try done.
    - apply remember_allowed.
    - intros e [He|[s ->]]%(remember_grows r (toolsSettings w)); eauto. }
  split; [done|]. cbn. by rewrite E.
Qed.

(** End-to-end scenario A: under an empty policy the peer grants an [ls]
    call and asks to remember the prefix entry for [ls]; a second [ls] call is
    allowed at once. *)
Lemma remembered_entry_allows_witness :
  let w := run [ls_call] sample_world in
  let w' := step w (ApprovalResponse (JStr (lit "letta_0")) (grant "Bash(ls:*)")) in
  canUseTool (JStr (lit "Bash")) (JObj 3 [(lit "command", JStr (lit "ls -l /tmp"))])
             (run [] w')
  = (Normal (inl (Allow JNull)), run [] w').
Proof.
  unfold sample_world.
  refine (proj1 (proj2 (proj2 (proj2 (proj2 (proj2
    (remembered_entry_allows [] sample_uuid 0%Z (JStr (lit "default"))
       empty_policy JNull JNull [ls_call] (lit "letta_0") 0%nat
       (grant "Bash(ls:*)") (JBool true) JUndefined (lit "Bash(ls:*)")
       _ _ _ _ _ _)))))
    [] (JStr (lit "Bash")) (JObj 3 [(lit "command", JStr (lit "ls -l /tmp"))]) _ _ _)).
  - by vm_compute.
  - by vm_compute.
  - by vm_compute.
  - by vm_compute.
  - by vm_compute.
  - by vm_compute.
  - by vm_compute.
  - intros e He. vm_compute in He. by apply elem_of_nil in He.
  - intros e He. vm_compute in He. by apply elem_of_nil in He.
Defined.

(** ** Normalizing the tool policy *)

Lemma get_prop_defined (v : value) (k : string) :
  v <> JUndefined -> v <> JNull -> get_prop v k = Normal (field v k).
Proof. intros H1 H2. unfold field. by destruct v. Qed.

Lemma or_empty_object_defined (options : value) :
  options <> JNull ->
  or_empty_object options <> JUndefined /\ or_empty_object options <> JNull.
Proof. intros H. by destruct options. Qed.

Lemma js_or_object_defined (v : value) :
  js_or v (JObj 0%nat []) <> JUndefined /\ js_or v (JObj 0%nat []) <> JNull.
Proof. unfold js_or. destruct (truthy v) eqn:E; [|done]. by destruct v. Qed.

Lemma field_js_or_object (v : value) (k : string) :
  field (js_or v (JObj 0%nat [])) k = field v k.
Proof.
  unfold js_or. destruct (truthy v) eqn:E; [done|].
  destruct v as [| |[]|n|s| | |]; try done.
Qed.

Lemma normalizeToolsSettings_eq (options : value) :
  options <> JNull ->
  normalizeToolsSettings options =
  let ts := field (or_empty_object options) "toolsSettings" in
  Normal {| allowedTools := array_or_empty (field ts "allowedTools");
            disallowedTools := array_or_empty (field ts "disallowedTools");
            skipPermissions := truthy (field ts "skipPermissions") |}.
Proof.
  intros H. unfold normalizeToolsSettings.
  destruct (or_empty_object_defined options H) as [H1 H2].
  rewrite (get_prop_defined _ "toolsSettings" H1 H2). cbn [mbind completion_bind].
  set (ts := field (or_empty_object options) "toolsSettings").
  destruct (js_or_object_defined ts) as [H3 H4].
  rewrite !(get_prop_defined _ _ H3 H4). cbn [mbind completion_bind].
  by rewrite !field_js_or_object.
Qed.

Lemma or_empty_object_idem (v : value) :
  or_empty_object (or_empty_object v) = or_empty_object v.
Proof. by destruct v. Qed.

(** The first lines of the dispatch do not raise, and the policy they read is
    the normalized one. *)
Lemma read_options_total (options : value) (env : Env) :
  options <> JNull ->
  exists mode settings requested,
    read_options options env = Normal (mode, settings, requested)
    /\ normalizeToolsSettings options = Normal settings.
Proof.
  intros H. unfold read_options, normalizeCwd.
  destruct (or_empty_object_defined options H) as [H1 H2].
  rewrite or_empty_object_idem.
  rewrite !(get_prop_defined _ _ H1 H2). cbn [mbind completion_bind].
  rewrite (normalizeToolsSettings_eq _ H2), (normalizeToolsSettings_eq _ H).
  rewrite or_empty_object_idem. cbn [mbind completion_bind]. eauto 10.
Qed.

(** With an empty policy outside the bypass mode, the callback asks the peer
    about every tool call. *)
Lemma empty_policy_asks (toolName input : value) (w : World) :
  toolsSettings w = empty_policy ->
  permissionMode w <> JStr (lit "bypassPermissions") ->
  canUseTool toolName input w
  = (Normal (inr (length (approvals w))), asking toolName input w).
Proof.
  intros Ht Hm. unfold canUseTool. by rewrite (not_bypass w Hm), Ht.
Qed.

(** C10: for every options value but [null] the normalization returns a
    policy, which is the one the dispatch goes on with, its first lines raising
    nothing: the [allowedTools] and [disallowedTools] of [options.toolsSettings]
    where they are arrays and empty lists where they are not, and
    [skipPermissions] coerced to a boolean.  An absent [toolsSettings] gives the
    empty policy, and under a policy normalized to empty lists with the flag
    off every tool call goes to the approval gate (outside the bypass mode):
    the callback emits an approval request and waits, and raises nothing. *)
Theorem normalizeToolsSettings_total :
  forall options : value, options <> JNull ->
  let ts := field (or_empty_object options) "toolsSettings" in
  exists t,
    normalizeToolsSettings options = Normal t
    /\ (forall env, exists mode requested,
          read_options options env = Normal (mode, t, requested))
    /\ allowedTools t = array_or_empty (field ts "allowedTools")
    /\ disallowedTools t = array_or_empty (field ts "disallowedTools")
    /\ skipPermissions t = truthy (field ts "skipPermissions")
    /\ (truthy ts = false -> t = empty_policy)
    /\ ((forall ref items, field ts "allowedTools" <> JArr ref items) -> allowedTools t = [])
    /\ ((forall ref items, field ts "disallowedTools" <> JArr ref items) ->
        disallowedTools t = [])
    /\ (allowedTools t = [] -> disallowedTools t = [] -> skipPermissions t = false ->
        forall (w : World) (toolName input : value),
          toolsSettings w = t ->
          permissionMode w <> JStr (lit "bypassPermissions") ->
          canUseTool toolName input w
          = (Normal (inr (length (approvals w))), asking toolName input w)
          /\ signals (trace (asking toolName input w))
             = signals (trace w)
               ++ [PermissionRequest (lit "letta_" ++ randomUUID w (drawn w)) toolName input
                     (js_or (agentId w) (requestedAgentId w))]
          /\ pendingToolApprovals (asking toolName input w)
               !! (lit "letta_" ++ randomUUID w (drawn w))
             = Some (length (approvals w))).
Proof.
  intros options H ts. eexists. split; [by apply normalizeToolsSettings_eq|].
  split.
  { intros env.
    destruct (read_options_total options env H) as (mode & t & requested & -> & Ht).
    rewrite (normalizeToolsSettings_eq _ H) in Ht. injection Ht as <-. eauto. }
  cbn. fold ts.
  split; [done|]. split; [done|]. split; [done|].
  split. { intros Hts. by destruct ts as [| |[]|n|s| | |]. }
  split.
  { intros Hn. destruct (field ts "allowedTools") as [| | | | |ref items| |]; try done.
    by destruct (Hn ref items). }
  split.
  { intros Hn. destruct (field ts "disallowedTools") as [| | | | |ref items| |]; try done.
    by destruct (Hn ref items). }
  intros Ha Hd Hs w toolName input Ht Hm. split; [|split].
  - apply empty_policy_asks; [|done].
    rewrite Ht. unfold empty_policy. cbn in Ha, Hd, Hs. by f_equal.
  - unfold asking, signals. cbn. by rewrite omap_app.
  - unfold asking. cbn. apply lookup_insert_eq.
Qed.

(** A policy configuration whose lists are a string and [null] is read as the
    empty policy. *)
Lemma normalizeToolsSettings_total_witness :
  normalizeToolsSettings
    (JObj 1 [(lit "toolsSettings",
              JObj 2 [(lit "allowedTools", JStr (lit "Bash"));
                      (lit "disallowedTools", JNull)])])
  = Normal empty_policy.
Proof.
  destruct (normalizeToolsSettings_total
              (JObj 1 [(lit "toolsSettings",
                        JObj 2 [(lit "allowedTools", JStr (lit "Bash"));
                                (lit "disallowedTools", JNull)])])
              ltac:(discriminate))
    as (t & -> & _ & Ha & Hd & Hs & _).
  destruct t as [al dl sk]. cbn in Ha, Hd, Hs. by subst.
Defined.

(** ** Session coordinator *)

(** Once [createSession] has returned a session: when [session.initialize()]
    fails (it raises, returns nothing, or returns no identity), the dispatch
    is fulfilled after emitting one error signal and nothing else: no
    session-created signal, no prompt, no binding of the transport.  The
    registry is left as it was, so [isLettaSDKSessionActive] answers as before
    for every identity and stays false where it was false. *)
Theorem initialization_failure_halts :
  forall (command options : value) (env : Env) (w : World) (handle : nat),
  options <> JNull ->
  createSession_result env = Normal handle ->
  initialization_fails env ->
  let w' := fst (queryLettaSDK command options env w) in
  snd (queryLettaSDK command options env w) = Normal tt
  /\ (exists err sid, trace w' = trace w ++ [Emit (LettaError err sid)])
  /\ activeSessions w' = activeSessions w
  /\ (forall id, isLettaSDKSessionActive id w' = isLettaSDKSessionActive id w)
  /\ (forall id, isLettaSDKSessionActive id w = false ->
                 isLettaSDKSessionActive id w' = false).
Proof.
  intros command options env w handle Ho Hc Hfail.
  assert (snd (queryLettaSDK command options env w) = Normal tt
          /\ (exists err sid, trace (fst (queryLettaSDK command options env w))
                              = trace w ++ [Emit (LettaError err sid)])
          /\ activeSessions (fst (queryLettaSDK command options env w)) = activeSessions w)
    as (H1 & H2 & H3).
  { unfold queryLettaSDK.
    destruct (read_options_total options env Ho) as (mode & settings & requested & -> & _).
    rewrite Hc. unfold initialize_session.
    destruct Hfail as [[err ->]|(init & -> & Hinit)]; cbn [mbind completion_bind].
    - cbn. eauto.
    - destruct Hinit as [->|[->|Hid]]; [cbn; eauto..|].
      destruct init as [| | | | | | |]; try (cbn; eauto; fail);
        cbn [get_prop mbind completion_bind]; unfold field in Hid; cbn in Hid;
        rewrite ?Hid; cbn; eauto. }
  cbn zeta. unfold isLettaSDKSessionActive. rewrite H3. auto.
Qed.

Lemma initialization_failure_halts_witness :
  trace (fst (queryLettaSDK (JStr (lit "list files")) JUndefined failing_env sample_world))
  = [Emit (LettaError (Message (lit "connection refused")) JNull)]
  /\ isLettaSDKSessionActive (JStr (lit "agent-1"))
       (fst (queryLettaSDK (JStr (lit "list files")) JUndefined failing_env sample_world))
     = false.
Proof.
  destruct (initialization_failure_halts (JStr (lit "list files")) JUndefined failing_env
              sample_world 1%nat)
    as (_ & _ & _ & _ & H).
  - discriminate.
  - reflexivity.
  - left. by exists (JError 7 (lit "connection refused")).
  - split; [reflexivity | by apply H].
Defined.

(** C8: the failure of [createSession] itself is not reported.  On a dispatch
    that asks to resume a session while the backend cannot create one,
    [createSession] raises outside both [try] blocks: the dispatch is rejected
    with that error and has sent nothing, so there is no error signal, where
    a failure of [session.initialize()] is answered with one. *)
Theorem createSession_failure_sends_no_error :
  queryLettaSDK (JStr (lit "list files"))
    (JObj 1 [(lit "sessionId", JStr (lit "agent-1"))]) unreachable_env busy_world
  = (busy_world, Throw (JError 10 (lit "no backend")))
  /\ signals (trace (fst (queryLettaSDK (JStr (lit "list files"))
                            (JObj 1 [(lit "sessionId", JStr (lit "agent-1"))])
                            unreachable_env busy_world)))
     = [].
Proof. split; by vm_compute. Qed.

Lemma get_prop_again (v x : value) (k k' : string) :
  get_prop v k = Normal x -> get_prop v k' = Normal (field v k').
Proof. intros H. apply get_prop_defined; by destruct v. Qed.

Lemma is_type_result (ty : value) : is_type ty "result" = true <-> ty = JStr (lit "result").
Proof. apply strict_eq_str_r. Qed.

(** The loop body on the terminal result. *)
Lemma consume_event_result (res : value) (w : World) :
  get_prop res "type" = Normal (JStr (lit "result")) ->
  consume_event res w =
  Normal (emit (LettaComplete (agentId w)
                  (if truthy (field res "success") then 0 else 1)%Z
                  (truthy (field res "success")) (field res "durationMs")
                  (field res "totalCostUsd") (field res "conversationId")) w, true).
Proof.
  intros H. unfold consume_event. rewrite H. cbn [mbind completion_bind].
  replace (is_type (JStr (lit "result")) "stream_event") with false by by vm_compute.
  replace (is_type (JStr (lit "result")) "assistant") with false by by vm_compute.
  replace (is_type (JStr (lit "result")) "tool_call") with false by by vm_compute.
  replace (is_type (JStr (lit "result")) "tool_result") with false by by vm_compute.
  replace (is_type (JStr (lit "result")) "result") with true by by vm_compute.
  by rewrite !(get_prop_again res _ "type" _ H).
Qed.

(** The loop body on any other event: at most a streamed response, and the
    loop goes on. *)
Local Ltac emitted :=
  match goal with
  | |- exists w1 extra, Normal (emit ?p ?w, false) = _ /\ _ =>
      exists (emit p w), [Emit p]; repeat split; by repeat constructor
  end.

Lemma consume_event_not_terminal (msg ty : value) (w : World) :
  get_prop msg "type" = Normal ty -> ty <> JStr (lit "result") ->
  exists w1 extra,
    consume_event msg w = Normal (w1, false)
    /\ agentId w1 = agentId w
    /\ trace w1 = trace w ++ extra
    /\ Forall (fun o => is_response o = true) extra.
Proof.
  intros H Hty. unfold consume_event. rewrite H. cbn [mbind completion_bind].
  rewrite !(get_prop_again msg _ "type" _ H). cbn [mbind completion_bind].
  destruct (is_type ty "stream_event"); [emitted|].
  destruct (is_type ty "assistant"); [emitted|].
  destruct (is_type ty "tool_call"); [emitted|].
  destruct (is_type ty "tool_result"); [emitted|].
  destruct (is_type ty "result") eqn:E; [by apply is_type_result in E|].
  exists w, []. repeat split; [by rewrite app_nil_r | constructor].
Qed.

Lemma consume_not_terminal (pre rest : list StreamItem) (w : World) :
  Forall not_terminal pre ->
  exists w1 extra,
    consume (pre ++ rest) w = consume rest w1
    /\ agentId w1 = agentId w
    /\ trace w1 = trace w ++ extra
    /\ Forall (fun o => is_response o = true) extra.
Proof.
  intros Hpre. revert w. induction Hpre as [|item pre (msg & ty & -> & Hm & Hty) _ IH]; intros w.
  - exists w, []. repeat split; [by rewrite app_nil_r | constructor].
  - destruct (consume_event_not_terminal msg ty w Hm Hty) as (w1 & e1 & E & Ha & Ht & Hq).
    destruct (IH w1) as (w2 & e2 & E2 & Ha2 & Ht2 & Hq2).
    exists w2, (e1 ++ e2). cbn. rewrite E, E2. repeat split.
    + congruence.
    + by rewrite Ht2, Ht, app_assoc.
    + by apply Forall_app.
Qed.

Lemma response_not_terminal (o : Obs) :
  is_response o = true -> is_terminal_signal o = false.
Proof. by destruct o as [[]| | | | | |]. Qed.

Lemma no_completion_before (l : list Obs) :
  Forall (fun o => is_terminal_signal o = false) l ->
  List.filter is_completion (signals l) = [].
Proof.
  induction 1 as [|o l Ho _ IH]; [done|].
  unfold signals in *. destruct o as [p| | | | | |]; cbn; try done.
  cbn in Ho. apply orb_false_iff in Ho as [-> _]. done.
Qed.

(** C9: in a dispatch whose session initializes and whose prompt, if any, is
    accepted, when the stream reaches a terminal result event the loop ends
    there: the dispatch is fulfilled, the last thing it does is to emit the
    completion signal, with exit code 0 if the result reports success and 1
    otherwise and with the success flag, duration, cost and conversation
    identity of the result, and nothing it did before is a completion or an
    error signal.  The events after the result are not looked at. *)
Theorem result_event_completes_once :
  forall (command options : value) (env : Env) (w : World) (handle : nat)
         (init a res : value) (prompt : list N) (pre post : list StreamItem),
  options <> JNull ->
  createSession_result env = Normal handle ->
  initialize_result env = Normal init ->
  get_prop init "agentId" = Normal a -> truthy a = true ->
  prompt_of command = Normal prompt ->
  prompt = [] \/ send_result env = Normal tt ->
  stream_items env = pre ++ Yield res :: post ->
  Forall not_terminal pre ->
  get_prop res "type" = Normal (JStr (lit "result")) ->
  let w' := fst (queryLettaSDK command options env w) in
  let complete :=
    LettaComplete a (if truthy (field res "success") then 0 else 1)%Z
      (truthy (field res "success")) (field res "durationMs")
      (field res "totalCostUsd") (field res "conversationId") in
  snd (queryLettaSDK command options env w) = Normal tt
  /\ exists before,
       trace w' = trace w ++ before ++ [Emit complete]
       /\ Forall (fun o => is_terminal_signal o = false) before
       /\ List.filter is_completion (signals (before ++ [Emit complete])) = [complete].
Proof.
  intros command options env w handle init a res prompt pre post
         Ho Hc Hi Ha Hid Hp Hsend Hs Hpre Hres.
  cbn zeta. unfold queryLettaSDK.
  destruct (read_options_total options env Ho) as (mode & settings & requested & -> & _).
  rewrite Hc. unfold initialize_session. rewrite Hi. cbn [mbind completion_bind].
  rewrite Ha. cbn [mbind completion_bind]. rewrite Hid. cbn [negb].
  rewrite (get_prop_again init _ "agentId" _ Ha).
  set (w0 := set_activeSessions _ _).
  set (w1 := if ws_setSessionId env then observe (BindSession a) w0 else w0).
  set (w2 := emit (SessionCreated a a (field init "conversationId")) w1).
  assert (exists b2, trace w2 = trace w ++ b2
                     /\ Forall (fun o => is_terminal_signal o = false) b2
                     /\ agentId w2 = a) as (b2 & Ht2 & Hq2 & Ha2).
  { unfold w2, w1, w0. destruct (ws_setSessionId env); cbn.
    - exists [BindSession a; Emit (SessionCreated a a (field init "conversationId"))].
      rewrite <- app_assoc. by repeat constructor.
    - exists [Emit (SessionCreated a a (field init "conversationId"))].
      by repeat constructor. }
  clearbody w2. clear w1 w0.
  assert (exists w3 b3, stream_session command env w2 = consume (stream_items env) w3
                        /\ trace w3 = trace w ++ b3
                        /\ Forall (fun o => is_terminal_signal o = false) b3
                        /\ agentId w3 = a) as (w3 & b3 & -> & Ht3 & Hq3 & Ha3).
  { unfold stream_session. rewrite Hp.
    destruct (truthy (JStr prompt)) eqn:Et.
    - destruct Hsend as [-> | ->]; [done|].
      exists (observe (Prompt prompt) w2), (b2 ++ [Prompt prompt]). cbn.
      rewrite Ht2, <- app_assoc. repeat split; [|done].
      apply Forall_app. split; [done | by repeat constructor].
    - by exists w2, b2. }
  rewrite Hs.
  destruct (consume_not_terminal pre (Yield res :: post) w3 Hpre)
    as (w4 & b4 & -> & Ha4 & Ht4 & Hq4).
  cbn [consume]. rewrite (consume_event_result res w4 Hres). cbn.
  split; [done|]. exists (b3 ++ b4).
  rewrite Ha4, Ha3. split; [by rewrite Ht4, Ht3, <- !app_assoc|].
  assert (Forall (fun o => is_terminal_signal o = false) (b3 ++ b4)) as Hq.
  { apply Forall_app. split; [done|].
    eapply Forall_impl; [exact Hq4 | apply response_not_terminal]. }
  split; [done|].
  unfold signals. rewrite omap_app, List.filter_app.
  fold (signals (b3 ++ b4)). by rewrite (no_completion_before _ Hq).
Qed.

(** End-to-end scenario D: the stream yields an assistant text, a successful
    result and one more event; the dispatch ends with the one completion
    signal, exit code 0. *)
Lemma result_event_completes_once_witness :
  snd (queryLettaSDK (JStr (lit "list files")) JUndefined finishing_env sample_world)
  = Normal tt
  /\ signals (trace (fst (queryLettaSDK (JStr (lit "list files")) JUndefined
                            finishing_env sample_world)))
     = [SessionCreated (JStr (lit "agent-1")) (JStr (lit "agent-1")) (JStr (lit "conv-1"));
        LettaResponse (AssistantText (JStr (lit "done"))) (JStr (lit "agent-1"));
        LettaComplete (JStr (lit "agent-1")) 0 true (JNum 1200) JUndefined JUndefined].
Proof.
  split; [|by vm_compute].
  refine (proj1 (result_event_completes_once
                   (JStr (lit "list files")) JUndefined finishing_env sample_world 1%nat
                   (JObj 4 [(lit "agentId", JStr (lit "agent-1"));
                            (lit "conversationId", JStr (lit "conv-1"))])
                   (JStr (lit "agent-1"))
                   (JObj 6 [(lit "type", JStr (lit "result")); (lit "success", JBool true);
                            (lit "durationMs", JNum 1200)])
                   (lit "list files")
                   [Yield (JObj 5 [(lit "type", JStr (lit "assistant"));
                                   (lit "content", JStr (lit "done"))])]
                   [Yield (JObj 7 [(lit "type", JStr (lit "assistant"));
                                   (lit "content", JStr (lit "late"))])]
                   _ _ _ _ _ _ _ _ _ _)).
  - discriminate.
  - reflexivity.
  - reflexivity.
  - by vm_compute.
  - by vm_compute.
  - by vm_compute.
  - by right.
  - reflexivity.
  - constructor; [|constructor].
    exists (JObj 5 [(lit "type", JStr (lit "assistant")); (lit "content", JStr (lit "done"))]),
           (JStr (lit "assistant")).
    split; [reflexivity|]. split; by vm_compute.
  - by vm_compute.
Defined.

(** A prefix-wildcard entry matches a [Bash] call whose trimmed command starts
    with the prefix. *)
Lemma matchesToolPermission_characterised_witness :
  matchesToolPermission (JStr (lit "Bash(ls:*)")) (JStr (lit "Bash"))
    (JObj 1 [(lit "command", JStr (lit "  ls -la "))]) = Normal true
  /\ matchesToolPermission JNull (JStr (lit "Bash")) JUndefined = Normal false.
Proof.
  destruct matchesToolPermission_characterised as (H1 & _ & H3). split.
  - apply H1. split; [by vm_compute|]. right. split; [reflexivity|].
    exists (lit "ls"). split; [|split].
    + split; [reflexivity|]. split; [by vm_compute|].
      by repeat constructor.
    + by vm_compute.
    + exists (lit " -la"). by vm_compute.
  - by apply H3.
Defined.

(** * Further properties of the module *)

(** ** Trimming and the matcher *)

Lemma trim_start_app (s t : list N) :
  trim_start (s ++ t)
  = match trim_start s with
    | [] => trim_start t
    | _ :: _ => trim_start s ++ t
    end.
Proof.
  induction s as [|c s IH]; [done|].
  cbn. by destruct (is_trimmable c).
Qed.

Lemma trim_start_blank (pad : list N) :
  Forall (fun c => is_trimmable c = true) pad -> trim_start pad = [].
Proof. induction 1 as [|c pad Hc _ IH]; [done|]. cbn. by rewrite Hc. Qed.

Lemma trim_start_split (x : list N) : exists z, x = z ++ trim_start x.
Proof.
  induction x as [|c x [z IH]]; [by exists []|].
  cbn. destruct (is_trimmable c); [|by exists []].
  exists (c :: z). cbn. by rewrite <- IH.
Qed.

(** Whitespace around a command does not count. *)
Lemma trim_padded (pad c pad' : list N) :
  Forall (fun x => is_trimmable x = true) pad ->
  Forall (fun x => is_trimmable x = true) pad' ->
  trim (pad ++ c ++ pad') = trim c.
Proof.
  intros Hp Hp'. unfold trim.
  rewrite (trim_start_app pad), (trim_start_blank pad Hp), (trim_start_app c).
  destruct (trim_start c) as [|y ys] eqn:E.
  - by rewrite (trim_start_blank pad' Hp').
  - rewrite rev_app_distr, trim_start_app, trim_start_blank; [done|].
    apply Forall_forall. intros x Hx.
    apply list_elem_of_In, in_rev, list_elem_of_In in Hx.
    by apply (proj1 (Forall_forall _ _) Hp').
Qed.

(** What is appended to a command that is not blank comes after its trimmed
    text. *)
Lemma trim_extended (c t : list N) :
  trim c <> [] -> exists r, trim (c ++ t) = trim c ++ r.
Proof.
  unfold trim. intros Hne. rewrite trim_start_app.
  destruct (trim_start c) as [|y ys] eqn:E; [done|].
  rewrite rev_app_distr, trim_start_app.
  destruct (trim_start (rev t)) as [|u us] eqn:Et; [by exists []; rewrite app_nil_r|].
  destruct (trim_start_split (rev (y :: ys))) as [z Hz].
  rewrite rev_app_distr, rev_involutive.
  apply (f_equal (@rev N)) in Hz. rewrite rev_involutive, rev_app_distr in Hz.
  exists (rev z ++ rev (u :: us)). by rewrite app_assoc, <- Hz.
Qed.

(** X1: what a policy allows for a command it allows for every command that
    continues it.  If a string entry matches a tool call, it matches the call
    of the same tool whose command string has any text appended: a prefix
    entry asks for no word boundary after the prefix. *)
Theorem matching_survives_appended_text :
  forall (e : list N) (toolName input input' : value) (t : list N),
  command_of input' = command_of input ++ t ->
  matchesToolPermission (JStr e) toolName input = Normal true ->
  matchesToolPermission (JStr e) toolName input' = Normal true.
Proof.
  intros e toolName input input' t Hc. rewrite !matchesToolPermission_string, Hc.
  destruct (truthy (JStr e) && truthy toolName); [|done]. cbn [andb].
  destruct (strict_eq (JStr e) toolName); [done|]. cbn [orb].
  destruct (bash_regexp e) as [P|]; [|done].
  destruct (strict_eq toolName (JStr (lit "Bash"))); [|done]. cbn [andb].
  intros [= H]. f_equal. apply andb_true_iff in H as [Ht Hs].
  apply truthy_str in Ht. destruct (trim_extended (command_of input) t Ht) as [r ->].
  apply startsWith_prefix in Hs as [rest Hs].
  apply andb_true_iff. split.
  - apply truthy_str. by destruct (trim (command_of input)).
  - apply startsWith_prefix. exists (rest ++ r). by rewrite Hs, <- app_assoc.
Qed.

(** The entry for [ls] also lets through an [ls] followed by another
    command. *)
Lemma matching_survives_appended_text_witness :
  matchesToolPermission (JStr (lit "Bash(ls:*)")) (JStr (lit "Bash"))
    (JObj 2 [(lit "command", JStr (lit "ls -la && rm -rf build"))]) = Normal true.
Proof.
  apply (matching_survives_appended_text (lit "Bash(ls:*)") (JStr (lit "Bash"))
           (JObj 1 [(lit "command", JStr (lit "ls -la"))])
           (JObj 2 [(lit "command", JStr (lit "ls -la && rm -rf build"))])
           (lit " && rm -rf build")).
  - by vm_compute.
  - by vm_compute.
Defined.

(** X2: whitespace and line terminators around the command do not change
    what a string entry decides: two inputs whose command strings differ only
    by such padding get the same answer. *)
Theorem matching_ignores_padding :
  forall (e : list N) (toolName input input' : value) (pad pad' : list N),
  Forall (fun c => is_trimmable c = true) pad ->
  Forall (fun c => is_trimmable c = true) pad' ->
  command_of input' = pad ++ command_of input ++ pad' ->
  matchesToolPermission (JStr e) toolName input'
  = matchesToolPermission (JStr e) toolName input.
Proof.
  intros e toolName input input' pad pad' Hp Hp' Hc.
  by rewrite !matchesToolPermission_string, Hc, trim_padded.
Qed.

Lemma matching_ignores_padding_witness :
  matchesToolPermission (JStr (lit "Bash(ls:*)")) (JStr (lit "Bash"))
    (JStr [9; 32; 108; 115; 32; 47; 10])
  = matchesToolPermission (JStr (lit "Bash(ls:*)")) (JStr (lit "Bash"))
      (JObj 1 [(lit "command", JStr (lit "ls /"))]).
Proof.
  apply (matching_ignores_padding (lit "Bash(ls:*)") (JStr (lit "Bash"))
           (JObj 1 [(lit "command", JStr (lit "ls /"))])
           (JStr [9; 32; 108; 115; 32; 47; 10]) [9; 32] [10]).
  - by repeat constructor.
  - by repeat constructor.
  - by vm_compute.
Defined.

(** ** The shape of a step *)

Lemma run_jobs_decided (w : World) :
  exists decided,
    trace (run_jobs w) = trace w ++ decided
    /\ Forall2 (fun j o => exists r, o = Decided (fst j) r) (jobs w) decided.
Proof.
  unfold run_jobs. change (trace w) with (trace (set_jobs (fun _ => []) w)).
  generalize (set_jobs (fun _ => []) w). induction (jobs w) as [|j js IH]; intros w0; cbn.
  - exists []. by rewrite app_nil_r.
  - destruct (IH (run_job j w0)) as (d & -> & Hd).
    destruct (run_job_gate j w0) as (_ & _ & _ & r & ->).
    exists (Decided (fst j) r :: d). rewrite <- app_assoc. split; [done|].
    constructor; eauto.
Qed.

Lemma run_jobs_closure (w : World) :
  agentId (run_jobs w) = agentId w
  /\ requestedAgentId (run_jobs w) = requestedAgentId w
  /\ activeSessions (run_jobs w) = activeSessions w.
Proof.
  unfold run_jobs.
  change (agentId w) with (agentId (set_jobs (fun _ => []) w)).
  change (requestedAgentId w) with (requestedAgentId (set_jobs (fun _ => []) w)).
  change (activeSessions w) with (activeSessions (set_jobs (fun _ => []) w)).
  generalize (set_jobs (fun _ => []) w).
  induction (jobs w) as [|j js IH]; intros w0; cbn; [done|].
  destruct (IH (run_job j w0)) as (-> & -> & ->).
  unfold run_job. destruct (canUseTool_resume (snd j) w0) as [r w'] eqn:E.
  by apply canUseTool_resume_world in E as [->|[e ->]].
Qed.

Lemma step_shape_of (w : World) (ev : event) :
  gate_inv w ->
  exists core decided,
    step_shape w core (pendingToolApprovals (step w ev)) (approvals (step w ev))
               (drawn (step w ev))
    /\ trace (step w ev) = trace w ++ core ++ decided
    /\ Forall2 (fun j o => exists r, o = Decided (fst j) r) (woken core) decided
    /\ randomUUID (step w ev) = randomUUID w
    /\ agentId (step w ev) = agentId w
    /\ requestedAgentId (step w ev) = requestedAgentId w
    /\ activeSessions (step w ev) = activeSessions w.
Proof.
  intros [Hj Hw]. unfold step.
  destruct (run_jobs_decided (handle ev w)) as (decided & -> & Hd).
  destruct (run_jobs_fields (handle ev w)) as (-> & -> & _).
  destruct (run_jobs_tokens (handle ev w)) as [-> ->].
  destruct (run_jobs_closure (handle ev w)) as (-> & -> & ->).
  assert (forall core p l n,
            step_shape w core p l n ->
            pendingToolApprovals (handle ev w) = p -> approvals (handle ev w) = l ->
            drawn (handle ev w) = n -> trace (handle ev w) = trace w ++ core ->
            jobs (handle ev w) = woken core ->
            randomUUID (handle ev w) = randomUUID w ->
            agentId (handle ev w) = agentId w ->
            requestedAgentId (handle ev w) = requestedAgentId w ->
            activeSessions (handle ev w) = activeSessions w ->
            exists core decided0,
              step_shape w core (pendingToolApprovals (handle ev w))
                         (approvals (handle ev w)) (drawn (handle ev w))
              /\ trace (handle ev w) ++ decided = trace w ++ core ++ decided0
              /\ Forall2 (fun j o => exists r, o = Decided (fst j) r) (woken core) decided0
              /\ randomUUID (handle ev w) = randomUUID w
              /\ agentId (handle ev w) = agentId w
              /\ requestedAgentId (handle ev w) = requestedAgentId w
              /\ activeSessions (handle ev w) = activeSessions w) as Hgo.
  { intros core p l n Hs <- <- <- Ht Hjobs Hu Ha Hr Hact. exists core, decided.
    rewrite Ht, <- app_assoc, <- Hjobs. by repeat split. }
  destruct ev as [toolName input|requestId decision|a]; cbn in *.
  - destruct (canUseTool_cases toolName input w) as [(r & E & Hr)|E]; rewrite E in *.
    + destruct r as [[d|a]|e]; [|by destruct (Hr a)|];
        (eapply Hgo; [apply shape_answered|..]; done).
    + eapply Hgo; [apply (shape_asking w toolName input)|..]; done.
  - unfold resolveLettaToolApproval in *.
    destruct requestId as [| | | |k| | |];
      try (eapply Hgo; [apply shape_idle|..]; by rewrite ?app_nil_r).
    destruct (pendingToolApprovals w !! k) as [a|] eqn:Hk;
      [|eapply Hgo; [apply shape_idle|..]; by rewrite ?app_nil_r].
    destruct (inv_pending w Hw k a Hk) as (ap & Ha & <- & Hs).
    rewrite (finalize_unsettled w a ap decision Ha Hs) in *.
    eapply Hgo; [by apply (shape_response w a ap decision)|..]; cbn; by rewrite ?Hj.
  - destruct (approvals w !! a) as [ap|] eqn:Ha.
    + destruct (inv_shape w Hw a ap Ha) as [Ht Hc].
      destruct (ap_settled ap) eqn:Hs.
      * assert (fire_timer a w = w) as E by (unfold fire_timer; by rewrite Ha, Ht).
        rewrite E in *. eapply Hgo; [apply shape_idle|..]; by rewrite ?app_nil_r.
      * rewrite (fire_timer_armed w a ap _ Ha Ht Hs Hc) in *.
        eapply Hgo; [by apply (shape_timeout w a ap)|..]; cbn; by rewrite ?Hj.
    + assert (fire_timer a w = w) as E by (unfold fire_timer; by rewrite Ha).
      rewrite E in *. eapply Hgo; [apply shape_idle|..]; by rewrite ?app_nil_r.
Qed.

(** ** What holds in every state the event loop reaches *)

(** A property of the loaded module that every step keeps holds after every
    run. *)
Lemma reachable_invariant (P : World -> Prop) sessions uuid clock mode settings
    requested agent (evs : list event) :
  P (boot sessions uuid clock mode settings requested agent) ->
  (forall w ev, gate_inv w -> randomUUID w = uuid -> P w -> P (step w ev)) ->
  P (run evs (boot sessions uuid clock mode settings requested agent)).
Proof.
  intros Hboot Hstep.
  assert (forall evs w, gate_inv w -> randomUUID w = uuid -> P w -> P (run evs w)) as H.
  { clear evs. induction evs as [|ev evs IH]; intros w Hw Hu Hp; [done|].
    change (run (ev :: evs) w) with (run evs (step w ev)).
    apply IH; [by apply step_gate_inv | | by apply Hstep].
    destruct (step_shape_of w ev Hw) as (? & ? & _ & _ & _ & -> & _). done. }
  apply H; [|done|done]. split; [done | apply gate_ok_boot].
Qed.

Lemma lookup_settled (l : list Approval) (a a' : nat) (ap ap' : Approval) :
  l !! a = Some ap ->
  <[a := disarm (settle ap)]> l !! a' = Some ap' ->
  exists ap0, l !! a' = Some ap0
              /\ ap_requestId ap' = ap_requestId ap0
              /\ ap_settled ap' = (if decide (a' = a) then true else ap_settled ap0).
Proof.
  intros Ha. destruct (decide (a' = a)) as [->|Hne].
  - rewrite list_lookup_insert_eq by by eapply lookup_lt_Some.
    intros [= <-]. by exists ap.
  - rewrite list_lookup_insert_ne by done. intros H. by exists ap'.
Qed.

Lemma lookup_asked (l : list Approval) (new ap : Approval) (a : nat) :
  (l ++ [new]) !! a = Some ap ->
  l !! a = Some ap \/ (a = length l /\ ap = new).
Proof.
  intros [H|[Hlen H]]%lookup_app_Some; [by left|].
  apply list_lookup_singleton_Some in H as [Hz <-]. right. split; [lia | done].
Qed.

Lemma step_tokens_by_position (w : World) (ev : event) :
  gate_inv w -> tokens_by_position w -> tokens_by_position (step w ev).
Proof.
  intros Hw [Hd Ht].
  destruct (step_shape_of w ev Hw) as (core & decided & Hs & _ & _ & Hu & _).
  unfold tokens_by_position. rewrite Hu.
  inversion Hs as [| | | a0 ap0 d0 Ha0 Hs0 Hp0 | a0 ap0 Ha0 Hs0]; subst.
  - by split.
  - by split.
  - split; [rewrite length_app; cbn; lia|].
    intros a ap [H|[-> ->]]%lookup_asked; [by apply Ht|]. cbn. by rewrite Hd.
  - split; [by rewrite length_insert|].
    intros a ap (ap1 & Hl1 & -> & _)%(lookup_settled _ _ _ _ _ Ha0). by apply (Ht a).
  - split; [by rewrite length_insert|].
    intros a ap (ap1 & Hl1 & -> & _)%(lookup_settled _ _ _ _ _ Ha0). by apply (Ht a).
Qed.

Lemma omap_decided {B} (f : Obs -> option B) (js : list (nat * value)) (decided : list Obs) :
  Forall2 (fun j o => exists r, o = Decided (fst j) r) js decided ->
  (forall a r, f (Decided a r) = None) ->
  omap f decided = [].
Proof.
  intros H Hf. induction H as [|j o js decided [r ->] _ IH]; [done|].
  cbn. by rewrite Hf.
Qed.

Lemma requestIds_settled (l : list Approval) (a : nat) (ap : Approval) :
  l !! a = Some ap ->
  map ap_requestId (<[a := disarm (settle ap)]> l) = map ap_requestId l.
Proof.
  intros Ha. change (map ap_requestId) with (fmap (M := list) ap_requestId).
  rewrite list_fmap_insert. apply list_insert_id.
  by rewrite list_lookup_fmap, Ha.
Qed.

Lemma tokens_distinct (w : World) (a a' : nat) (ap ap' : Approval) :
  (forall i j, randomUUID w i = randomUUID w j -> i = j) ->
  tokens_by_position w ->
  approvals w !! a = Some ap -> approvals w !! a' = Some ap' ->
  ap_requestId ap = ap_requestId ap' -> a = a'.
Proof.
  intros Hinj [_ Ht] Ha Ha' Heq.
  rewrite (Ht a ap Ha), (Ht a' ap' Ha') in Heq.
  by apply app_inv_head, Hinj in Heq.
Qed.

Lemma step_pending_complete (w : World) (ev : event) :
  (forall i j, randomUUID w i = randomUUID w j -> i = j) ->
  gate_inv w -> tokens_by_position w -> pending_complete w ->
  pending_complete (step w ev).
Proof.
  intros Hinj Hw Htok Hpc.
  destruct (step_shape_of w ev Hw) as (core & decided & Hs & _).
  unfold pending_complete.
  inversion Hs as [| | | a0 ap0 d0 Ha0 Hs0 Hp0 | a0 ap0 Ha0 Hs0]; subst.
  - done.
  - done.
  - intros a ap [H|[-> ->]]%lookup_asked Hu.
    + rewrite lookup_insert_ne; [by apply Hpc|].
      destruct Htok as [Hd Ht]. rewrite (Ht a ap H), Hd.
      intros Heq. pose proof (app_inv_head (lit "letta_") _ _ Heq) as Heq'.
      apply Hinj in Heq'. apply lookup_lt_Some in H. lia.
    + cbn. apply lookup_insert_eq.
  - intros a ap (ap1 & Hl1 & Hk & Hset)%(lookup_settled _ _ _ _ _ Ha0) Hu.
    rewrite Hset in Hu. destruct (decide (a = a0)) as [->|Hne]; [done|].
    rewrite Hk, lookup_delete_ne; [by apply Hpc|].
    intros Heq. apply Hne. symmetry. by eapply (tokens_distinct w a0 a).
  - intros a ap (ap1 & Hl1 & Hk & Hset)%(lookup_settled _ _ _ _ _ Ha0) Hu.
    rewrite Hset in Hu. destruct (decide (a = a0)) as [->|Hne]; [done|].
    rewrite Hk, lookup_delete_ne; [by apply Hpc|].
    intros Heq. apply Hne. symmetry. by eapply (tokens_distinct w a0 a).
Qed.

Lemma step_announced (w : World) (ev : event) :
  gate_inv w -> announced w -> announced (step w ev).
Proof.
  intros Hw [Hreq Hcan].
  destruct (step_shape_of w ev Hw) as (core & decided & Hs & Htr & Hd & _).
  unfold announced, request_tokens, cancelled_tokens in *.
  rewrite Htr, !omap_app, (omap_decided request_token _ _ Hd),
    (omap_decided cancelled_token _ _ Hd), !app_nil_r by done.
  inversion Hs as [| | | a0 ap0 d0 Ha0 Hs0 Hp0 | a0 ap0 Ha0 Hs0]; subst; cbn;
    rewrite ?app_nil_r.
  - done.
  - done.
  - split; [by rewrite Hreq, map_app|].
    intros k (a & ap & Ha & Hk & Hset)%Hcan. exists a, ap.
    split; [by apply lookup_app_l_Some | done].
  - split; [by rewrite requestIds_settled|].
    intros k (a & ap & Ha & Hk & Hset)%Hcan.
    destruct (decide (a = a0)) as [->|Hne].
    + exists a0, (disarm (settle ap0)).
      rewrite list_lookup_insert_eq by by eapply lookup_lt_Some.
      split; [done|]. split; [cbn; congruence | done].
    + exists a, ap. by rewrite list_lookup_insert_ne.
  - split; [by rewrite requestIds_settled|].
    intros k [Hk|Hk%list_elem_of_singleton]%elem_of_app.
    + destruct (Hcan k Hk) as (a & ap & Ha & Hka & Hset).
      destruct (decide (a = a0)) as [->|Hne].
      * exists a0, (disarm (settle ap0)).
        rewrite list_lookup_insert_eq by by eapply lookup_lt_Some.
        split; [done|]. split; [cbn; congruence | done].
      * exists a, ap. by rewrite list_lookup_insert_ne.
    + subst k. exists a0, (disarm (settle ap0)).
      rewrite list_lookup_insert_eq by by eapply lookup_lt_Some. done.
Qed.

Lemma decided_log_app (a : nat) (t1 t2 : list Obs) :
  decided_log a (t1 ++ t2) = decided_log a t1 ++ decided_log a t2.
Proof. apply omap_app. Qed.

Lemma step_answered_once (w : World) (ev : event) :
  gate_inv w -> answered_once w -> answered_once (step w ev).
Proof.
  intros Hw Hans a. specialize (Hans a).
  destruct (step_shape_of w ev Hw) as (core & decided & Hs & -> & Hd & _).
  rewrite !decided_log_app.
  inversion Hs as [| | | a0 ap0 d0 Ha0 Hs0 Hp0 | a0 ap0 Ha0 Hs0]; subst; cbn in Hd.
  - apply Forall2_nil_inv_l in Hd as ->. by rewrite !app_nil_r.
  - apply Forall2_nil_inv_l in Hd as ->. by rewrite !app_nil_r.
  - apply Forall2_nil_inv_l in Hd as ->. rewrite !app_nil_r.
    destruct (decide (a < length (approvals w))%nat) as [Hlt|Hge].
    + by rewrite lookup_app_l.
    + rewrite lookup_ge_None_2 in Hans by lia.
      destruct ((approvals w ++ _) !! a) as [ap|] eqn:E; [|done].
      by apply lookup_asked in E as [E%lookup_lt_Some|[_ ->]]; [lia|].
  - apply Forall2_cons_inv_l in Hd as (o & rest & [r ->] & ->%Forall2_nil_inv_l & ->).
    unfold decided_log at 2 3. cbn.
    destruct (decide (a = a0)) as [->|Hne].
    + rewrite list_lookup_insert_eq by by eapply lookup_lt_Some. cbn.
      rewrite Ha0, Hs0 in Hans. rewrite Hans, Nat.eqb_refl. eauto.
    + rewrite list_lookup_insert_ne by done.
      destruct (Nat.eqb_spec a0 a); [congruence|]. by rewrite !app_nil_r.
  - apply Forall2_cons_inv_l in Hd as (o & rest & [r ->] & ->%Forall2_nil_inv_l & ->).
    unfold decided_log at 2 3. cbn.
    destruct (decide (a = a0)) as [->|Hne].
    + rewrite list_lookup_insert_eq by by eapply lookup_lt_Some. cbn.
      rewrite Ha0, Hs0 in Hans. rewrite Hans, Nat.eqb_refl. eauto.
    + rewrite list_lookup_insert_ne by done.
      destruct (Nat.eqb_spec a0 a); [congruence|]. by rewrite !app_nil_r.
Qed.

Lemma sample_uuid_inj (i j : nat) : sample_uuid i = sample_uuid j -> i = j.
Proof. unfold sample_uuid. intros [= H]. lia. Qed.

Lemma tokens_nodup (w : World) :
  (forall i j, randomUUID w i = randomUUID w j -> i = j) ->
  tokens_by_position w -> NoDup (map ap_requestId (approvals w)).
Proof.
  intros Hinj Htok. change (map ap_requestId) with (fmap (M := list) ap_requestId).
  apply NoDup_alt. intros a a' k.
  rewrite !list_lookup_fmap.
  destruct (approvals w !! a) as [ap|] eqn:Ha; [|done].
  destruct (approvals w !! a') as [ap'|] eqn:Ha'; [|done].
  cbn. intros [= <-] [= Heq]. by eapply (tokens_distinct w a a').
Qed.

Lemma reachable_tokens sessions uuid clock mode settings requested agent evs :
  let w := run evs (boot sessions uuid clock mode settings requested agent) in
  randomUUID w = uuid /\ tokens_by_position w.
Proof.
  apply (reachable_invariant (fun w => randomUUID w = uuid /\ tokens_by_position w)).
  - split; [done|]. split; [done|]. intros a ap H. cbn in H. by rewrite lookup_nil in H.
  - intros w ev Hw Hu [_ Ht]. split; [|by apply step_tokens_by_position].
    destruct (step_shape_of w ev Hw) as (? & ? & _ & _ & _ & -> & _). done.
Qed.

(** X3: the request created by the [a]-th tool call that reaches the gate
    carries the token [letta_] followed by the [a]-th identifier drawn, and one
    identifier is drawn per request; so if the identifiers never repeat, no
    two requests ever share a token. *)
Theorem tokens_follow_the_draws :
  forall sessions uuid clock mode settings requested agent (evs : list event),
  let w := run evs (boot sessions uuid clock mode settings requested agent) in
  drawn w = length (approvals w)
  /\ (forall a ap, approvals w !! a = Some ap ->
        ap_requestId ap = lit "letta_" ++ uuid a)
  /\ ((forall i j, uuid i = uuid j -> i = j) ->
      NoDup (map ap_requestId (approvals w))).
Proof.
  intros sessions uuid clock mode settings requested agent evs w.
  destruct (reachable_tokens sessions uuid clock mode settings requested agent evs)
    as [Hu Htok].
  fold w in Hu, Htok. split; [apply Htok|]. split.
  - intros a ap Ha. rewrite <- Hu. by apply Htok.
  - intros Hinj. apply tokens_nodup; [by rewrite Hu | done].
Qed.

Lemma tokens_follow_the_draws_witness :
  NoDup (map ap_requestId (approvals (run [ls_call; ls_call; TimerFires 0; ls_call]
                                          sample_world))).
Proof.
  unfold sample_world.
  refine (proj2 (proj2 (tokens_follow_the_draws [] sample_uuid 0%Z (JStr (lit "default"))
                          empty_policy JNull JNull
                          [ls_call; ls_call; TimerFires 0; ls_call])) _).
  exact sample_uuid_inj.
Defined.

Lemma reachable_pending_complete sessions uuid clock mode settings requested agent evs :
  (forall i j, uuid i = uuid j -> i = j) ->
  pending_complete (run evs (boot sessions uuid clock mode settings requested agent)).
Proof.
  intros Hinj.
  apply (reachable_invariant
           (fun w => randomUUID w = uuid /\ tokens_by_position w /\ pending_complete w)).
  - split; [done|]. split.
    + split; [done|]. intros a ap H. cbn in H. by rewrite lookup_nil in H.
    + intros a ap H. cbn in H. by rewrite lookup_nil in H.
  - intros w ev Hw Hu (_ & Ht & Hp). split; [|split].
    + destruct (step_shape_of w ev Hw) as (? & ? & _ & _ & _ & -> & _). done.
    + by apply step_tokens_by_position.
    + apply step_pending_complete; try done. by rewrite Hu.
Qed.

Lemma reachable_answered_once sessions uuid clock mode settings requested agent evs :
  answered_once (run evs (boot sessions uuid clock mode settings requested agent)).
Proof.
  apply (reachable_invariant answered_once).
  - intros a. by cbn.
  - intros w ev Hw _ H. by apply step_answered_once.
Qed.

(** X4: the identifiers never repeating, the pending map holds exactly the
    unsettled requests, each under its own token: a request stays in the map
    until a response or its timer settles it.  So the peer can answer every
    outstanding request: a response carrying its token settles it with the
    decision of the response, and the callback waiting for it gives its one
    answer. *)
Theorem unsettled_requests_stay_answerable :
  forall sessions uuid clock mode settings requested agent (evs : list event),
  (forall i j, uuid i = uuid j -> i = j) ->
  let w := run evs (boot sessions uuid clock mode settings requested agent) in
  (forall k a, pendingToolApprovals w !! k = Some a
               <-> exists ap, approvals w !! a = Some ap /\ ap_requestId ap = k
                              /\ ap_settled ap = false)
  /\ (forall a ap d, approvals w !! a = Some ap -> ap_settled ap = false ->
        let w' := step w (ApprovalResponse (JStr (ap_requestId ap)) d) in
        gate_log a (trace w') = [Settled d]
        /\ pendingToolApprovals w' !! ap_requestId ap = None
        /\ exists r, decided_log a (trace w') = [r]).
Proof.
  intros sessions uuid clock mode settings requested agent evs Hinj w.
  pose proof (reachable_gate_inv sessions uuid clock mode settings requested agent evs)
    as Hinv.
  pose proof (reachable_pending_complete sessions uuid clock mode settings requested
                agent evs Hinj) as Hpc.
  fold w in Hinv, Hpc. split.
  - intros k a. split.
    + apply (inv_pending w (proj2 Hinv)).
    + intros (ap & Ha & <- & Hs). by apply Hpc.
  - intros a ap d Ha Hs w'.
    destruct (response_settles w _ a d Hinv (Hpc a ap Ha Hs)) as (Hgone & Hset & Hlog).
    fold w' in Hgone, Hset, Hlog. split; [done|]. split; [done|].
    pose proof (reachable_answered_once sessions uuid clock mode settings requested agent
                  (evs ++ [ApprovalResponse (JStr (ap_requestId ap)) d]) a) as Hans.
    rewrite run_app in Hans. change (run [?e] ?x) with (step x e) in Hans.
    fold w in Hans. fold w' in Hans.
    destruct Hset as (ap' & -> & -> & _) in Hans. done.
Qed.

Lemma unsettled_requests_stay_answerable_witness :
  let w := run [ls_call; ls_call; TimerFires 0]
               (boot [] sample_uuid 0%Z (JStr (lit "default")) empty_policy JNull JNull) in
  pendingToolApprovals w !! lit "letta_1" = Some 1%nat.
Proof.
  refine (proj2 (proj1 (unsettled_requests_stay_answerable [] sample_uuid 0%Z
                          (JStr (lit "default")) empty_policy JNull JNull
                          [ls_call; ls_call; TimerFires 0] sample_uuid_inj)
                   (lit "letta_1") 1%nat) _).
  exists {| ap_requestId := lit "letta_1";
            ap_onCancel := Some (CancelNotice (lit "letta_1"));
            ap_settled := false; ap_timeout := true |}.
  by vm_compute.
Defined.

Lemma step_cancelled_nodup (w : World) (ev : event) :
  (forall i j, randomUUID w i = randomUUID w j -> i = j) ->
  gate_inv w -> tokens_by_position w -> announced w ->
  NoDup (cancelled_tokens (trace w)) ->
  NoDup (cancelled_tokens (trace (step w ev))).
Proof.
  intros Hinj Hw Htok [_ Hcan] Hnd.
  destruct (step_shape_of w ev Hw) as (core & decided & Hs & -> & Hd & _).
  unfold cancelled_tokens in *.
  rewrite !omap_app, (omap_decided cancelled_token _ _ Hd), !app_nil_r by done.
  inversion Hs as [| | | a0 ap0 d0 Ha0 Hs0 Hp0 | a0 ap0 Ha0 Hs0]; subst; cbn;
    rewrite ?app_nil_r; try done.
  apply NoDup_app. split; [done|]. split; [|apply NoDup_singleton].
  intros k Hk ->%list_elem_of_singleton.
  destruct (Hcan _ Hk) as (a & ap & Ha & Heq & Hset).
  assert (a = a0) as -> by by eapply (tokens_distinct w a a0).
  congruence.
Qed.

(** X5: the approval signals the peer sees agree with the requests of the
    gate.  The tokens of the approval-request signals are, in order, the
    tokens of the requests created, one signal per request; every
    cancellation signal carries the token of a request that was announced and
    has settled; and, the identifiers never repeating, no token is announced
    twice and none is cancelled twice. *)
Theorem approval_signals_match_requests :
  forall sessions uuid clock mode settings requested agent (evs : list event),
  let w := run evs (boot sessions uuid clock mode settings requested agent) in
  request_tokens (trace w) = map ap_requestId (approvals w)
  /\ (forall k, k ∈ cancelled_tokens (trace w) ->
        k ∈ request_tokens (trace w)
        /\ exists a ap, approvals w !! a = Some ap /\ ap_requestId ap = k
                        /\ ap_settled ap = true)
  /\ ((forall i j, uuid i = uuid j -> i = j) ->
      NoDup (request_tokens (trace w)) /\ NoDup (cancelled_tokens (trace w))).
Proof.
  intros sessions uuid clock mode settings requested agent evs w.
  assert (forall (inj : Prop),
            (inj -> forall i j, uuid i = uuid j -> i = j) ->
            randomUUID w = uuid /\ tokens_by_position w /\ announced w
            /\ (inj -> NoDup (cancelled_tokens (trace w)))) as H.
  { intros inj Hinj. unfold w.
    apply (reachable_invariant
             (fun w => randomUUID w = uuid /\ tokens_by_position w /\ announced w
                       /\ (inj -> NoDup (cancelled_tokens (trace w))))).
    - split; [done|]. split.
      { split; [done|]. intros a ap Ha. cbn in Ha. by rewrite lookup_nil in Ha. }
      split.
      { split; [done|]. intros k Hk. cbn in Hk. by apply elem_of_nil in Hk. }
      intros _. cbn. constructor.
    - intros w0 ev Hw Hu (_ & Ht & Ha & Hnd). split; [|split; [|split]].
      + destruct (step_shape_of w0 ev Hw) as (? & ? & _ & _ & _ & -> & _). done.
      + by apply step_tokens_by_position.
      + by apply step_announced.
      + intros Hi. apply step_cancelled_nodup; try done; [|by apply Hnd].
        rewrite Hu. by apply Hinj. }
  destruct (H False ltac:(intros [])) as (Hu & Htok & [Hreq Hcan] & _).
  split; [done|]. split.
  - intros k Hk. destruct (Hcan k Hk) as (a & ap & Ha & Heq & Hset).
    split; [|eauto]. rewrite Hreq, <- Heq.
    apply list_elem_of_In, in_map, list_elem_of_In. by eapply list_elem_of_lookup_2.
  - intros Hinj.
    destruct (H (forall i j, uuid i = uuid j -> i = j) ltac:(done)) as (_ & _ & _ & Hnd).
    split; [|by apply Hnd]. rewrite Hreq. apply tokens_nodup; [by rewrite Hu | done].
Qed.

Lemma approval_signals_match_requests_witness :
  NoDup (cancelled_tokens (trace (run [ls_call; ls_call; TimerFires 0; TimerFires 0;
                                       TimerFires 1]
                                      (boot [] sample_uuid 0%Z (JStr (lit "default"))
                                            empty_policy JNull JNull)))).
Proof.
  refine (proj2 (proj2 (proj2 (approval_signals_match_requests [] sample_uuid 0%Z
                                 (JStr (lit "default")) empty_policy JNull JNull
                                 [ls_call; ls_call; TimerFires 0; TimerFires 0;
                                  TimerFires 1])) sample_uuid_inj)).
Defined.

(** X6: the callback gives the backend one answer for every tool call that
    went to the gate, and gives it when the request settles: in every state
    the answers recorded for a request are none while it is unsettled and
    exactly one once it has settled. *)
Theorem callback_answers_once :
  forall sessions uuid clock mode settings requested agent (evs : list event),
  let w := run evs (boot sessions uuid clock mode settings requested agent) in
  forall a,
    (forall ap, approvals w !! a = Some ap -> ap_settled ap = false ->
                decided_log a (trace w) = [])
    /\ (forall ap, approvals w !! a = Some ap -> ap_settled ap = true ->
                   exists r, decided_log a (trace w) = [r])
    /\ (approvals w !! a = None -> decided_log a (trace w) = []).
Proof.
  intros sessions uuid clock mode settings requested agent evs w a.
  pose proof (reachable_answered_once sessions uuid clock mode settings requested agent
                evs a) as H.
  fold w in H. destruct (approvals w !! a) as [ap|].
  - repeat split; [intros ? [= <-] Hs | intros ? [= <-] Hs | done]; by rewrite Hs in H.
  - repeat split; done.
Qed.

Lemma callback_answers_once_witness :
  decided_log 0 (trace (run [ls_call; TimerFires 0; TimerFires 0;
                             ApprovalResponse (JStr (lit "letta_0")) (grant "Bash")]
                            (boot [] sample_uuid 0%Z (JStr (lit "default"))
                                  empty_policy JNull JNull)))
  = [Normal (Deny (JStr (lit "Permission request timed out")))].
Proof.
  destruct (proj1 (proj2 (callback_answers_once [] sample_uuid 0%Z (JStr (lit "default"))
                            empty_policy JNull JNull
                            [ls_call; TimerFires 0; TimerFires 0;
                             ApprovalResponse (JStr (lit "letta_0")) (grant "Bash")] 0%nat))
              {| ap_requestId := lit "letta_0";
                 ap_onCancel := Some (CancelNotice (lit "letta_0"));
                 ap_settled := true; ap_timeout := false |}
              ltac:(by vm_compute) eq_refl) as [r Hr].
  rewrite Hr. f_equal.
  assert (Some r = Some (Normal (Deny (JStr (lit "Permission request timed out"))))) as E;
    [|by injection E].
  change (Some r) with (head [r]). rewrite <- Hr. by vm_compute.
Defined.

(** ** The callback, case by case *)

Lemma handle_keeps_other (w : World) (ev : event) (a : nat) (ap : Approval) :
  gate_ok w -> approvals w !! a = Some ap -> ap_settled ap = false ->
  ev <> TimerFires a ->
  (forall d, ev <> ApprovalResponse (JStr (ap_requestId ap)) d) ->
  approvals (handle ev w) !! a = Some ap.
Proof.
  intros Hw Ha Hs Htimer Hresp. destruct ev as [toolName input|requestId decision|a']; cbn.
  - destruct (canUseTool_cases toolName input w) as [(r & -> & Hr)| ->].
    + by destruct r as [[d|a0]|e].
    + cbn. by apply lookup_app_l_Some.
  - unfold resolveLettaToolApproval. destruct requestId as [| | | |k| | |]; try done.
    destruct (pendingToolApprovals w !! k) as [a'|] eqn:Hk; [|done].
    destruct (inv_pending w Hw k a' Hk) as (ap' & Ha' & Hk' & Hs').
    rewrite (finalize_unsettled w a' ap' decision Ha' Hs'). cbn.
    rewrite list_lookup_insert_ne; [done|].
    intros ->. assert (ap' = ap) as -> by congruence.
    by destruct (Hresp decision); subst k.
  - unfold fire_timer. destruct (approvals w !! a') as [ap'|] eqn:Ha'; [|done].
    destruct (inv_shape w Hw a' ap' Ha') as [Ht Hc].
    destruct (ap_settled ap') eqn:Hs'.
    + by rewrite Ht.
    + pose proof (fire_timer_armed w a' ap' _ Ha' Ht Hs' Hc) as E.
      unfold fire_timer in E. rewrite Ha', Ht in E. rewrite Ht, E. cbn.
      rewrite list_lookup_insert_ne; [done|]. intros ->. by destruct Htimer.
Qed.

(** X7: a request waits for its own events.  In every state the event loop
    reaches, an unsettled request is left as it is (unsettled, its timer
    armed, nothing answered, its history empty) by every event other than the
    expiry of its own timer and a response carrying its own token: other tool
    calls, responses for other tokens and other timers do not touch it. *)
Theorem request_waits_for_its_own_events :
  forall sessions uuid clock mode settings requested agent (evs : list event)
         (ev : event) (a : nat) (ap : Approval),
  let w := run evs (boot sessions uuid clock mode settings requested agent) in
  approvals w !! a = Some ap -> ap_settled ap = false ->
  ev <> TimerFires a ->
  (forall d, ev <> ApprovalResponse (JStr (ap_requestId ap)) d) ->
  approvals (step w ev) !! a = Some ap
  /\ ap_timeout ap = true
  /\ gate_log a (trace (step w ev)) = []
  /\ decided_log a (trace (step w ev)) = [].
Proof.
  intros sessions uuid clock mode settings requested agent evs ev a ap w Ha Hs Ht Hr.
  destruct (reachable_gate_inv sessions uuid clock mode settings requested agent evs)
    as [Hj Hw].
  fold w in Hj, Hw.
  assert (approvals (step w ev) !! a = Some ap) as Ha'.
  { unfold step. destruct (run_jobs_fields (handle ev w)) as (_ & -> & _).
    by apply handle_keeps_other. }
  split; [done|]. split.
  { destruct (inv_shape w Hw a ap Ha) as [-> _]. by rewrite Hs. }
  pose proof (reachable_gate_inv sessions uuid clock mode settings requested agent
                (evs ++ [ev])) as [_ Hw'].
  pose proof (reachable_answered_once sessions uuid clock mode settings requested agent
                (evs ++ [ev]) a) as Hans.
  rewrite run_app in Hw', Hans. change (run [ev] ?x) with (step x ev) in Hw', Hans.
  fold w in Hw', Hans. split.
  - pose proof (inv_log _ Hw' a) as Hl. by rewrite Ha', Hs in Hl.
  - by rewrite Ha', Hs in Hans.
Qed.

Lemma request_waits_for_its_own_events_witness :
  let w := run [ls_call; ls_call]
               (boot [] sample_uuid 0%Z (JStr (lit "default")) empty_policy JNull JNull) in
  decided_log 0 (trace (step w (ApprovalResponse (JStr (lit "letta_1")) (grant "Bash")))) = [].
Proof.
  refine (proj2 (proj2 (proj2
            (request_waits_for_its_own_events [] sample_uuid 0%Z (JStr (lit "default"))
               empty_policy JNull JNull [ls_call; ls_call]
               (ApprovalResponse (JStr (lit "letta_1")) (grant "Bash")) 0%nat
               {| ap_requestId := lit "letta_0";
                  ap_onCancel := Some (CancelNotice (lit "letta_0"));
                  ap_settled := false; ap_timeout := true |}
               _ _ _ _)))).
  - by vm_compute.
  - done.
  - done.
  - intros d H. vm_compute in H. congruence.
Defined.

(** X8: a tool call that no policy entry matches goes to the peer.  Outside
    the bypass mode and with the skip-all flag off, when every disallowed and
    every allowed entry fails to match, the callback emits one
    approval-request signal carrying a fresh token, the tool name, the input
    and the session identity, registers the request under that token with its
    timer armed, and answers nothing yet; the policy is untouched. *)
Theorem unmatched_call_asks_once :
  forall (toolName input : value) (w : World),
  permissionMode w <> JStr (lit "bypassPermissions") ->
  skipPermissions (toolsSettings w) = false ->
  (forall e, e ∈ disallowedTools (toolsSettings w) ->
             matchesToolPermission e toolName input = Normal false) ->
  (forall e, e ∈ allowedTools (toolsSettings w) ->
             matchesToolPermission e toolName input = Normal false) ->
  let token := lit "letta_" ++ randomUUID w (drawn w) in
  let w' := handle (ToolCall toolName input) w in
  trace w' = trace w ++ [Emit (PermissionRequest token toolName input
                                 (js_or (agentId w) (requestedAgentId w)))]
  /\ pendingToolApprovals w' !! token = Some (length (approvals w))
  /\ approvals w' !! length (approvals w)
     = Some {| ap_requestId := token; ap_onCancel := Some (CancelNotice token);
               ap_settled := false; ap_timeout := true |}
  /\ jobs w' = jobs w
  /\ toolsSettings w' = toolsSettings w.
Proof.
  intros toolName input w Hm Hs Hd Ha token w'.
  assert (canUseTool toolName input w
          = (Normal (inr (length (approvals w))), asking toolName input w)) as E.
  { unfold canUseTool. rewrite (not_bypass w Hm), Hs. cbn [orb].
    by rewrite (array_some_false _ _ Hd), (array_some_false _ _ Ha). }
  unfold w'. cbn. rewrite E. unfold asking. cbn.
  split; [done|]. split; [apply lookup_insert_eq|]. split; [|done].
  by rewrite list_lookup_middle.
Qed.

Lemma unmatched_call_asks_once_witness :
  signals (trace (handle (ToolCall (JStr (lit "Edit")) (JObj 1 []))
                    (boot [] sample_uuid 0%Z (JStr (lit "default"))
                          {| allowedTools := [JStr (lit "Bash")];
                             disallowedTools := [JStr (lit "Bash(rm:*)")];
                             skipPermissions := false |} JNull JNull)))
  = [PermissionRequest (lit "letta_0") (JStr (lit "Edit")) (JObj 1 []) JNull].
Proof.
  assert (forall e, e ∈ [JStr (lit "Bash(rm:*)")] ->
            matchesToolPermission e (JStr (lit "Edit")) (JObj 1 []) = Normal false) as Hd.
  { intros e ->%list_elem_of_singleton. by vm_compute. }
  assert (forall e, e ∈ [JStr (lit "Bash")] ->
            matchesToolPermission e (JStr (lit "Edit")) (JObj 1 []) = Normal false) as Ha.
  { intros e ->%list_elem_of_singleton. by vm_compute. }
  rewrite (proj1 (unmatched_call_asks_once (JStr (lit "Edit")) (JObj 1 [])
                    (boot [] sample_uuid 0%Z (JStr (lit "default"))
                          {| allowedTools := [JStr (lit "Bash")];
                             disallowedTools := [JStr (lit "Bash(rm:*)")];
                             skipPermissions := false |} JNull JNull)
                    ltac:(done) eq_refl Hd Ha)).
  reflexivity.
Defined.

(** X9: an allowed entry lets a call through without asking.  When no
    disallowed entry matches and some allowed entry does (no allowed entry
    making the matcher raise), the callback returns allow with no updated
    input at once and leaves the world as it is: no signal, no request. *)
Theorem allowed_entry_allows_silently :
  forall (toolName input : value) (w : World),
  (forall e, e ∈ disallowedTools (toolsSettings w) ->
             matchesToolPermission e toolName input = Normal false) ->
  (forall e, e ∈ allowedTools (toolsSettings w) ->
             exists b, matchesToolPermission e toolName input = Normal b) ->
  (exists e, e ∈ allowedTools (toolsSettings w)
             /\ matchesToolPermission e toolName input = Normal true) ->
  canUseTool toolName input w = (Normal (inl (Allow JNull)), w)
  /\ trace (handle (ToolCall toolName input) w)
     = trace w ++ [Answered (Normal (Allow JNull))].
Proof.
  intros toolName input w Hd Htot Hex.
  assert (canUseTool toolName input w = (Normal (inl (Allow JNull)), w)) as E.
  { unfold canUseTool. destruct (_ || _); [done|].
    by rewrite (array_some_false _ _ Hd), (array_some_true _ _ Htot Hex). }
  split; [done|]. cbn. by rewrite E.
Qed.

Lemma allowed_entry_allows_silently_witness :
  canUseTool (JStr (lit "Bash")) (JStr (lit "ls")) overridden_world
  = (Normal (inl (Allow JNull)), overridden_world).
Proof.
  apply (allowed_entry_allows_silently (JStr (lit "Bash")) (JStr (lit "ls"))
           overridden_world).
  - intros e He. cbn in He.
    apply elem_of_cons in He as [->|He]; [by vm_compute|].
    apply list_elem_of_singleton in He as ->. by vm_compute.
  - intros e He. cbn in He. apply list_elem_of_singleton in He as ->. by exists true.
  - exists (JStr (lit "Bash")). split; [by left | by vm_compute].
Defined.

Lemma canUseTool_resume_deny (w : World) (decision allow m : value) :
  truthy decision = true ->
  get_prop decision "allow" = Normal allow -> truthy allow = false ->
  get_prop decision "message" = Normal m ->
  canUseTool_resume decision w
  = (Normal (Deny (nullish_or m (JStr (lit "User denied tool use")))), w).
Proof.
  intros Hd Ha Hf Hm. unfold canUseTool_resume. by rewrite Hd, Ha, Hf, Hm.
Qed.

Lemma canUseTool_resume_nothing (w : World) (decision : value) :
  truthy decision = false ->
  canUseTool_resume decision w
  = (Normal (Deny (JStr (lit "Permission request timed out"))), w).
Proof. intros Hd. unfold canUseTool_resume. by rewrite Hd. Qed.

(** A response for a pending token: the promise is resolved and the callback
    continues with the decision. *)
Lemma response_step (w : World) (k : list N) (a : nat) (decision : value)
    (r : completion ToolDecision) (f : ToolsSettings -> ToolsSettings) :
  gate_inv w -> pendingToolApprovals w !! k = Some a ->
  (forall w0, canUseTool_resume decision w0
              = (r, set_toolsSettings (f (toolsSettings w0)) w0)) ->
  trace (step w (ApprovalResponse (JStr k) decision))
  = trace w ++ [Resolved a decision; Decided a r]
  /\ toolsSettings (step w (ApprovalResponse (JStr k) decision)) = f (toolsSettings w).
Proof.
  intros [Hj Hw] Hk Hres.
  destruct (inv_pending w Hw k a Hk) as (ap & Ha & _ & Hs).
  unfold step. cbn. rewrite Hk, (finalize_unsettled w a ap decision Ha Hs).
  unfold run_jobs. cbn. rewrite Hj. cbn. unfold run_job. cbn.
  rewrite Hres. cbn. by rewrite <- app_assoc.
Qed.

Lemma set_toolsSettings_same (w : World) : set_toolsSettings (toolsSettings w) w = w.
Proof. by destruct w. Qed.

(** X10: a response that does not allow makes the callback deny with the
    message of the response, or with [User denied tool use] when it has none,
    and never changes the policy, whatever else the response carries (a
    remember entry is ignored); nothing is emitted. *)
Theorem denied_response_denies :
  forall sessions uuid clock mode settings requested agent (evs : list event)
         (k : list N) (a : nat) (decision allow m : value),
  let w := run evs (boot sessions uuid clock mode settings requested agent) in
  pendingToolApprovals w !! k = Some a ->
  truthy decision = true ->
  get_prop decision "allow" = Normal allow -> truthy allow = false ->
  get_prop decision "message" = Normal m ->
  let w' := step w (ApprovalResponse (JStr k) decision) in
  trace w' = trace w ++ [Resolved a decision;
                         Decided a (Normal (Deny (nullish_or m
                                                    (JStr (lit "User denied tool use")))))]
  /\ toolsSettings w' = toolsSettings w.
Proof.
  intros sessions uuid clock mode settings requested agent evs k a decision allow m w
         Hk Hd Ha Hf Hm w'.
  apply (response_step w k a decision _ (fun t => t)); [|done|].
  - apply reachable_gate_inv.
  - intros w0. rewrite set_toolsSettings_same. by apply (canUseTool_resume_deny w0 _ allow).
Qed.

Lemma denied_response_denies_witness :
  let w := run [ls_call]
               (boot [] sample_uuid 0%Z (JStr (lit "default")) no_rm_policy JNull JNull) in
  toolsSettings (step w (ApprovalResponse (JStr (lit "letta_0"))
                           (JObj 2 [(lit "allow", JBool false);
                                    (lit "rememberEntry", JStr (lit "Bash(rm:*)"))])))
  = toolsSettings w.
Proof.
  refine (proj2 (denied_response_denies [] sample_uuid 0%Z (JStr (lit "default"))
                   no_rm_policy JNull JNull [ls_call] (lit "letta_0") 0%nat
                   (JObj 2 [(lit "allow", JBool false);
                            (lit "rememberEntry", JStr (lit "Bash(rm:*)"))])
                   (JBool false) JUndefined _ _ _ _ _)); by vm_compute.
Defined.

(** X11: a response without a decision (null, undefined, false, zero or the
    empty string in place of the decision object) is taken for a timeout by
    the callback, which denies with [Permission request timed out]; but the
    peer gets no cancellation signal for it: nothing is emitted, [onCancel] is
    not called, and the policy is unchanged. *)
Theorem empty_response_counts_as_timeout :
  forall sessions uuid clock mode settings requested agent (evs : list event)
         (k : list N) (a : nat) (decision : value),
  let w := run evs (boot sessions uuid clock mode settings requested agent) in
  pendingToolApprovals w !! k = Some a ->
  truthy decision = false ->
  let w' := step w (ApprovalResponse (JStr k) decision) in
  trace w' = trace w ++ [Resolved a decision;
                         Decided a (Normal (Deny (JStr (lit "Permission request timed out"))))]
  /\ signals (trace w') = signals (trace w)
  /\ gate_log a (trace w') = [Settled decision]
  /\ toolsSettings w' = toolsSettings w.
Proof.
  intros sessions uuid clock mode settings requested agent evs k a decision w Hk Hd w'.
  pose proof (reachable_gate_inv sessions uuid clock mode settings requested agent evs)
    as Hinv.
  fold w in Hinv.
  destruct (response_step w k a decision
              (Normal (Deny (JStr (lit "Permission request timed out")))) (fun t => t)
              Hinv Hk) as [Ht Hp].
  { intros w0. rewrite set_toolsSettings_same. by apply canUseTool_resume_nothing. }
  fold w' in Ht, Hp. split; [done|]. split; [|split; [|done]].
  - rewrite Ht. unfold signals. rewrite omap_app. cbn. apply app_nil_r.
  - by destruct (response_settles w k a decision Hinv Hk) as (_ & _ & Hl).
Qed.

Lemma empty_response_counts_as_timeout_witness :
  let w := run [ls_call]
               (boot [] sample_uuid 0%Z (JStr (lit "default")) empty_policy JNull JNull) in
  signals (trace (step w (ApprovalResponse (JStr (lit "letta_0")) JNull)))
  = signals (trace w).
Proof.
  refine (proj1 (proj2 (empty_response_counts_as_timeout [] sample_uuid 0%Z
                          (JStr (lit "default")) empty_policy JNull JNull [ls_call]
                          (lit "letta_0") 0%nat JNull _ _))); by vm_compute.
Defined.

(** X12: while a dispatch runs its policy only loosens.  Whatever events
    occur, the permission mode and the skip-all flag stay as they were, every
    allowed entry stays allowed, every entry added to the allowed list is a
    string, and no entry is ever added to the disallowed list. *)
Theorem policy_only_loosens :
  forall (evs : list event) (w : World),
  let w' := run evs w in
  permissionMode w' = permissionMode w
  /\ skipPermissions (toolsSettings w') = skipPermissions (toolsSettings w)
  /\ (forall e, e ∈ allowedTools (toolsSettings w) -> e ∈ allowedTools (toolsSettings w'))
  /\ (forall e, e ∈ allowedTools (toolsSettings w') ->
                e ∈ allowedTools (toolsSettings w) \/ exists s, e = JStr s)
  /\ (forall e, e ∈ disallowedTools (toolsSettings w') ->
                e ∈ disallowedTools (toolsSettings w)).
Proof.
  intros evs w w'. destruct (run_policy evs w) as [(Ha & Hb & Hc & Hd) Hm].
  by repeat split.
Qed.

(** ** The registry as a map *)

Lemma strict_eq_refl (v : value) : strict_eq v v = true.
Proof.
  destruct v; cbn; try done.
  - by destruct b.
  - apply Z.eqb_refl.
  - apply str_eqb_refl.
  - apply Nat.eqb_refl.
  - apply Nat.eqb_refl.
  - apply Nat.eqb_refl.
Qed.

(** Two keys that are the same key compare alike with every key. *)
Lemma strict_eq_same (a b c : value) :
  strict_eq a b = true ->
  strict_eq a c = strict_eq b c /\ strict_eq c a = strict_eq c b.
Proof.
  destruct a, b; cbn; try discriminate; intros H.
  - done.
  - done.
  - apply Bool.eqb_prop in H as ->. done.
  - apply Z.eqb_eq in H as ->. done.
  - apply str_eqb_eq in H as ->. done.
  - apply Nat.eqb_eq in H as ->. by destruct c.
  - apply Nat.eqb_eq in H as ->. by destruct c.
  - apply Nat.eqb_eq in H as ->. by destruct c.
Qed.

Lemma strict_eq_sym (a b : value) : strict_eq a b = strict_eq b a.
Proof.
  destruct (strict_eq a b) eqn:E.
  - destruct (strict_eq_same a b a E) as [H _]. by rewrite <- H, strict_eq_refl.
  - destruct (strict_eq b a) eqn:E'; [|done].
    destruct (strict_eq_same b a b E') as [H _]. by rewrite <- H, strict_eq_refl in E.
Qed.

Section Registry.
Context {V : Type}.
Implicit Types (m : list (value * V)) (k : value) (v : V).

Lemma map_get_has k m : map_get k m = None <-> map_has k m = false.
Proof.
  unfold map_get, map_has. induction m as [|[k' v'] m IH]; [done|].
  cbn. destruct (strict_eq k' k); [done | exact IH].
Qed.

Lemma map_has_same k k' m : strict_eq k k' = true -> map_has k m = map_has k' m.
Proof.
  intros H. unfold map_has. induction m as [|[k0 v0] m IH]; [done|].
  cbn. rewrite IH. by destruct (strict_eq_same k k' k0 H) as [_ ->].
Qed.

Lemma map_has_set k k' v m :
  map_has k' (map_set k v m) = strict_eq k k' || map_has k' m.
Proof.
  unfold map_set. destruct (map_has k m) eqn:Hk.
  - assert (map_has k' (map (fun kv => if strict_eq (fst kv) k then (fst kv, v) else kv) m)
            = map_has k' m) as ->.
    { unfold map_has. clear Hk. induction m as [|[k0 v0] m IH]; [done|].
      cbn. rewrite IH. by destruct (strict_eq k0 k). }
    destruct (strict_eq k k') eqn:E; [|done].
    by rewrite <- (map_has_same k k' m E), Hk.
  - unfold map_has. rewrite existsb_app. cbn. by rewrite orb_false_r, orb_comm.
Qed.

Lemma map_get_set k v m : map_get k (map_set k v m) = Some v.
Proof.
  unfold map_set. destruct (map_has k m) eqn:Hk.
  - unfold map_get, map_has in *. induction m as [|[k0 v0] m IH]; [done|].
    cbn in *. destruct (strict_eq k0 k) eqn:E; cbn; rewrite E; [done|]. by apply IH.
  - unfold map_get, map_has in *. induction m as [|[k0 v0] m IH].
    + cbn. by rewrite strict_eq_refl.
    + cbn in *. apply orb_false_iff in Hk as [-> Hk]. by apply IH.
Qed.

Lemma map_has_delete k k' m :
  map_has k' (map_delete k m) = negb (strict_eq k k') && map_has k' m.
Proof.
  unfold map_has, map_delete. induction m as [|[k0 v0] m IH]; [by rewrite andb_false_r|].
  cbn. destruct (strict_eq k0 k) eqn:E; cbn; rewrite IH.
  - destruct (strict_eq_same k0 k k' E) as [-> _].
    by destruct (strict_eq k k').
  - destruct (strict_eq k0 k') eqn:E'; [|done]. cbn.
    destruct (strict_eq_same k0 k' k E') as [H _]. rewrite E in H.
    by rewrite (strict_eq_sym k k'), <- H.
Qed.

Lemma distinct_keys_set k v m : distinct_keys m = true -> distinct_keys (map_set k v m) = true.
Proof.
  intros Hd. unfold map_set. destruct (map_has k m) eqn:Hk.
  - clear Hk. induction m as [|[k0 v0] m IH]; [done|].
    cbn in *. apply andb_true_iff in Hd as [Hn Hd]. rewrite (IH Hd), andb_true_r.
    assert (forall k1, map_has k1 (map (fun kv => if strict_eq (fst kv) k
                                                  then (fst kv, v) else kv) m)
                       = map_has k1 m) as Hsame.
    { intros k1. unfold map_has. clear. induction m as [|[k2 v2] m IH]; [done|].
      cbn. rewrite IH. by destruct (strict_eq k2 k). }
    destruct (strict_eq k0 k); cbn; by rewrite Hsame.
  - induction m as [|[k0 v0] m IH]; [done|].
    cbn in *. apply andb_true_iff in Hd as [Hn Hd].
    apply orb_false_iff in Hk as [Hk0 Hk].
    rewrite (IH Hd Hk), andb_true_r. unfold map_has in *.
    rewrite existsb_app. cbn. rewrite (strict_eq_sym k k0), Hk0.
    by rewrite orb_false_r.
Qed.

Lemma map_delete_cons k k0 v0 m :
  map_delete k ((k0, v0) :: m)
  = if strict_eq k0 k then map_delete k m else (k0, v0) :: map_delete k m.
Proof. unfold map_delete. cbn. by destruct (strict_eq k0 k). Qed.

Lemma distinct_keys_delete k m :
  distinct_keys m = true -> distinct_keys (map_delete k m) = true.
Proof.
  induction m as [|[k0 v0] m IH]; [done|].
  rewrite map_delete_cons. cbn [distinct_keys fst].
  intros [Hn Hd]%andb_true_iff. destruct (strict_eq k0 k); [by apply IH|].
  cbn [distinct_keys fst]. rewrite (IH Hd), andb_true_r, map_has_delete.
  apply negb_true_iff in Hn. by rewrite Hn, andb_false_r.
Qed.

Lemma distinct_keys_NoDup m : distinct_keys m = true -> NoDup (map fst m).
Proof.
  induction m as [|[k0 v0] m IH]; [constructor|].
  cbn. intros [Hn Hd]%andb_true_iff. constructor; [|by apply IH].
  intros Hin. apply negb_true_iff in Hn. unfold map_has in Hn.
  apply list_elem_of_In, in_map_iff in Hin as ([k1 v1] & Hk & Hin). cbn in Hk. subst k1.
  assert (existsb (fun kv => strict_eq (fst kv) k0) m = true) as E; [|congruence].
  apply existsb_exists. exists (k0, v1). split; [done | apply strict_eq_refl].
Qed.
End Registry.

(** ** The stream loop in general *)

(** The loop body raises, or goes on without a signal, or emits one signal
    tagged with the session identity: a response, after which the loop goes
    on, or the completion, after which it ends. *)
Lemma consume_event_cases (msg : value) (w : World) :
  (exists e, consume_event msg w = Throw e)
  \/ consume_event msg w = Normal (w, false)
  \/ (exists p, consume_event msg w = Normal (emit p w, false)
                /\ is_response (Emit p) = true /\ payload_session p = agentId w)
  \/ (exists p, consume_event msg w = Normal (emit p w, true)
                /\ is_completion p = true /\ payload_session p = agentId w).
Proof.
  unfold consume_event. destruct (get_prop msg "type") as [ty|e] eqn:H; [|left; eauto].
  cbn [mbind completion_bind].
  rewrite !(get_prop_again msg _ "type" _ H). cbn [mbind completion_bind].
  destruct (is_type ty "stream_event"); [right; right; left; by eexists|].
  destruct (is_type ty "assistant"); [right; right; left; by eexists|].
  destruct (is_type ty "tool_call"); [right; right; left; by eexists|].
  destruct (is_type ty "tool_result"); [right; right; left; by eexists|].
  destruct (is_type ty "result"); [right; right; right; by eexists|].
  right. by left.
Qed.

(** The loop emits responses, at most one per event, then possibly the
    completion, after which it has ended normally; it touches nothing but the
    trace. *)
Lemma consume_general (items : list StreamItem) (w : World) :
  exists resp fin,
    trace (fst (consume items w)) = trace w ++ resp ++ fin
    /\ Forall (fun o => is_response o = true
                        /\ exists p, o = Emit p /\ payload_session p = agentId w) resp
    /\ (fin = []
        \/ exists p, fin = [Emit p] /\ is_completion p = true
                     /\ payload_session p = agentId w
                     /\ snd (consume items w) = Normal tt)
    /\ (length resp <= length items)%nat
    /\ agentId (fst (consume items w)) = agentId w
    /\ activeSessions (fst (consume items w)) = activeSessions w
    /\ pendingToolApprovals (fst (consume items w)) = pendingToolApprovals w.
Proof.
  revert w. induction items as [|[msg|err] items IH]; intros w; cbn [consume].
  - exists [], []. cbn. rewrite app_nil_r. repeat split; auto.
  - destruct (consume_event_cases msg w)
      as [[e ->]|[->|[(p & -> & Hr & Hp)|(p & -> & Hc & Hp)]]].
    + exists [], []. cbn. rewrite app_nil_r. repeat split; auto. lia.
    + destruct (IH w) as (resp & fin & Ht & Hq & Hf & Hl & Ha & Hs & Hpe).
      exists resp, fin. repeat split; try done. cbn. lia.
    + destruct (IH (emit p w)) as (resp & fin & Ht & Hq & Hf & Hl & Ha & Hs & Hpe).
      exists (Emit p :: resp), fin. cbn in Ht, Hq, Hf, Ha, Hs, Hpe.
      rewrite Ht, <- app_assoc. repeat split; try done.
      * constructor; [eauto | done].
      * cbn. lia.
    + exists [], [Emit p]. cbn. repeat split; [constructor | right; eauto | lia].
  - exists [], []. cbn. rewrite app_nil_r. repeat split; auto. lia.
Qed.

(** ** A dispatch whose session initializes *)

(** After a successful initialization the session is registered, bound and
    announced, and the rest of the dispatch is the streaming block with its
    failures turned into an error signal. *)
Lemma queryLettaSDK_initialized (command options : value) (env : Env) (w : World)
    (handle : nat) (init a : value) :
  options <> JNull ->
  createSession_result env = Normal handle ->
  initialize_result env = Normal init ->
  get_prop init "agentId" = Normal a -> truthy a = true ->
  exists w2,
    queryLettaSDK command options env w
    = match stream_session command env w2 with
      | (w3, Throw err) => (emit (LettaError (error_text err) (agentId w3)) w3, Normal tt)
      | (w3, Normal _) => (w3, Normal tt)
      end
    /\ agentId w2 = a
    /\ activeSessions w2
       = map_set a {| session := handle; startTime := now w |} (activeSessions w)
    /\ pendingToolApprovals w2 = pendingToolApprovals w
    /\ trace w2 = trace w ++ (if ws_setSessionId env then [BindSession a] else [])
                         ++ [Emit (SessionCreated a a (field init "conversationId"))].
Proof.
  intros Ho Hc Hi Ha Hid. unfold queryLettaSDK.
  destruct (read_options_total options env Ho) as (mode & settings & requested & -> & _).
  rewrite Hc. unfold initialize_session. rewrite Hi. cbn [mbind completion_bind].
  rewrite Ha. cbn [mbind completion_bind]. rewrite Hid. cbn [negb].
  rewrite (get_prop_again init _ "agentId" _ Ha).
  eexists. split; [reflexivity|].
  destruct (ws_setSessionId env); cbn; by rewrite <- ?app_assoc.
Qed.

(** The streaming block dispatches the prompt at most once, then runs the
    loop. *)
Lemma stream_session_general (command : value) (env : Env) (w : World) :
  exists sent resp fin,
    trace (fst (stream_session command env w)) = trace w ++ sent ++ resp ++ fin
    /\ (sent = [] \/ exists text, sent = [Prompt text])
    /\ Forall (fun o => is_response o = true
                        /\ exists p, o = Emit p /\ payload_session p = agentId w) resp
    /\ (fin = []
        \/ exists p, fin = [Emit p] /\ is_completion p = true
                     /\ payload_session p = agentId w
                     /\ snd (stream_session command env w) = Normal tt)
    /\ (length resp <= length (stream_items env))%nat
    /\ agentId (fst (stream_session command env w)) = agentId w
    /\ activeSessions (fst (stream_session command env w)) = activeSessions w
    /\ pendingToolApprovals (fst (stream_session command env w)) = pendingToolApprovals w.
Proof.
  unfold stream_session. destruct (prompt_of command) as [prompt|e].
  - destruct (truthy (JStr prompt)).
    + destruct (send_result env) as [[]|e].
      * destruct (consume_general (stream_items env) (observe (Prompt prompt) w))
          as (resp & fin & Ht & H).
        exists [Prompt prompt], resp, fin. cbn in Ht, H. rewrite Ht, <- app_assoc.
        split; [done|]. split; [eauto | done].
      * exists [Prompt prompt], [], []. cbn. repeat split; eauto. lia.
    + destruct (consume_general (stream_items env) w) as (resp & fin & Ht & H).
      exists [], resp, fin. split; [done|]. split; [by left | done].
  - exists [], [], []. cbn. rewrite app_nil_r. repeat split; auto. lia.
Qed.

Lemma stream_session_started (command : value) (env : Env) (w : World) (prompt : list N) :
  prompt_of command = Normal prompt ->
  prompt = [] \/ send_result env = Normal tt ->
  stream_session command env w
  = consume (stream_items env)
            (if truthy (JStr prompt) then observe (Prompt prompt) w else w).
Proof.
  intros Hp Hs. unfold stream_session. rewrite Hp.
  destruct (truthy (JStr prompt)) eqn:E; [|done].
  by destruct Hs as [-> | ->].
Qed.

Lemma signals_app (t1 t2 : list Obs) : signals (t1 ++ t2) = signals t1 ++ signals t2.
Proof. apply omap_app. Qed.

Lemma responses_tagged (a : value) (resp : list Obs) :
  Forall (fun o => is_response o = true
                   /\ exists p, o = Emit p /\ payload_session p = a) resp ->
  Forall (fun o => is_terminal_signal o = false) resp
  /\ Forall (fun p => payload_session p = a) (signals resp).
Proof.
  induction 1 as [|o resp (Hr & p & -> & Hp) _ [IH1 IH2]]; [by split|].
  split; constructor; try done. by apply response_not_terminal.
Qed.

(** X13: a dispatch whose session initializes is always fulfilled, whatever
    the command and the stream do.  All it emits carries the identity the
    backend assigned; it emits at most one terminal signal (the completion or
    an error), and that is the last thing it does; and it emits at most one
    response per stream event. *)
Theorem initialized_dispatch_ends_once :
  forall (command options : value) (env : Env) (w : World) (handle : nat)
         (init a : value),
  options <> JNull ->
  createSession_result env = Normal handle ->
  initialize_result env = Normal init ->
  get_prop init "agentId" = Normal a -> truthy a = true ->
  let w' := fst (queryLettaSDK command options env w) in
  snd (queryLettaSDK command options env w) = Normal tt
  /\ exists before last,
       trace w' = trace w ++ before ++ last
       /\ Forall (fun o => is_terminal_signal o = false) before
       /\ (last = [] \/ exists p, last = [Emit p] /\ is_terminal_signal (Emit p) = true)
       /\ Forall (fun p => payload_session p = a) (signals (before ++ last))
       /\ (length (List.filter is_response before) <= length (stream_items env))%nat.
Proof.
  intros command options env w handle init a Ho Hc Hi Ha Hid. cbn zeta.
  destruct (queryLettaSDK_initialized command options env w handle init a Ho Hc Hi Ha Hid)
    as (w2 & -> & Ha2 & _ & _ & Ht2).
  destruct (stream_session_general command env w2)
    as (sent & resp & fin & Ht & Hsent & Hresp & Hfin & Hlen & Ha3 & _).
  rewrite Ha2 in Hresp, Hfin, Ha3.
  destruct (responses_tagged a resp Hresp) as [Hq Htag].
  set (opening := (if ws_setSessionId env then [BindSession a] else [])
                    ++ [Emit (SessionCreated a a (field init "conversationId"))]).
  assert (Forall (fun o => is_terminal_signal o = false) (opening ++ sent ++ resp)
          /\ Forall (fun p => payload_session p = a) (signals (opening ++ sent ++ resp))
          /\ (length (List.filter is_response (opening ++ sent ++ resp))
              <= length (stream_items env))%nat) as (Hb1 & Hb2 & Hb3).
  { assert (Forall (fun o => is_terminal_signal o = false) (opening ++ sent)
            /\ signals (opening ++ sent) = [SessionCreated a a (field init "conversationId")]
            /\ List.filter is_response (opening ++ sent) = []) as (H1 & H2 & H3).
    { unfold opening. destruct (ws_setSessionId env), Hsent as [->|[text ->]]; cbn;
        repeat split; by repeat constructor. }
    rewrite !app_assoc, signals_app, List.filter_app, H2, H3. split; [|split].
    - by apply Forall_app.
    - constructor; [done | exact Htag].
    - cbn. etrans; [apply List.filter_length_le | done]. }
  assert (forall fin', trace w ++ (opening ++ sent ++ resp) ++ fin'
                       = (trace w ++ opening) ++ sent ++ resp ++ fin') as Hassoc.
  { intros fin'. by rewrite <- !app_assoc. }
  fold opening in Ht2. rewrite <- Ht2 in Hassoc.
  destruct (stream_session command env w2) as [w3 r]. cbn [fst snd] in *.
  destruct r as [[]|err]; cbn [fst snd].
  - split; [done|]. exists (opening ++ sent ++ resp), fin.
    rewrite Hassoc. split; [done|]. split; [done|].
    destruct Hfin as [->|(p & -> & Hcomp & Hp & _)].
    + rewrite app_nil_r. repeat split; auto.
    + split; [right; exists p; split; [done|]; cbn; by rewrite Hcomp|].
      split; [|done]. rewrite signals_app. apply Forall_app. split; [done|].
      by repeat constructor.
  - split; [done|].
    assert (fin = []) as ->.
    { destruct Hfin as [->|(p & -> & _ & _ & Hn)]; [done | discriminate Hn]. }
    exists (opening ++ sent ++ resp), [Emit (LettaError (error_text err) (agentId w3))].
    split.
    { cbn [trace emit observe]. rewrite Hassoc, Ht. by rewrite !app_nil_r, <- !app_assoc. }
    split; [done|]. split; [right; by eexists|].
    split; [|done]. rewrite signals_app. apply Forall_app. split; [done|].
    rewrite Ha3. by repeat constructor.
Qed.

Lemma initialized_dispatch_ends_once_witness :
  snd (queryLettaSDK (JNum 7) JUndefined finishing_env sample_world) = Normal tt.
Proof.
  refine (proj1 (initialized_dispatch_ends_once (JNum 7) JUndefined finishing_env
                   sample_world 1%nat
                   (JObj 4 [(lit "agentId", JStr (lit "agent-1"));
                            (lit "conversationId", JStr (lit "conv-1"))])
                   (JStr (lit "agent-1")) _ _ _ _ _)); by vm_compute.
Defined.

(** ** The registry after a dispatch *)

Lemma queryLettaSDK_registry (command options : value) (env : Env) (w : World)
    (handle : nat) (init a : value) :
  options <> JNull ->
  createSession_result env = Normal handle ->
  initialize_result env = Normal init ->
  get_prop init "agentId" = Normal a -> truthy a = true ->
  activeSessions (fst (queryLettaSDK command options env w))
  = map_set a {| session := handle; startTime := now w |} (activeSessions w)
  /\ pendingToolApprovals (fst (queryLettaSDK command options env w))
     = pendingToolApprovals w.
Proof.
  intros Ho Hc Hi Ha Hid.
  destruct (queryLettaSDK_initialized command options env w handle init a Ho Hc Hi Ha Hid)
    as (w2 & -> & _ & Hs & Hp & _).
  destruct (stream_session_general command env w2)
    as (sent & resp & fin & _ & _ & _ & _ & _ & _ & Hs3 & Hp3).
  destruct (stream_session command env w2) as [w3 r]. cbn [fst snd] in *.
  destruct r as [[]|err]; cbn; by rewrite Hs3, Hp3.
Qed.

Lemma map_keys_set {V} (k : value) (v : V) (m : list (value * V)) :
  map fst (map_set k v m) = if map_has k m then map fst m else map fst m ++ [k].
Proof.
  unfold map_set. destruct (map_has k m).
  - induction m as [|[k0 v0] m IH]; [done|]. cbn. rewrite IH. by destruct (strict_eq k0 k).
  - by rewrite map_app.
Qed.

(** X14: once the backend has assigned an identity, the dispatch leaves the
    session registered under it, whatever the stream does afterwards, failures
    included: the identity is active, its entry is the new session with the
    time of registration, every other identity is active exactly if it was
    before, an identity that was already listed keeps its place in the list
    and a new one is appended, and the pending approvals are as before. *)
Theorem dispatch_registers_session :
  forall (command options : value) (env : Env) (w : World) (handle : nat)
         (init a : value),
  options <> JNull ->
  createSession_result env = Normal handle ->
  initialize_result env = Normal init ->
  get_prop init "agentId" = Normal a -> truthy a = true ->
  let w' := fst (queryLettaSDK command options env w) in
  isLettaSDKSessionActive a w' = true
  /\ map_get a (activeSessions w') = Some {| session := handle; startTime := now w |}
  /\ (forall id, strict_eq a id = false ->
                 isLettaSDKSessionActive id w' = isLettaSDKSessionActive id w)
  /\ getActiveLettaSDKSessions w'
     = (if isLettaSDKSessionActive a w then getActiveLettaSDKSessions w
        else getActiveLettaSDKSessions w ++ [a])
  /\ pendingToolApprovals w' = pendingToolApprovals w.
Proof.
  intros command options env w handle init a Ho Hc Hi Ha Hid. cbn zeta.
  destruct (queryLettaSDK_registry command options env w handle init a Ho Hc Hi Ha Hid)
    as [Hs Hp].
  unfold isLettaSDKSessionActive, getActiveLettaSDKSessions. rewrite Hs.
  split; [by rewrite map_has_set, strict_eq_refl|].
  split; [apply map_get_set|].
  split; [intros id Hid'; by rewrite map_has_set, Hid'|].
  split; [apply map_keys_set | exact Hp].
Qed.

Lemma dispatch_registers_session_witness :
  isLettaSDKSessionActive (JStr (lit "agent-1"))
    (fst (queryLettaSDK (JStr (lit "go on")) JUndefined raising_env busy_world)) = true
  /\ getActiveLettaSDKSessions
       (fst (queryLettaSDK (JStr (lit "go on")) JUndefined raising_env busy_world))
     = [JStr (lit "agent-1"); JStr (lit "agent-2")].
Proof.
  assert (JUndefined <> JNull) as Ho by discriminate.
  destruct (dispatch_registers_session (JStr (lit "go on")) JUndefined raising_env
              busy_world 1%nat
              (JObj 4 [(lit "agentId", JStr (lit "agent-1"));
                       (lit "conversationId", JStr (lit "conv-1"))])
              (JStr (lit "agent-1")) Ho eq_refl eq_refl eq_refl eq_refl)
    as (H1 & _ & _ & H4 & _).
  split; [exact H1 | exact H4].
Defined.

(** X15: what goes wrong before the session is initialized is not reported to
    the client.  With [null] for the options, or when the session cannot be
    created, the dispatch is rejected and the module has done nothing: no
    signal, no session registered. *)
Theorem failure_before_initialize_rejects :
  forall (command options : value) (env : Env) (w : World),
  options = JNull \/ (exists e, createSession_result env = Throw e) ->
  exists e, queryLettaSDK command options env w = (w, Throw e).
Proof.
  intros command options env w [-> | [e He]].
  - by eexists.
  - unfold queryLettaSDK. rewrite He.
    destruct (read_options options env) as [[[mode settings] requested]|e']; by eexists.
Qed.

Lemma failure_before_initialize_rejects_witness :
  exists e, queryLettaSDK (JStr (lit "hello")) JUndefined unreachable_env sample_world
            = (sample_world, Throw e).
Proof.
  apply (failure_before_initialize_rejects (JStr (lit "hello")) JUndefined
           unreachable_env sample_world).
  right. by eexists.
Defined.

(** ** How the stream of a dispatch ends *)

(** A dispatch whose prompt is accepted reads the stream; over events other
    than the result it emits responses only. *)
Lemma queryLettaSDK_streaming (command options : value) (env : Env) (w : World)
    (handle : nat) (init a : value) (prompt : list N) (pre rest : list StreamItem) :
  options <> JNull ->
  createSession_result env = Normal handle ->
  initialize_result env = Normal init ->
  get_prop init "agentId" = Normal a -> truthy a = true ->
  prompt_of command = Normal prompt ->
  prompt = [] \/ send_result env = Normal tt ->
  stream_items env = pre ++ rest ->
  Forall not_terminal pre ->
  exists w4 before,
    queryLettaSDK command options env w
    = match consume rest w4 with
      | (w5, Throw err) => (emit (LettaError (error_text err) (agentId w5)) w5, Normal tt)
      | (w5, Normal _) => (w5, Normal tt)
      end
    /\ agentId w4 = a
    /\ trace w4 = trace w ++ before
    /\ Forall (fun o => is_terminal_signal o = false) before.
Proof.
  intros Ho Hc Hi Ha Hid Hp Hsend Hs Hpre.
  destruct (queryLettaSDK_initialized command options env w handle init a Ho Hc Hi Ha Hid)
    as (w2 & -> & Ha2 & _ & _ & Ht2).
  rewrite (stream_session_started command env w2 prompt Hp Hsend), Hs.
  set (w3 := if truthy (JStr prompt) then observe (Prompt prompt) w2 else w2).
  destruct (consume_not_terminal pre rest w3 Hpre) as (w4 & extra & -> & Ha4 & Ht4 & Hq4).
  assert (exists sent, trace w3 = trace w2 ++ sent /\ agentId w3 = a
                       /\ Forall (fun o => is_terminal_signal o = false) sent)
    as (sent & Ht3 & Ha3 & Hq3).
  { unfold w3. destruct (truthy (JStr prompt)).
    - exists [Prompt prompt]. split; [done|]. split; [done|]. by constructor.
    - exists []. by rewrite app_nil_r. }
  exists w4, (((if ws_setSessionId env then [BindSession a] else [])
               ++ [Emit (SessionCreated a a (field init "conversationId"))])
              ++ sent ++ extra).
  split; [done|]. split; [congruence|].
  split; [by rewrite Ht4, Ht3, Ht2, <- !app_assoc|].
  apply Forall_app. split; [|apply Forall_app; split; [done|]].
  - destruct (ws_setSessionId env); by repeat constructor.
  - eapply Forall_impl; [exact Hq4 | apply response_not_terminal].
Qed.

(** X16: when the backend does not take the prompt, the dispatch reports the
    failure and never reads the stream: after the session-created signal it
    hands over the trimmed prompt once, emits one error signal with the text
    of the failure and the session identity, and is fulfilled. *)
Theorem rejected_prompt_reports_error :
  forall (command options : value) (env : Env) (w : World) (handle : nat)
         (init a err : value) (prompt : list N),
  options <> JNull ->
  createSession_result env = Normal handle ->
  initialize_result env = Normal init ->
  get_prop init "agentId" = Normal a -> truthy a = true ->
  prompt_of command = Normal prompt -> prompt <> [] ->
  send_result env = Throw err ->
  snd (queryLettaSDK command options env w) = Normal tt
  /\ trace (fst (queryLettaSDK command options env w))
     = trace w ++ (if ws_setSessionId env then [BindSession a] else [])
               ++ [Emit (SessionCreated a a (field init "conversationId"));
                   Prompt prompt;
                   Emit (LettaError (error_text err) a)].
Proof.
  intros command options env w handle init a err prompt Ho Hc Hi Ha Hid Hp Hne Hsend.
  destruct (queryLettaSDK_initialized command options env w handle init a Ho Hc Hi Ha Hid)
    as (w2 & -> & Ha2 & _ & _ & Ht2).
  unfold stream_session. rewrite Hp, (proj2 (truthy_str prompt) Hne), Hsend.
  cbn. rewrite Ht2, Ha2. split; [done|]. by rewrite <- !app_assoc.
Qed.

Lemma rejected_prompt_reports_error_witness :
  trace (fst (queryLettaSDK (JStr (lit " hello ")) JUndefined refusing_env sample_world))
  = trace sample_world
    ++ (if ws_setSessionId refusing_env then [BindSession (JStr (lit "agent-1"))] else [])
    ++ [Emit (SessionCreated (JStr (lit "agent-1")) (JStr (lit "agent-1"))
                (field (JObj 4 [(lit "agentId", JStr (lit "agent-1"));
                                (lit "conversationId", JStr (lit "conv-1"))])
                       "conversationId"));
        Prompt (lit "hello");
        Emit (LettaError (error_text (JError 9 (lit "busy"))) (JStr (lit "agent-1")))].
Proof.
  refine (proj2 (rejected_prompt_reports_error (JStr (lit " hello ")) JUndefined
                   refusing_env sample_world 1%nat
                   (JObj 4 [(lit "agentId", JStr (lit "agent-1"));
                            (lit "conversationId", JStr (lit "conv-1"))])
                   (JStr (lit "agent-1")) (JError 9 (lit "busy")) (lit "hello")
                   _ _ _ _ _ _ _ _)); by vm_compute.
Defined.

(** X17: when reading the stream fails, because the iterator raises or
    because it yields [undefined] or [null], after events other than the
    result, the dispatch ends there: it is fulfilled, the last thing it does is
    to emit one error signal with the text of the failure and the session
    identity, and nothing before it is a completion or an error signal.  What
    the stream would have yielded afterwards is not looked at. *)
Theorem stream_failure_reports_error :
  forall (command options : value) (env : Env) (w : World) (handle : nat)
         (init a err : value) (prompt : list N) (pre rest : list StreamItem)
         (item : StreamItem),
  options <> JNull ->
  createSession_result env = Normal handle ->
  initialize_result env = Normal init ->
  get_prop init "agentId" = Normal a -> truthy a = true ->
  prompt_of command = Normal prompt ->
  prompt = [] \/ send_result env = Normal tt ->
  stream_items env = pre ++ item :: rest ->
  Forall not_terminal pre ->
  item = Raise err \/ (exists msg, item = Yield msg /\ get_prop msg "type" = Throw err) ->
  snd (queryLettaSDK command options env w) = Normal tt
  /\ exists before,
       trace (fst (queryLettaSDK command options env w))
       = trace w ++ before ++ [Emit (LettaError (error_text err) a)]
       /\ Forall (fun o => is_terminal_signal o = false) before.
Proof.
  intros command options env w handle init a err prompt pre rest item
         Ho Hc Hi Ha Hid Hp Hsend Hs Hpre Hitem.
  destruct (queryLettaSDK_streaming command options env w handle init a prompt pre
              (item :: rest) Ho Hc Hi Ha Hid Hp Hsend Hs Hpre)
    as (w4 & before & -> & Ha4 & Ht4 & Hq4).
  assert (consume (item :: rest) w4 = (w4, Throw err)) as ->.
  { destruct Hitem as [-> | (msg & -> & Hm)]; [done|].
    cbn [consume]. unfold consume_event. by rewrite Hm. }
  cbn. split; [done|]. exists before. by rewrite Ht4, Ha4, <- app_assoc.
Qed.

Lemma stream_failure_reports_error_witness :
  snd (queryLettaSDK (JStr (lit "go on")) JUndefined raising_env sample_world) = Normal tt.
Proof.
  refine (proj1 (stream_failure_reports_error (JStr (lit "go on")) JUndefined
                   raising_env sample_world 1%nat
                   (JObj 4 [(lit "agentId", JStr (lit "agent-1"));
                            (lit "conversationId", JStr (lit "conv-1"))])
                   (JStr (lit "agent-1")) (JError 8 (lit "socket closed")) (lit "go on")
                   [Yield (JObj 5 [(lit "type", JStr (lit "assistant"));
                                   (lit "content", JStr (lit "one"))])]
                   [Yield (JObj 6 [(lit "type", JStr (lit "result"));
                                   (lit "success", JBool true)])]
                   (Raise (JError 8 (lit "socket closed")))
                   _ _ _ _ _ _ _ _ _ _)); try by vm_compute.
  - by right.
  - constructor; [|constructor].
    exists (JObj 5 [(lit "type", JStr (lit "assistant")); (lit "content", JStr (lit "one"))]),
           (JStr (lit "assistant")).
    split; [done|]. split; [done | by vm_compute].
  - by left.
Defined.

(** X18: a stream that ends without a result event ends the dispatch in
    silence: the dispatch is fulfilled, and nothing it did is a completion or
    an error signal, so the client is not told that the turn is over. *)
Theorem stream_end_without_result_is_silent :
  forall (command options : value) (env : Env) (w : World) (handle : nat)
         (init a : value) (prompt : list N),
  options <> JNull ->
  createSession_result env = Normal handle ->
  initialize_result env = Normal init ->
  get_prop init "agentId" = Normal a -> truthy a = true ->
  prompt_of command = Normal prompt ->
  prompt = [] \/ send_result env = Normal tt ->
  Forall not_terminal (stream_items env) ->
  snd (queryLettaSDK command options env w) = Normal tt
  /\ exists news,
       trace (fst (queryLettaSDK command options env w)) = trace w ++ news
       /\ Forall (fun o => is_terminal_signal o = false) news.
Proof.
  intros command options env w handle init a prompt Ho Hc Hi Ha Hid Hp Hsend Hpre.
  destruct (queryLettaSDK_streaming command options env w handle init a prompt
              (stream_items env) [] Ho Hc Hi Ha Hid Hp Hsend) as (w4 & before & -> & _ & Ht4 & Hq4).
  { by rewrite app_nil_r. }
  { done. }
  cbn. split; [done|]. by exists before.
Qed.

Lemma stream_end_without_result_is_silent_witness :
  snd (queryLettaSDK (JStr (lit "go on")) JUndefined quiet_env sample_world) = Normal tt.
Proof.
  refine (proj1 (stream_end_without_result_is_silent (JStr (lit "go on")) JUndefined
                   quiet_env sample_world 1%nat
                   (JObj 4 [(lit "agentId", JStr (lit "agent-1"));
                            (lit "conversationId", JStr (lit "conv-1"))])
                   (JStr (lit "agent-1")) (lit "go on")
                   _ _ _ _ _ _ _ _)); try by vm_compute.
  - by right.
  - constructor; [|constructor].
    exists (JObj 5 [(lit "type", JStr (lit "assistant")); (lit "content", JStr (lit "one"))]),
           (JStr (lit "assistant")).
    split; [done|]. split; [done | by vm_compute].
Defined.

(** ** The prompt *)

Lemma prompts_app (t1 t2 : list Obs) : prompts (t1 ++ t2) = prompts t1 ++ prompts t2.
Proof. apply omap_app. Qed.

Lemma consume_prompts (items : list StreamItem) (w : World) :
  prompts (trace (fst (consume items w))) = prompts (trace w).
Proof.
  destruct (consume_general items w) as (resp & fin & -> & Hr & Hf & _).
  rewrite !prompts_app.
  assert (prompts resp = []) as ->.
  { induction Hr as [|o l (_ & p & -> & _) _ IH]; [done | exact IH]. }
  assert (prompts fin = []) as ->.
  { by destruct Hf as [-> | (p & -> & _)]. }
  by rewrite !app_nil_r.
Qed.

(** The prompt the streaming block hands to the session. *)
Lemma stream_session_prompts (command : value) (env : Env) (w : World) :
  prompts (trace (fst (stream_session command env w)))
  = prompts (trace w)
    ++ match command with
       | JStr s => match trim s with [] => [] | _ => [trim s] end
       | _ => []
       end.
Proof.
  assert (forall s, prompt_of (JStr s) = Normal (trim s)) as Hstr.
  { intros s. unfold prompt_of, js_or. destruct (truthy (JStr s)) eqn:E; [done|].
    destruct s; [done | discriminate E]. }
  assert (forall prompt,
            prompts (trace (fst (if truthy (JStr prompt)
                                 then let w := observe (Prompt prompt) w in
                                      match send_result env with
                                      | Throw e => (w, Throw e)
                                      | Normal _ => consume (stream_items env) w
                                      end
                                 else consume (stream_items env) w)))
            = prompts (trace w) ++ match prompt with [] => [] | _ => [prompt] end) as Hsent.
  { intros prompt. destruct prompt as [|c prompt].
    - replace (truthy (JStr [])) with false by done.
      by rewrite consume_prompts, app_nil_r.
    - replace (truthy (JStr (c :: prompt))) with true by done. cbn zeta.
      destruct (send_result env) as [[]|e]; [rewrite consume_prompts|]; cbn;
        by rewrite prompts_app. }
  unfold stream_session.
  destruct command as [| |b|z|s|r items|r fields|r message];
    try (rewrite Hstr; apply Hsent);
    match goal with
    | |- context [prompt_of ?c] =>
        assert (prompt_of c = Normal [] \/ exists e, prompt_of c = Throw e) as [-> | [e ->]]
          by (unfold prompt_of, js_or; destruct (truthy c); eauto)
    end;
    solve [apply (Hsent []) | cbn; by rewrite app_nil_r].
Qed.

(** X19: the dispatch hands the session exactly the command with the white
    space around it removed, once, and a command that is empty or all white
    space, or is not a string, sends no prompt at all. *)
Theorem prompt_is_trimmed_command :
  forall (command options : value) (env : Env) (w : World) (handle : nat)
         (init a : value),
  options <> JNull ->
  createSession_result env = Normal handle ->
  initialize_result env = Normal init ->
  get_prop init "agentId" = Normal a -> truthy a = true ->
  prompts (trace (fst (queryLettaSDK command options env w)))
  = prompts (trace w)
    ++ match command with
       | JStr s => match trim s with [] => [] | _ => [trim s] end
       | _ => []
       end.
Proof.
  intros command options env w handle init a Ho Hc Hi Ha Hid.
  destruct (queryLettaSDK_initialized command options env w handle init a Ho Hc Hi Ha Hid)
    as (w2 & -> & _ & _ & _ & Ht2).
  pose proof (stream_session_prompts command env w2) as H.
  assert (prompts (trace w2) = prompts (trace w)) as Hw2.
  { rewrite Ht2, !prompts_app. destruct (ws_setSessionId env); cbn; by rewrite app_nil_r. }
  rewrite Hw2 in H.
  destruct (stream_session command env w2) as [w3 r]. cbn [fst] in H.
  destruct r as [[]|err]; cbn [fst]; [done|].
  cbn [emit observe trace]. by rewrite prompts_app, H, app_nil_r.
Qed.

Lemma prompt_is_trimmed_command_witness :
  prompts (trace (fst (queryLettaSDK (JStr (lit "  list files ")) JUndefined
                         finishing_env sample_world)))
  = prompts (trace sample_world)
    ++ match JStr (lit "  list files ") with
       | JStr s => match trim s with [] => [] | _ => [trim s] end
       | _ => []
       end.
Proof.
  refine (prompt_is_trimmed_command (JStr (lit "  list files ")) JUndefined
            finishing_env sample_world 1%nat
            (JObj 4 [(lit "agentId", JStr (lit "agent-1"));
                     (lit "conversationId", JStr (lit "conv-1"))])
            (JStr (lit "agent-1")) _ _ _ _ _); by vm_compute.
Defined.

(** ** Aborting *)

Lemma map_get_delete {V} (k : value) (m : list (value * V)) :
  map_get k (map_delete k m) = None.
Proof. apply map_get_has. by rewrite map_has_delete, strict_eq_refl. Qed.

Lemma map_keys_delete {V} (k : value) (m : list (value * V)) :
  map fst (map_delete k m) = List.filter (fun k' => negb (strict_eq k' k)) (map fst m).
Proof.
  induction m as [|[k0 v0] m IH]; [done|].
  rewrite map_delete_cons. cbn. destruct (strict_eq k0 k); cbn; by rewrite IH.
Qed.

(** X20: aborting a registered session answers [true] and unregisters it,
    whether or not the session's [abort] and [close] fail.  It calls [abort]
    on the session found under the identity, then [close] if the session has
    one; afterwards the identity is not active, whatever was registered under
    it while [abort] was awaited, every other identity is active exactly if it
    was just before, the others keep their order in the list, and the pending
    approvals, their timers and the signals sent are untouched: aborting does
    not settle or cancel an approval that is waiting. *)
Theorem abort_unregisters_session :
  forall (id : value) (ops : SessionOps) (during : World -> World) (w : World)
         (entry : SessionEntry),
  map_get id (activeSessions w) = Some entry ->
  let calls := fst (fst (abortLettaSDKSession id ops during w)) in
  let answer := snd (fst (abortLettaSDKSession id ops during w)) in
  let w' := snd (abortLettaSDKSession id ops during w) in
  answer = true
  /\ calls = CallAbort (session entry)
             :: match close_result ops with
                | Some _ => [CallClose (session entry)]
                | None => []
                end
  /\ isLettaSDKSessionActive id w' = false
  /\ (forall id', strict_eq id id' = false ->
                  isLettaSDKSessionActive id' w' = isLettaSDKSessionActive id' (during w))
  /\ getActiveLettaSDKSessions w'
     = List.filter (fun k => negb (strict_eq k id)) (getActiveLettaSDKSessions (during w))
  /\ pendingToolApprovals w' = pendingToolApprovals (during w)
  /\ approvals w' = approvals (during w)
  /\ jobs w' = jobs (during w)
  /\ trace w' = trace (during w).
Proof.
  intros id ops during w entry He. cbn zeta. unfold abortLettaSDKSession. rewrite He.
  cbn [fst snd]. split; [done|]. split; [by destruct (close_result ops)|].
  unfold isLettaSDKSessionActive, getActiveLettaSDKSessions.
  cbn [activeSessions set_activeSessions pendingToolApprovals approvals jobs trace].
  split; [by rewrite map_has_delete, strict_eq_refl|].
  split; [intros id' Hid; by rewrite map_has_delete, Hid|].
  split; [apply map_keys_delete | done].
Qed.

Lemma abort_unregisters_session_witness :
  snd (fst (abortLettaSDKSession (JStr (lit "agent-1")) broken_ops (fun w => w)
              busy_world)) = true
  /\ getActiveLettaSDKSessions
       (snd (abortLettaSDKSession (JStr (lit "agent-1")) broken_ops (fun w => w)
               busy_world))
     = [JStr (lit "agent-2")].
Proof.
  destruct (abort_unregisters_session (JStr (lit "agent-1")) broken_ops (fun w => w)
              busy_world
              {| session := 1%nat; startTime := 5 |} eq_refl)
    as (H1 & _ & _ & _ & H5 & _).
  split; [exact H1 | exact H5].
Defined.

Lemma abort_inactive (id : value) (ops : SessionOps) (during : World -> World) (w : World) :
  map_get id (activeSessions w) = None ->
  abortLettaSDKSession id ops during w = ([], false, w).
Proof. intros He. unfold abortLettaSDKSession. by rewrite He. Qed.

Lemma abort_active (id : value) (ops : SessionOps) (during : World -> World) (w : World)
    (entry : SessionEntry) :
  map_get id (activeSessions w) = Some entry ->
  exists calls,
    abortLettaSDKSession id ops during w
    = (calls, true, set_activeSessions (map_delete id (activeSessions (during w))) (during w)).
Proof. intros He. unfold abortLettaSDKSession. rewrite He. by eexists. Qed.

(** X21: aborting answers whether the identity was active, and aborting again
    does nothing: on an identity that is not registered, and so on one that
    has just been aborted, the function answers [false], calls nothing on any
    session and leaves the module as it is. *)
Theorem abort_again_does_nothing :
  forall (id : value) (ops ops' : SessionOps) (during during' : World -> World)
         (w : World),
  let w' := snd (abortLettaSDKSession id ops during w) in
  snd (fst (abortLettaSDKSession id ops during w)) = isLettaSDKSessionActive id w
  /\ (isLettaSDKSessionActive id w = false ->
      abortLettaSDKSession id ops during w = ([], false, w))
  /\ abortLettaSDKSession id ops' during' w' = ([], false, w').
Proof.
  intros id ops ops' during during' w. cbn zeta. unfold isLettaSDKSessionActive.
  destruct (map_get id (activeSessions w)) as [entry|] eqn:He.
  - assert (map_has id (activeSessions w) = true) as ->.
    { destruct (map_has id (activeSessions w)) eqn:E; [done|].
      apply map_get_has in E. congruence. }
    destruct (abort_active id ops during w entry He) as [calls ->].
    cbn [fst snd]. split; [done|]. split; [done|].
    apply abort_inactive. cbn [activeSessions set_activeSessions]. apply map_get_delete.
  - rewrite (proj1 (map_get_has id (activeSessions w)) He).
    rewrite (abort_inactive id ops during w He). cbn [fst snd].
    split; [done|]. split; [done|]. by apply abort_inactive.
Qed.

(** ** The list of sessions *)

Lemma queryLettaSDK_sessions (command options : value) (env : Env) (w : World) :
  activeSessions (fst (queryLettaSDK command options env w)) = activeSessions w
  \/ exists a entry,
       activeSessions (fst (queryLettaSDK command options env w))
       = map_set a entry (activeSessions w).
Proof.
  unfold queryLettaSDK.
  destruct (read_options options env) as [[[mode settings] requested]|e]; [|by left].
  destruct (createSession_result env) as [handle|e]; [|by left].
  destruct (initialize_session env) as [[init a]|e]; [|by left].
  destruct (negb (truthy a)); [by left|].
  destruct (get_prop init "conversationId") as [c|e].
  - match goal with
    | |- context [stream_session command env ?w2] =>
        destruct (stream_session_general command env w2)
          as (sent & resp & fin & _ & _ & _ & _ & _ & _ & Hs & _);
        destruct (stream_session command env w2) as [w3 r]
    end.
    cbn [fst snd] in Hs. right.
    exists a, {| session := handle; startTime := now (enter_dispatch mode settings requested w) |}.
    destruct r as [[]|err]; cbn [fst snd emit observe activeSessions]; rewrite Hs;
      by destruct (ws_setSessionId env).
  - right. eexists a, _. by destruct (ws_setSessionId env).
Qed.

(** X22: the list of active sessions never names a session twice.  If no two
    entries of the registry have the same key, that is still so after any
    dispatch, successful or not, and after any abort, and then
    [getActiveLettaSDKSessions] returns a list without repetition. *)
Theorem sessions_are_listed_once :
  forall (w : World),
  distinct_keys (activeSessions w) = true ->
  NoDup (getActiveLettaSDKSessions w)
  /\ (forall command options env,
        distinct_keys (activeSessions (fst (queryLettaSDK command options env w))) = true)
  /\ (forall id ops during,
        distinct_keys (activeSessions (during w)) = true ->
        distinct_keys (activeSessions (snd (abortLettaSDKSession id ops during w))) = true).
Proof.
  intros w Hd. split; [by apply distinct_keys_NoDup|]. split.
  - intros command options env.
    destruct (queryLettaSDK_sessions command options env w) as [-> | (a & entry & ->)];
      [done | by apply distinct_keys_set].
  - intros k ops during Hd'. unfold abortLettaSDKSession.
    destruct (map_get k (activeSessions w)); [|done].
    cbn. by apply distinct_keys_delete.
Qed.

Lemma sessions_are_listed_once_witness :
  NoDup (getActiveLettaSDKSessions busy_world).
Proof.
  refine (proj1 (sessions_are_listed_once busy_world _)). by vm_compute.
Defined.

(** ** The session of the approval signals *)




(** The assignment touches nothing the gate keeps. *)
Lemma set_agentId_gate_inv (a : value) (w : World) : gate_inv w -> gate_inv (set_agentId a w).
Proof. intros [Hj Hw]. split; [done|]. by apply (gate_ok_ext w). Qed.

Lemma dispatch_step_gate_inv (w : World) (d : dispatch_event) :
  gate_inv w -> gate_inv (dispatch_step w d).
Proof. destruct d; [apply step_gate_inv | apply set_agentId_gate_inv]. Qed.

Lemma dispatch_run_snoc (ds : list dispatch_event) (d : dispatch_event) (w : World) :
  dispatch_run (ds ++ [d]) w = dispatch_step (dispatch_run ds w) d.
Proof. unfold dispatch_run. by rewrite fold_left_app. Qed.

(** Induction over the states of a dispatch, the assignment included. *)
Lemma dispatch_invariant (P : World -> Prop) sessions uuid clock mode settings
    requested agent (ds : list dispatch_event) :
  P (boot sessions uuid clock mode settings requested agent) ->
  (forall w ev, gate_inv w -> randomUUID w = uuid -> P w -> P (step w ev)) ->
  (forall w a, gate_inv w -> randomUUID w = uuid -> P w -> P (set_agentId a w)) ->
  gate_inv (dispatch_run ds (boot sessions uuid clock mode settings requested agent))
  /\ randomUUID (dispatch_run ds (boot sessions uuid clock mode settings requested agent))
     = uuid
  /\ P (dispatch_run ds (boot sessions uuid clock mode settings requested agent)).
Proof.
  intros Hboot Hstep Hset.
  induction ds as [|d ds (Hw & Hu & Hp)] using rev_ind.
  - split; [split; [done | apply gate_ok_boot]|]. by split.
  - rewrite dispatch_run_snoc. split; [by apply dispatch_step_gate_inv|].
    destruct d as [ev|a]; cbn [dispatch_step].
    + split; [|by apply Hstep].
      destruct (step_shape_of _ ev Hw) as (? & ? & _ & _ & _ & -> & _). done.
    + split; [done | by apply Hset].
Qed.

(** The invariants of the gate do not depend on the session identity: they
    hold in every state of a dispatch, before and after the assignment. *)
Lemma gate_invariants_in_dispatch sessions uuid clock mode settings requested agent
    (ds : list dispatch_event) :
  let w := dispatch_run ds (boot sessions uuid clock mode settings requested agent) in
  gate_inv w /\ tokens_by_position w /\ announced w /\ answered_once w
  /\ ((forall i j, uuid i = uuid j -> i = j) -> pending_complete w).
Proof.
  cbn zeta.
  destruct (dispatch_invariant
              (fun w => tokens_by_position w /\ announced w /\ answered_once w
                        /\ ((forall i j, uuid i = uuid j -> i = j) -> pending_complete w))
              sessions uuid clock mode settings requested agent ds) as (Hw & _ & H).
  - split; [|split; [|split]].
    + split; [done|]. intros a ap H. cbn in H. by rewrite lookup_nil in H.
    + split; [done|]. intros k H. cbn in H. by apply elem_of_nil in H.
    + intros a. by cbn.
    + intros _ a ap H. cbn in H. by rewrite lookup_nil in H.
  - intros w ev Hw Hu (Ht & Han & Hans & Hpc). split; [|split; [|split]].
    + by apply step_tokens_by_position.
    + by apply step_announced.
    + by apply step_answered_once.
    + intros Hinj. apply step_pending_complete; [by rewrite Hu | done | done | by apply Hpc].
  - intros w a _ _ H. exact H.
  - by split.
Qed.



(** A request announced under the requested identity and, the backend's
    identity assigned meanwhile, cancelled under that one. *)
Lemma cancellation_under_assigned_identity :
  signals (trace (dispatch_run [GateEvent ls_call;
                                AgentAssigned (JStr (lit "agent-1"));
                                GateEvent (TimerFires 0)] resuming_world))
  = [PermissionRequest (lit "letta_0") (JStr (lit "Bash"))
       (JObj 1 [(lit "command", JStr (lit "ls -la"))]) (JStr (lit "req-1"));
     PermissionCancelled (lit "letta_0") (lit "timeout") (JStr (lit "agent-1"))].
Proof. by vm_compute. Qed.
